(** * The story execution engine of qay-web

    A shallow embedding of

    - [execute-story.ts]: [findElement], [executeStep], [authenticateUser],
      [uploadScreenshot] and [executeStory];
    - [worker/test-executor.ts]: the story loop of [executeTestRun];
    - [src/lib/crypto.ts]: [encrypt] and [decrypt];

    followed by the properties of the specification that these functions
    decide.

    The browser, the storage service and the clock are external: they are
    modelled as a deterministic environment that answers each call as a
    function of the calls made so far.  Quantifying over every such
    environment covers every behaviour a real browser can show. *)

From Stdlib Require Import String Ascii ZArith NArith List Bool Lia Arith.
From Stdlib.Strings Require Byte.
From stdpp Require Import gmap strings.
Import ListNotations.

Local Open Scope string_scope.
Local Open Scope list_scope.

(** ** JavaScript values and string primitives

    A [string] stands for a JavaScript string whose UTF-16 code units all lie
    below 256, one [ascii] per code unit. *)

Module JS.

(** The character U+0022. *)
Definition dquote : string := String (ascii_of_nat 34) EmptyString.

(** [s.startsWith(p)] *)
Definition startsWith (s p : string) : bool := String.prefix p s.

(** [s.includes(sub)] *)
Fixpoint includes (s sub : string) : bool :=
  String.prefix sub s ||
  match s with
  | EmptyString => false
  | String _ s' => includes s' sub
  end.

(** One code unit of [toLowerCase]: A-Z, and the Latin-1 capitals
    U+00C0..U+00DE except the multiplication sign U+00D7. *)
Definition lowerChar (c : ascii) : ascii :=
  let n := nat_of_ascii c in
  if (((65 <=? n) && (n <=? 90)) ||
      ((192 <=? n) && (n <=? 222) && negb (n =? 215)))%nat
  then ascii_of_nat (n + 32) else c.

(** [s.toLowerCase()] *)
Fixpoint toLowerCase (s : string) : string :=
  match s with
  | EmptyString => EmptyString
  | String c s' => String (lowerChar c) (toLowerCase s')
  end.

(** Truthiness of an optional string: [undefined] and [""] are falsy. *)
Definition truthy (v : option string) : bool :=
  match v with
  | Some (String _ _) => true
  | _ => false
  end.

(** [a || b] on optional strings. *)
Definition or (a b : option string) : option string :=
  if truthy a then a else b.

(** [a || d] where [d] is a string literal. *)
Definition orDefault (a : option string) (d : string) : string :=
  match a with
  | Some (String c s) => String c s
  | _ => d
  end.

(** [a ?? d]: only [undefined] is replaced. *)
Definition nullish (a : option string) (d : string) : string :=
  match a with
  | Some s => s
  | None => d
  end.

(** White space skipped by [parseInt] (the code units below 256 of
    StrWhiteSpaceChar): TAB, LF, VT, FF, CR, SP, NBSP. *)
Definition isWhiteSpace (c : ascii) : bool :=
  let n := nat_of_ascii c in
  (((9 <=? n) && (n <=? 13)) || (n =? 32) || (n =? 160))%nat.

Fixpoint trimStart (s : string) : string :=
  match s with
  | String c s' => if isWhiteSpace c then trimStart s' else s
  | EmptyString => EmptyString
  end.

Definition digitValue (c : ascii) : option Z :=
  let n := nat_of_ascii c in
  if ((48 <=? n) && (n <=? 57))%nat then Some (Z.of_nat (n - 48)) else None.

(** The longest prefix of decimal digits, read with accumulator [acc];
    [seen] tells whether a digit has been read. *)
Fixpoint readDigits (s : string) (seen : bool) (acc : Z) : option Z :=
  match s with
  | EmptyString => if seen then Some acc else None
  | String c s' =>
      match digitValue c with
      | Some d => readDigits s' true (10 * acc + d)
      | None => if seen then Some acc else None
      end
  end.

(** The Number that stands for the integer [n]: [n] itself below 2^53 in
    magnitude, and beyond that the nearest integer with 53 significant
    bits, a tie going to the one whose last bit is 0. *)
Definition toNumber (n : Z) : Z :=
  let a := Z.abs n in
  if (a <? 2 ^ 53)%Z then n
  else
    let e := (Z.log2 a - 52)%Z in
    let q := (a / 2 ^ e)%Z in
    let r := (a mod 2 ^ e)%Z in
    let half := (2 ^ (e - 1))%Z in
    let q' := if (half <? r)%Z || ((r =? half)%Z && Z.odd q)
              then (q + 1)%Z else q in
    (Z.sgn n * (q' * 2 ^ e))%Z.

(** [parseInt(s, 10)]; [None] is NaN.  With radix 10 no [0x] prefix is
    recognised.  The digits are read as an integer, which is then rounded
    to a Number.  (A value beyond the largest double is [Infinity] in
    JavaScript; its rounded integer stands for it here.) *)
Definition parseInt (s : string) : option Z :=
  option_map toNumber
    match trimStart s with
    | String c s' =>
        if Ascii.eqb c "-" then option_map Z.opp (readDigits s' false 0)
        else if Ascii.eqb c "+" then readDigits s' false 0
        else readDigits (String c s') false 0
    | EmptyString => None
    end.

(** [s.split(sep)] for a one-character separator: the fields between the
    occurrences of [sep], in order; always at least one field. *)
Fixpoint split (sep : ascii) (s : string) : list string :=
  match s with
  | EmptyString => [EmptyString]
  | String c s' =>
      if Ascii.eqb c sep then EmptyString :: split sep s'
      else match split sep s' with
           | field :: fields => String c field :: fields
           | [] => [String c EmptyString]
           end
  end.

(** [parts.join(sep)] *)
Fixpoint join (sep : string) (parts : list string) : string :=
  match parts with
  | [] => EmptyString
  | [p] => p
  | p :: rest => p +:+ sep +:+ join sep rest
  end.

(** [s.replace(/[:.]/g, "-")] *)
Fixpoint replaceColonDot (s : string) : string :=
  match s with
  | EmptyString => EmptyString
  | String c s' =>
      String (if Ascii.eqb c ":" || Ascii.eqb c "." then "-"%char else c)
             (replaceColonDot s')
  end.

End JS.


(** ** The types of [execute-story.ts] *)

Record StoryStep := {
  action : string;
  selector : option string;
  element : option string;
  value : option string;
  description : option string
}.

Record Verification := {
  v_type : string;
  v_target : option string;
  v_expected : string
}.

(** [outcome] is [None] when [story.outcome?.verifications] is undefined. *)
Record Story := {
  id : string;
  steps : list StoryStep;
  outcome : option (list Verification);
  required_role : option string
}.

Inductive AuthType := auth_none | auth_basic | auth_form | auth_oauth.

Record AuthConfig := {
  auth_type : AuthType;
  loginUrl : option string;
  usernameSelector : option string;
  passwordSelector : option string;
  submitSelector : option string;
  successIndicator : option string
}.

(** A field is [None] when the object handed over as credentials has no such
    property. *)
Record UserCredentials := {
  username : option string;
  password : option string
}.

(** [retryCount] is a count: the one caller passes 3. *)
Record ExecutionOptions := {
  retryCount : nat;
  screenshotOnFailure : bool;
  credentials : option UserCredentials;
  authConfig : option AuthConfig
}.

Record StepResult := {
  sr_step : nat;
  sr_action : string;
  sr_passed : bool;
  sr_duration_ms : Z;
  sr_error : option string
}.

(** [step_results] is the field [steps]; [heal_proposal], which
    [executeStory] never sets, is left out. *)
Record ExecutionResult := {
  passed : bool;
  duration_ms : Z;
  step_results : list StepResult;
  error : option string;
  screenshot_url : option string;
  console_errors : list string;
  retries : nat
}.

(** ** The browser as an environment *)

(** What [page.locator], [page.getByLabel], ... and [.first()] build.
    Building a locator does not touch the page. *)
Inductive Locator :=
| Css (selector : string)
| GetByLabel (text : string)
| GetByPlaceholder (text : string)
| GetByRole (role name : string)
| GetByText (text : string)
| First (l : Locator).

(** The calls that reach the outside world, and three markers: [EnterStory]
    and [EnterStep] record the entry into [executeStory] and [executeStep],
    [StepDone] the result [executeStep] returns. *)
Inductive Event :=
| EnterStory (storyId : string)
| EnterStep (stepIndex : nat)
| StepDone (r : StepResult)
| NewContext
| NewPage
| CloseContext
| Goto (url : string)
| PageFill (selector : string) (text : option string)
| PageClick (selector : string)
| WaitForSelector (selector : string) (timeout : Z)
| WaitForLoadState
| IsVisible (l : Locator) (timeout : option Z)
| Click (l : Locator)
| Fill (l : Locator) (text : string)
| SelectOption (l : Locator) (option : string)
| Check (l : Locator)
| Uncheck (l : Locator)
| ScrollIntoViewIfNeeded (l : Locator)
| Hover (l : Locator)
| Focus (l : Locator)
| ScrollBy (x y : Z)
| KeyboardPress (key : string)
| WaitForTimeout (ms : option Z)
| Url
| Screenshot
| Upload (filename : string).

(** The calls made so far, the latest first. *)
Definition History := list Event.

Inductive UploadAnswer :=
| Stored            (* no error *)
| UploadError       (* the storage service answers with an error *)
| UploadThrows.     (* the client throws *)

(** An environment answers every call from the history before it.
    [rejects h e = Some msg] says that call [e] throws an [Error] with
    message [msg]. *)
Record Browser := {
  rejects : History -> Event -> option string;
  visible : History -> Locator -> bool;
  currentUrl : History -> string;
  uploadAnswer : History -> string -> UploadAnswer;
  publicUrl : string -> string;
  now : History -> Z;
  isoNow : History -> string;
  consoleErrors : History -> list string;
  resolveUrl : string -> string -> option string
}.

(** A computation over the history that returns or throws. *)
Inductive Result (A : Type) :=
| Ok (a : A)
| Throw (msg : string).
Arguments Ok {A} a.
Arguments Throw {A} msg.

Definition M (A : Type) : Type := History -> Result A * History.

Definition ret {A} (a : A) : M A := fun h => (Ok a, h).

Definition bind {A B} (m : M A) (k : A -> M B) : M B :=
  fun h =>
    match m h with
    | (Ok a, h') => k a h'
    | (Throw msg, h') => (Throw msg, h')
    end.

Notation "'call' x <- m ; k" := (bind m (fun x => k))
  (at level 10, x name, m at level 100, k at level 200).

(** ** [execute-story.ts] *)

(** The keywords that the chain of [executeStep] tests before ["wait"], in
    the order of the chain. *)
Definition keywordsBeforeWait : list string :=
  [ "navigate"; "go to"; "click"; "tap"; "type"; "enter"; "fill"; "select";
    "choose"; "check"; "uncheck" ].


Section ExecuteStory.

Variable b : Browser.

(** A call that may throw. *)
Definition perform (e : Event) : M unit :=
  fun h =>
    match rejects b h e with
    | Some msg => (Throw msg, e :: h)
    | None => (Ok tt, e :: h)
    end.

(** [page.waitForTimeout(ms)]: a timer; it is recorded and does not throw. *)
Definition waitForTimeout (ms : option Z) : M unit :=
  fun h => (Ok tt, WaitForTimeout ms :: h).

(** [uploadScreenshot]: never throws; [None] is [null]. *)
Definition uploadScreenshot (storyId timestamp : string)
  : History -> option string * History :=
  fun h =>
    let filename := storyId +:+ "/" +:+ timestamp +:+ ".png" in
    match uploadAnswer b h filename with
    | Stored => (Some (publicUrl b filename), Upload filename :: h)
    | UploadError => (None, Upload filename :: h)
    | UploadThrows => (None, Upload filename :: h)
    end.

(** [await page.screenshot()] followed by
    [await uploadScreenshot(...) || undefined]. *)
Definition captureScreenshot (storyId : string) : M (option string) :=
  call _ <- perform Screenshot;
  fun h =>
    let timestamp := JS.replaceColonDot (isoNow b h) in
    match uploadScreenshot storyId timestamp h with
    | (Some (String c u), h') => (Ok (Some (String c u)), h')
    | (_, h') => (Ok None, h')
    end.

Definition defaultUsernameSelector : string :=
  "input[type=" +:+ JS.dquote +:+ "email" +:+ JS.dquote +:+ "], input[name="
  +:+ JS.dquote +:+ "email" +:+ JS.dquote +:+ "], input[name=" +:+ JS.dquote
  +:+ "username" +:+ JS.dquote +:+ "], #email, #username".

Definition defaultPasswordSelector : string :=
  "input[type=" +:+ JS.dquote +:+ "password" +:+ JS.dquote
  +:+ "], input[name=" +:+ JS.dquote +:+ "password" +:+ JS.dquote
  +:+ "], #password".

Definition defaultSubmitSelector : string :=
  "button[type=" +:+ JS.dquote +:+ "submit" +:+ JS.dquote
  +:+ "], input[type=" +:+ JS.dquote +:+ "submit" +:+ JS.dquote
  +:+ "], button:has-text(" +:+ JS.dquote +:+ "Login" +:+ JS.dquote
  +:+ "), button:has-text(" +:+ JS.dquote +:+ "Sign in" +:+ JS.dquote +:+ ")".

(** [authenticateUser]: [None] is [{ success: true }], [Some msg] is
    [{ success: false, error: msg }]. *)
Definition authenticateUser (baseUrl : string) (creds : UserCredentials)
    (cfg : AuthConfig) : History -> option string * History :=
  fun h =>
    let body : M unit :=
      call target <- (fun h =>
          match resolveUrl b (JS.nullish (loginUrl cfg) "/") baseUrl with
          | Some u => (Ok u, h)
          | None => (Throw "Invalid URL", h)
          end);
      call _ <- perform (Goto target);
      call _ <- perform (PageFill
          (JS.orDefault (usernameSelector cfg) defaultUsernameSelector)
          (username creds));
      call _ <- perform (PageFill
          (JS.orDefault (passwordSelector cfg) defaultPasswordSelector)
          (password creds));
      call _ <- perform (PageClick
          (JS.orDefault (submitSelector cfg) defaultSubmitSelector));
      match successIndicator cfg with
      | Some (String c s) => perform (WaitForSelector (String c s) 10000)
      | _ => perform WaitForLoadState
      end
    in
    match body h with
    | (Ok _, h') => (None, h')
    | (Throw msg, h') => (Some ("Authentication failed: " +:+ msg), h')
    end.

(** The test at the head of [findElement]. *)
Definition looksLikeCss (target : string) : bool :=
  JS.startsWith target "#" || JS.startsWith target "." ||
  JS.startsWith target "[" || JS.includes target "=".

Definition attr (tag name val : string) : Locator :=
  Css (tag +:+ "[" +:+ name +:+ "=" +:+ JS.dquote +:+ val +:+ JS.dquote
       +:+ "]").

(** The array [strategies] after the four [unshift]s. *)
Definition strategies (target : string) : list Locator :=
  let targetLower := JS.toLowerCase target in
  let s0 := [ GetByLabel target; GetByPlaceholder target;
              GetByRole "textbox" target; GetByRole "button" target;
              GetByRole "link" target; GetByText target ] in
  let s1 := if JS.includes targetLower "email"
            then [ attr "input" "type" "email"; attr "input" "name" "email";
                   attr "input" "name" "Email"; Css "#email" ] ++ s0
            else s0 in
  let s2 := if JS.includes targetLower "password"
            then [ attr "input" "type" "password";
                   attr "input" "name" "password"; Css "#password" ] ++ s1
            else s1 in
  let s3 := if JS.includes targetLower "username"
            then [ attr "input" "name" "username"; Css "#username" ] ++ s2
            else s2 in
  if JS.includes targetLower "submit" || JS.includes targetLower "login"
     || JS.includes targetLower "sign in"
  then [ attr "button" "type" "submit"; attr "input" "type" "submit" ] ++ s3
  else s3.

(** [locator.first().isVisible({ timeout: 1000 }).catch(() => false)] *)
Definition probe (l : Locator) : History -> bool * History :=
  fun h =>
    let e := IsVisible (First l) (Some 1000%Z) in
    match rejects b h e with
    | Some _ => (false, e :: h)
    | None => (visible b h (First l), e :: h)
    end.

(** The loop over [strategies], then the fallback. *)
Fixpoint tryStrategies (candidates : list Locator) (target : string)
  : History -> Locator * History :=
  fun h =>
    match candidates with
    | [] => (Css target, h)
    | l :: rest =>
        match probe l h with
        | (true, h') => (First l, h')
        | (false, h') => tryStrategies rest target h'
        end
    end.

Definition findElement (target : string) : History -> Locator * History :=
  fun h =>
    if looksLikeCss target then (Css target, h)
    else tryStrategies (strategies target) target h.

(** [const element = await findElement(page, target); await element.act()] *)
Definition onElement (target : string) (act : Locator -> Event) : M unit :=
  fun h =>
    let '(l, h') := findElement target h in
    perform (act l) h'.

(** [if (target) { const element = await findElement(page, target);
    await element.act() }] *)
Definition withTarget (target : option string) (act : Locator -> Event)
  : M unit :=
  match target with
  | Some (String c t) => onElement (String c t) act
  | _ => ret tt
  end.

(** The [if]/[else if] chain of [executeStep], inside its [try]. *)
Definition dispatch (step : StoryStep) : M unit :=
  let action := JS.toLowerCase (action step) in
  let target := JS.or (selector step) (element step) in
  if JS.includes action "navigate" || JS.includes action "go to" then
    match JS.or (value step) (element step) with
    | Some (String c u) => perform (Goto (String c u))
    | _ => ret tt
    end
  else if JS.includes action "click" || JS.includes action "tap" then
    withTarget target Click
  else if JS.includes action "type" || JS.includes action "enter"
          || JS.includes action "fill" then
    withTarget target (fun l => Fill l (JS.orDefault (value step) ""))
  else if JS.includes action "select" || JS.includes action "choose" then
    withTarget target (fun l => SelectOption l (JS.orDefault (value step) ""))
  else if JS.includes action "check" then
    withTarget target Check
  else if JS.includes action "uncheck" then
    withTarget target Uncheck
  else if JS.includes action "wait" then
    waitForTimeout (JS.parseInt (JS.orDefault (value step) "1000"))
  else if JS.includes action "scroll" then
    match target with
    | Some (String c t) => onElement (String c t) ScrollIntoViewIfNeeded
    | _ => perform (ScrollBy 0 300)
    end
  else if JS.includes action "hover" then
    withTarget target Hover
  else if JS.includes action "press" then
    perform (KeyboardPress (JS.orDefault (value step) "Enter"))
  else if JS.includes action "focus" then
    withTarget target Focus
  else
    withTarget target Click.

Definition executeStep (step : StoryStep) (stepIndex : nat)
  : History -> StepResult * History :=
  fun h0 =>
    let h := EnterStep stepIndex :: h0 in
    let startTime := now b h in
    let '(outcome, h') :=
      (call _ <- dispatch step; waitForTimeout (Some 100%Z)) h in
    let r := {| sr_step := stepIndex;
                sr_action := action step;
                sr_passed := match outcome with Ok _ => true | Throw _ => false end;
                sr_duration_ms := now b h' - startTime;
                sr_error := match outcome with Ok _ => None | Throw msg => Some msg end |} in
    (r, StepDone r :: h').

(** The local variables of [executeStory] that its [try] block updates and
    its [catch] block and [return] read. *)
Record Locals := {
  l_stepResults : list StepResult;
  l_passed : bool;
  l_error : option string;
  l_screenshotUrl : option string;
  l_retries : nat
}.

Definition initialLocals : Locals :=
  {| l_stepResults := []; l_passed := true; l_error := None;
     l_screenshotUrl := None; l_retries := 0 |}.

(** [stepResults.push(r)] with [retries] as the retry loop left it. *)
Definition pushResult (l : Locals) (r : StepResult) (retries' : nat) : Locals :=
  {| l_stepResults := l_stepResults l ++ [r]; l_passed := l_passed l;
     l_error := l_error l; l_screenshotUrl := l_screenshotUrl l;
     l_retries := retries' |}.

(** [passed = false; error = e] *)
Definition setFailed (l : Locals) (e : option string) : Locals :=
  {| l_stepResults := l_stepResults l; l_passed := false; l_error := e;
     l_screenshotUrl := l_screenshotUrl l; l_retries := l_retries l |}.

(** [screenshotUrl = u] *)
Definition setScreenshot (l : Locals) (u : option string) : Locals :=
  {| l_stepResults := l_stepResults l; l_passed := l_passed l;
     l_error := l_error l; l_screenshotUrl := u;
     l_retries := l_retries l |}.

(** A stretch of the [try] block: it updates the locals and the history
    and may throw ([Some msg]). *)
Definition Block : Type := Locals -> History -> option string * Locals * History.

(** The loop [while (attempts <= options.retryCount)] for one step.
    [options.retryCount] is not negative, so the body runs once before the
    condition can fail; [retriesLeft] is [retryCount - attempts] at the
    head of the body.  Returns [stepResult], [lastError] and [retries]. *)
Fixpoint attemptStep (retriesLeft : nat) (step : StoryStep) (i : nat)
    (lastError : option string) (retries : nat)
  : History -> (StepResult * option string * nat) * History :=
  fun h =>
    let '(stepResult, h1) := executeStep step i h in
    if sr_passed stepResult then ((stepResult, lastError, retries), h1)
    else
      match retriesLeft with
      | O => ((stepResult, sr_error stepResult, S retries), h1)
      | S k =>
          attemptStep k step i (sr_error stepResult) (S retries)
                      (WaitForTimeout (Some 1000%Z) :: h1)
      end.

(** The loop [for (let i = 0; i < story.steps.length; i++)], from index
    [i] on. *)
Fixpoint runSteps (opts : ExecutionOptions) (storyId : string)
    (todo : list StoryStep) (i : nat) : Block :=
  fun l h =>
    match todo with
    | [] => (None, l, h)
    | step :: rest =>
        let '((stepResult, lastError, retries'), h1) :=
          attemptStep (retryCount opts) step i None (l_retries l) h in
        let l1 := pushResult l stepResult retries' in
        if sr_passed stepResult then runSteps opts storyId rest (S i) l1 h1
        else
          let l2 := setFailed l1 lastError in
          if screenshotOnFailure opts then
            match captureScreenshot storyId h1 with
            | (Ok u, h2) => (None, setScreenshot l2 u, h2)
            | (Throw msg, h2) => (Some msg, l2, h2)
            end
          else (None, l2, h1)
    end.

Definition quoted (s : string) : string := JS.dquote +:+ s +:+ JS.dquote.

(** One verification, inside its own [try]: [Some msg] when it sets
    [passed = false] and [error = msg]. *)
Definition verify (v : Verification) : History -> option string * History :=
  fun h =>
    if String.eqb (v_type v) "url" then
      let current := currentUrl b h in
      if JS.includes current (v_expected v) then (None, Url :: h)
      else (Some ("Expected URL to contain " +:+ quoted (v_expected v)
                  +:+ ", got " +:+ quoted current), Url :: h)
    else if String.eqb (v_type v) "element" then
      let sel := JS.orDefault (v_target v) (v_expected v) in
      let e := IsVisible (First (Css sel)) None in
      match rejects b h e with
      | Some msg => (Some msg, e :: h)
      | None =>
          if visible b h (First (Css sel)) then (None, e :: h)
          else (Some ("Element " +:+ quoted sel +:+ " not visible"), e :: h)
      end
    else if String.eqb (v_type v) "content" then
      let l := First (Css ("text=" +:+ v_expected v)) in
      let e := IsVisible l None in
      let hasText := match rejects b h e with
                     | Some _ => false
                     | None => visible b h l
                     end in
      if hasText then (None, e :: h)
      else (Some ("Expected content " +:+ quoted (v_expected v)
                  +:+ " not found"), e :: h)
    else (None, h).

(** The loop over [story.outcome.verifications], left at the first
    verification that fails. *)
Fixpoint verifyAll (vs : list Verification)
  : Locals -> History -> Locals * History :=
  fun l h =>
    match vs with
    | [] => (l, h)
    | v :: rest =>
        match verify v h with
        | (None, h') => verifyAll rest l h'
        | (Some msg, h') => (setFailed l (Some msg), h')
        end
    end.

(** Authentication or the first navigation. *)
Definition enterSite (baseUrl : string) (opts : ExecutionOptions) : M unit :=
  match credentials opts, authConfig opts with
  | Some creds, Some cfg =>
      match auth_type cfg with
      | auth_form =>
          fun h =>
            match authenticateUser baseUrl creds cfg h with
            | (None, h') => (Ok tt, h')
            | (Some e, h') =>
                (Throw (JS.orDefault (Some e) "Authentication failed"), h')
            end
      | _ => perform (Goto baseUrl)
      end
  | _, _ => perform (Goto baseUrl)
  end.

(** The [try] block of [executeStory]. *)
Definition tryBlock (story : Story) (baseUrl : string)
    (opts : ExecutionOptions) : Block :=
  fun l h =>
    match enterSite baseUrl opts h with
    | (Throw msg, h1) => (Some msg, l, h1)
    | (Ok _, h1) =>
        match runSteps opts (id story) (steps story) 0 l h1 with
        | (Some msg, l2, h2) => (Some msg, l2, h2)
        | (None, l2, h2) =>
            match l_passed l2, outcome story with
            | true, Some vs =>
                let '(l3, h3) := verifyAll vs l2 h2 in
                if negb (l_passed l3) && screenshotOnFailure opts
                   && negb (JS.truthy (l_screenshotUrl l3))
                then
                  match captureScreenshot (id story) h3 with
                  | (Ok u, h4) => (None, setScreenshot l3 u, h4)
                  | (Throw msg, h4) => (Some msg, l3, h4)
                  end
                else (None, l3, h3)
            | _, _ => (None, l2, h2)
            end
        end
    end.

(** The [catch] block of [executeStory]. *)
Definition catchBlock (story : Story) (opts : ExecutionOptions)
    (msg : string) : Locals -> History -> Locals * History :=
  fun l h =>
    let l1 := setFailed l (Some msg) in
    if screenshotOnFailure opts then
      match captureScreenshot (id story) h with
      | (Ok u, h') => (setScreenshot l1 u, h')
      | (Throw _, h') => (l1, h')
      end
    else (l1, h).

(** The [try]/[catch] statement of [executeStory]: the locals and the history
    when it is left. *)
Definition afterTryCatch (story : Story) (baseUrl : string)
    (opts : ExecutionOptions) (h : History) : Locals * History :=
  match tryBlock story baseUrl opts initialLocals h with
  | (None, l1, h1) => (l1, h1)
  | (Some msg, l1, h1) => catchBlock story opts msg l1 h1
  end.

(** [executeStory].  [NewContext] stands for [getBrowser()] followed by
    [browser.newContext(...)]; a throw there, in [context.newPage()] or in
    [context.close()] (the [finally] block) leaves [executeStory]. *)
Definition executeStory (story : Story) (baseUrl : string)
    (opts : ExecutionOptions) : M ExecutionResult :=
  fun h0 =>
    (call _ <- perform NewContext;
     call _ <- perform NewPage;
     fun h =>
       let startTime := now b h in
       let '(l, h2) := afterTryCatch story baseUrl opts h in
       (call _ <- perform CloseContext;
        fun h3 =>
          (Ok {| passed := l_passed l;
                 duration_ms := now b h3 - startTime;
                 step_results := l_stepResults l;
                 error := l_error l;
                 screenshot_url := l_screenshotUrl l;
                 console_errors := consoleErrors b h3;
                 retries := l_retries l |}, h3)) h2)
      (EnterStory (id story) :: h0).

End ExecuteStory.

(** ** [worker/test-executor.ts] *)

(** A row of [stories] joined with its journey. *)
Record StoryRow := {
  story : Story;
  title : string;
  name : string;
  journey_name : string
}.

Record Environment := {
  base_url : string;
  auth_config : option AuthConfig
}.

(** The columns of [test_runs] that [executeTestRun] writes (the time stamps
    apart). *)
Record TestRun := {
  status : string;
  stories_total : nat;
  stories_passed : nat;
  stories_failed : nat;
  stories_skipped : nat;
  current_story_id : option string;
  current_story_name : option string
}.

(** A row of [test_results]. *)
Record TestResult := {
  tr_story_id : string;
  tr_journey_name : string;
  tr_story_name : string;
  tr_passed : bool;
  tr_duration_ms : Z;
  tr_steps : list StepResult;
  tr_error : option string;
  tr_screenshot_url : option string;
  tr_console_errors : list string;
  tr_retries : nat
}.

Record ProgressUpdate := {
  p_total : nat;
  p_completed : nat;
  p_passed : nat;
  p_failed : nat;
  p_skipped : nat;
  p_current : option string
}.

(** What the worker has written and called: the run record, every state the
    run record has been in (oldest first, what an observer polling it can
    see), the rows of [test_results] in insertion order, the values written
    to [stories.last_result], the [onProgress] calls, and the browser
    history. *)
Record World := {
  run : TestRun;
  runStates : list TestRun;
  results : list TestResult;
  lastResults : list (string * string);
  progress : list ProgressUpdate;
  history : History
}.

(** The local counters [passed], [failed], [skipped]. *)
Record Counters := {
  c_passed : nat;
  c_failed : nat;
  c_skipped : nat
}.

(** The property names every object literal inherits from
    [Object.prototype]. *)
Definition objectPrototypeNames : list string :=
  [ "constructor"; "__defineGetter__"; "__defineSetter__"; "hasOwnProperty";
    "__lookupGetter__"; "__lookupSetter__"; "isPrototypeOf";
    "propertyIsEnumerable"; "toString"; "valueOf"; "__proto__";
    "toLocaleString" ].

(** [credentialsMap[role]] for [credentialsMap] the object literal [{}]
    filled with the entries of [m] (none of them under [__proto__]): an own
    entry, else an inherited member of [Object.prototype] (a truthy value
    without [username] or [password]), else [undefined]. *)
Definition lookupRole (m : gmap string UserCredentials) (role : string)
  : option UserCredentials :=
  match m !! role with
  | Some c => Some c
  | None =>
      if existsb (String.eqb role) objectPrototypeNames
      then Some {| username := None; password := None |}
      else None
  end.

(** The role check of [executeTestRun]: [skipReason] and [credentials]. *)
Definition gate (env : Environment) (credentialsMap : gmap string UserCredentials)
    (s : Story) : option string * option UserCredentials :=
  match required_role s with
  | Some (String c r) =>
      let requiredRole := String c r in
      let notForm :=
        Some ("Story requires role " +:+ quoted requiredRole +:+
              " but environment auth is not configured for form login") in
      match auth_config env with
      | Some cfg =>
          match auth_type cfg with
          | auth_form =>
              match lookupRole credentialsMap requiredRole with
              | Some creds => (None, Some creds)
              | None =>
                  (Some ("Missing test user for required role: "
                         +:+ requiredRole), None)
              end
          | _ => (notForm, None)
          end
      | None => (notForm, None)
      end
  | _ => (None, None)
  end.

Section TestExecutor.

Variable b : Browser.

(** [statusRead i] is what the query of [test_runs.status] returns at the
    head of iteration [i]; an outside actor sets it. *)
Variable statusRead : nat -> option string.

Variable env : Environment.
Variable credentialsMap : gmap string UserCredentials.

(** [supabase.from("test_runs").update(...)] *)
Definition updateRun (f : TestRun -> TestRun) (w : World) : World :=
  {| run := f (run w); runStates := runStates w ++ [f (run w)];
     results := results w; lastResults := lastResults w;
     progress := progress w; history := history w |}.

(** [supabase.from("test_results").insert(row)] *)
Definition insertResult (row : TestResult) (w : World) : World :=
  {| run := run w; runStates := runStates w;
     results := results w ++ [row]; lastResults := lastResults w;
     progress := progress w; history := history w |}.

(** [supabase.from("stories").update({ last_result })] *)
Definition updateStory (storyId last_result : string) (w : World) : World :=
  {| run := run w; runStates := runStates w; results := results w;
     lastResults := lastResults w ++ [(storyId, last_result)];
     progress := progress w; history := history w |}.

Definition onProgress (p : ProgressUpdate) (w : World) : World :=
  {| run := run w; runStates := runStates w; results := results w;
     lastResults := lastResults w; progress := progress w ++ [p];
     history := history w |}.

Definition setHistory (h : History) (w : World) : World :=
  {| run := run w; runStates := runStates w; results := results w;
     lastResults := lastResults w; progress := progress w;
     history := h |}.

Definition setCurrent (sid sname : option string) (r : TestRun) : TestRun :=
  {| status := status r; stories_total := stories_total r;
     stories_passed := stories_passed r; stories_failed := stories_failed r;
     stories_skipped := stories_skipped r;
     current_story_id := sid; current_story_name := sname |}.

Definition setCounts (c : Counters) (r : TestRun) : TestRun :=
  {| status := status r; stories_total := stories_total r;
     stories_passed := c_passed c; stories_failed := c_failed c;
     stories_skipped := c_skipped c;
     current_story_id := current_story_id r;
     current_story_name := current_story_name r |}.

Definition setRunning (total : nat) (r : TestRun) : TestRun :=
  {| status := "running"; stories_total := total;
     stories_passed := stories_passed r; stories_failed := stories_failed r;
     stories_skipped := stories_skipped r;
     current_story_id := current_story_id r;
     current_story_name := current_story_name r |}.

Definition setCompleted (c : Counters) (r : TestRun) : TestRun :=
  {| status := "completed"; stories_total := stories_total r;
     stories_passed := c_passed c; stories_failed := c_failed c;
     stories_skipped := c_skipped c;
     current_story_id := None; current_story_name := None |}.

Definition setCompletedEmpty (r : TestRun) : TestRun :=
  {| status := "completed"; stories_total := 0;
     stories_passed := 0; stories_failed := 0; stories_skipped := 0;
     current_story_id := current_story_id r;
     current_story_name := current_story_name r |}.

Definition plainRow (s : StoryRow) (err : string) : TestResult :=
  {| tr_story_id := id (story s); tr_journey_name := journey_name s;
     tr_story_name := name s; tr_passed := false; tr_duration_ms := 0;
     tr_steps := []; tr_error := Some err; tr_screenshot_url := None;
     tr_console_errors := []; tr_retries := 0 |}.

Definition resultRow (s : StoryRow) (r : ExecutionResult) : TestResult :=
  {| tr_story_id := id (story s); tr_journey_name := journey_name s;
     tr_story_name := name s; tr_passed := passed r;
     tr_duration_ms := duration_ms r; tr_steps := step_results r;
     tr_error := error r; tr_screenshot_url := screenshot_url r;
     tr_console_errors := console_errors r; tr_retries := retries r |}.

(** The policy [executeTestRun] runs every story with. *)
Definition runOptions (creds : option UserCredentials) : ExecutionOptions :=
  {| retryCount := 3; screenshotOnFailure := true; credentials := creds;
     authConfig := auth_config env |}.

(** The [try]/[catch] statement of the story loop for story [s]. *)
Definition runOne (s : StoryRow) (c : Counters) (w : World)
  : Counters * World :=
  match gate env credentialsMap (story s) with
  | (Some skipReason, _) =>
      let w1 := insertResult (plainRow s skipReason) w in
      let w2 := updateStory (id (story s)) "skipped" w1 in
      let c' := {| c_passed := c_passed c; c_failed := c_failed c;
                   c_skipped := S (c_skipped c) |} in
      (c', updateRun (setCounts c') w2)
  | (None, creds) =>
      match executeStory b (story s) (base_url env) (runOptions creds)
                         (history w) with
      | (Ok r, h') =>
          let w1 := insertResult (resultRow s r) (setHistory h' w) in
          let w2 := updateStory (id (story s))
                      (if passed r then "passed" else "failed") w1 in
          let c' := if passed r
                    then {| c_passed := S (c_passed c);
                            c_failed := c_failed c;
                            c_skipped := c_skipped c |}
                    else {| c_passed := c_passed c;
                            c_failed := S (c_failed c);
                            c_skipped := c_skipped c |} in
          (c', updateRun (setCounts c') w2)
      | (Throw msg, h') =>
          let c' := {| c_passed := c_passed c; c_failed := S (c_failed c);
                       c_skipped := c_skipped c |} in
          let w1 := insertResult (plainRow s msg) (setHistory h' w) in
          (c', updateStory (id (story s)) "failed" w1)
      end
  end.

(** [currentRun?.status === "cancelled"] *)
Definition isCancelled (currentStatus : option string) : bool :=
  match currentStatus with
  | Some s => String.eqb s "cancelled"
  | None => false
  end.

(** The loop [for (let i = 0; i < stories.length; i++)], from index [i]
    on; [None] when it returns from [executeTestRun] on cancellation. *)
Fixpoint storyLoop (total : nat) (todo : list StoryRow) (i : nat)
    (c : Counters) (w : World) : option Counters * World :=
  match todo with
  | [] => (Some c, w)
  | s :: rest =>
      if isCancelled (statusRead i)
      then (None, updateRun (setCurrent None None) w)
      else
          let w1 := onProgress {| p_total := total; p_completed := i;
                                  p_passed := c_passed c;
                                  p_failed := c_failed c;
                                  p_skipped := c_skipped c;
                                  p_current := Some (title s) |} w in
          let w2 := updateRun (setCurrent (Some (id (story s)))
                                          (Some (title s))) w1 in
          let '(c', w3) := runOne s c w2 in
          storyLoop total rest (S i) c' w3
  end.

(** [executeTestRun] from the point where the run, the environment, the
    test users and the stories have been fetched. *)
Definition executeTestRun (stories : list StoryRow) (w : World) : World :=
  match stories with
  | [] => updateRun setCompletedEmpty w
  | _ =>
      let total := length stories in
      let w1 := updateRun (setRunning total) w in
      match storyLoop total stories 0
              {| c_passed := 0; c_failed := 0; c_skipped := 0 |} w1 with
      | (None, w2) => w2
      | (Some c, w2) =>
          onProgress {| p_total := total; p_completed := total;
                        p_passed := c_passed c; p_failed := c_failed c;
                        p_skipped := c_skipped c; p_current := None |}
                     (updateRun (setCompleted c) w2)
      end
  end.

End TestExecutor.

(** ** [src/lib/crypto.ts] *)

Module Crypto.

Definition bytes : Type := list Byte.byte.

(** The functions of Node's [crypto] and [Buffer] that [crypto.ts] calls.
    [text] is the type of the JavaScript strings handed to [encrypt]. *)
Record Node (text : Type) := {
  wellFormed : text -> Prop;          (* no lone surrogate *)
  utf8Encode : text -> bytes;         (* cipher.update(s, "utf8") *)
  utf8Decode : bytes -> text;         (* buffer.toString("utf8") *)
  base64Encode : bytes -> string;     (* buffer.toString("base64") *)
  base64Decode : string -> bytes;     (* Buffer.from(s, "base64") *)
  scrypt : string -> bytes -> nat -> bytes;
  (* aes-256-gcm under a key and an iv: the ciphertext and the tag *)
  gcmEncrypt : bytes -> bytes -> bytes -> bytes * bytes;
  (* createDecipheriv, setAuthTag, update, final: key, iv, tag, data *)
  gcmDecrypt : bytes -> bytes -> bytes -> bytes -> Result bytes
}.
Arguments wellFormed {text}.
Arguments utf8Encode {text}.
Arguments utf8Decode {text}.
Arguments base64Encode {text}.
Arguments base64Decode {text}.
Arguments scrypt {text}.
Arguments gcmEncrypt {text}.
Arguments gcmDecrypt {text}.

(** What Node documents of these functions. *)
Record Sound {text : Type} (node : Node text) : Prop := {
  utf8_inverse : forall s, wellFormed node s ->
    utf8Decode node (utf8Encode node s) = s;
  base64_inverse : forall bs, base64Decode node (base64Encode node bs) = bs;
  base64_alphabet : forall bs, JS.includes (base64Encode node bs) ":" = false;
  gcm_inverse : forall key iv data,
    gcmDecrypt node key iv (snd (gcmEncrypt node key iv data))
               (fst (gcmEncrypt node key iv data)) = Ok data
}.

Section WithNode.

Context {text : Type} (node : Node text).

(** [process.env.ENCRYPTION_KEY] *)
Variable ENCRYPTION_KEY : option string.

Definition getEncryptionKey : Result string :=
  match ENCRYPTION_KEY with
  | Some (String c k) => Ok (String c k)
  | _ => Throw "ENCRYPTION_KEY environment variable is not set"
  end.

Definition deriveKey (salt : bytes) : Result bytes :=
  match getEncryptionKey with
  | Ok key => Ok (scrypt node key salt 32)
  | Throw msg => Throw msg
  end.

(** [encrypt]; [salt] and [iv] are the two results of [randomBytes]. *)
Definition encrypt (salt iv : bytes) (plaintext : text) : Result string :=
  match deriveKey salt with
  | Throw msg => Throw msg
  | Ok key =>
      let '(encrypted, tag) :=
        gcmEncrypt node key iv (utf8Encode node plaintext) in
      Ok (JS.join ":" [ base64Encode node salt; base64Encode node iv;
                        base64Encode node tag;
                        base64Encode node encrypted ])
  end.

Definition decrypt (ciphertext : string) : Result text :=
  match JS.split ":" ciphertext with
  | [saltB64; ivB64; tagB64; encryptedB64] =>
      match deriveKey (base64Decode node saltB64) with
      | Throw msg => Throw msg
      | Ok key =>
          match gcmDecrypt node key (base64Decode node ivB64)
                           (base64Decode node tagB64)
                           (base64Decode node encryptedB64) with
          | Ok decrypted => Ok (utf8Decode node decrypted)
          | Throw msg => Throw msg
          end
      end
  | _ => Throw "Invalid ciphertext format"
  end.

End WithNode.

End Crypto.

(** ** The credentials map of [executeTestRun]

    Before the story loop [executeTestRun] decrypts the password of every
    enabled test user of the environment and files the credentials under
    the user's role. *)

Module TestUser.

(** A row of [test_users]. *)
Record t := {
  id : string;
  role : string;
  username : string;
  password_encrypted : string;
  is_enabled : bool
}.

End TestUser.

(** The object [credentialsMap]: its own properties, and the object that an
    assignment to [__proto__] has made its prototype ([None]: it still is
    [Object.prototype]). *)
Record CredentialsObject := {
  own : gmap string UserCredentials;
  proto : option UserCredentials
}.

(** [const credentialsMap: CredentialsMap = {}] *)
Definition emptyObject : CredentialsObject := {| own := ∅; proto := None |}.

(** [credentialsMap[role] = creds]: an own property, except under
    [__proto__], the accessor of [Object.prototype] whose setter replaces the
    prototype when it is given an object. *)
Definition assign (role : string) (creds : UserCredentials)
    (o : CredentialsObject) : CredentialsObject :=
  if String.eqb role "__proto__"
  then {| own := own o; proto := Some creds |}
  else {| own := <[role := creds]> (own o); proto := proto o |}.

Section CredentialsMap.

(** [decrypt] of [worker/crypto.ts], as [executeTestRun] imports it. *)
Variable decrypt : string -> Result string.

(** The loop [for (const user of testUsers)] with its [try]/[catch]. *)
Fixpoint fileUsers (users : list TestUser.t) (o : CredentialsObject)
  : CredentialsObject :=
  match users with
  | [] => o
  | user :: rest =>
      match decrypt (TestUser.password_encrypted user) with
      | Ok decryptedPassword =>
          fileUsers rest
            (assign (TestUser.role user)
               {| username := Some (TestUser.username user);
                  password := Some decryptedPassword |} o)
      | Throw _ => fileUsers rest o
      end
  end.

(** [credentialsMap] after the loop; [testUsers] is [None] when the query
    gave no data. *)
Definition buildCredentialsMap (testUsers : option (list TestUser.t))
  : CredentialsObject :=
  match testUsers with
  | Some (user :: rest) => fileUsers (user :: rest) emptyObject
  | _ => emptyObject
  end.

End CredentialsMap.

(** ** Concrete environments and stories *)

Module Examples.

(** A page on which every call succeeds and every element is visible. *)
Definition calm : Browser :=
  {| rejects := fun _ _ => None;
     visible := fun _ _ => true;
     currentUrl := fun _ => "https://x.test/dashboard?x=1";
     uploadAnswer := fun _ _ => Stored;
     publicUrl := fun f => "https://cdn.test/" +:+ f;
     now := fun h => Z.of_nat (length h);
     isoNow := fun _ => "2025-01-01T00:00:00.000Z";
     consoleErrors := fun _ => [];
     resolveUrl := fun rel base => Some (base +:+ rel) |}.

Definition step (a : string) (sel val : option string) : StoryStep :=
  {| action := a; selector := sel; element := None; value := val;
     description := None |}.

(** A wait whose value is no number. *)
Definition waitSoon : StoryStep := step "wait" None (Some "soon").

(** A label with two keywords. *)
Definition clickAndWait : StoryStep :=
  step "click and wait" (Some "#go") (Some "500").


(** A page whose button [#go] cannot be clicked until two clicks have
    failed. *)
Definition isClick (e : Event) : bool :=
  match e with
  | Click _ => true
  | _ => false
  end.

Definition flaky : Browser :=
  {| rejects := fun h e =>
       if isClick e && (length (List.filter isClick h) <? 2)%nat
       then Some "Timeout 30000ms exceeded" else None;
     visible := visible calm; currentUrl := currentUrl calm;
     uploadAnswer := uploadAnswer calm; publicUrl := publicUrl calm;
     now := now calm; isoNow := isoNow calm;
     consoleErrors := consoleErrors calm; resolveUrl := resolveUrl calm |}.

Definition clickGo : StoryStep := step "Click the button" (Some "#go") None.

Definition twoRetries : ExecutionOptions :=
  {| retryCount := 2; screenshotOnFailure := true; credentials := None;
     authConfig := None |}.

Definition oneClick : Story :=
  {| id := "story-1"; steps := [clickGo]; outcome := Some [];
     required_role := None |}.

(** A login page whose fields cannot be filled. *)
Definition isPageFill (e : Event) : bool :=
  match e with
  | PageFill _ _ => true
  | _ => false
  end.

Definition lockedOut : Browser :=
  {| rejects := fun _ e =>
       if isPageFill e then Some "Timeout 30000ms exceeded" else None;
     visible := visible calm; currentUrl := currentUrl calm;
     uploadAnswer := uploadAnswer calm; publicUrl := publicUrl calm;
     now := now calm; isoNow := isoNow calm;
     consoleErrors := consoleErrors calm; resolveUrl := resolveUrl calm |}.

Definition formAuth : AuthConfig :=
  {| auth_type := auth_form; loginUrl := Some "/login";
     usernameSelector := Some "#user"; passwordSelector := Some "#pass";
     submitSelector := None; successIndicator := None |}.

Definition admin : UserCredentials :=
  {| username := Some "admin@x.test"; password := Some "hunter2" |}.

(** The policy of [executeTestRun], with credentials. *)
Definition asAdmin : ExecutionOptions :=
  {| retryCount := 3; screenshotOnFailure := true;
     credentials := Some admin; authConfig := Some formAuth |}.

(** A browser that cannot open its first context, and a page that refuses to
    fill a field with [undefined]. *)
Definition isNewContext (e : Event) : bool :=
  match e with
  | NewContext => true
  | _ => false
  end.

Definition crashing : Browser :=
  {| rejects := fun h e =>
       if isNewContext e && negb (existsb isNewContext h)
       then Some "browserType.launch: Executable does not exist" else None;
     visible := visible calm; currentUrl := currentUrl calm;
     uploadAnswer := uploadAnswer calm; publicUrl := publicUrl calm;
     now := now calm; isoNow := isoNow calm;
     consoleErrors := consoleErrors calm; resolveUrl := resolveUrl calm |}.

Definition strict : Browser :=
  {| rejects := fun _ e =>
       match e with
       | PageFill _ None =>
           Some "page.fill: value: expected string, got undefined"
       | _ => None
       end;
     visible := visible calm; currentUrl := currentUrl calm;
     uploadAnswer := uploadAnswer calm; publicUrl := publicUrl calm;
     now := now calm; isoNow := isoNow calm;
     consoleErrors := consoleErrors calm; resolveUrl := resolveUrl calm |}.

Definition storyRow (sid : string) (role : option string) : StoryRow :=
  {| story := {| id := sid; steps := [clickGo]; outcome := Some [];
                 required_role := role |};
     title := "Title of " +:+ sid; name := "name-of-" +:+ sid;
     journey_name := "checkout" |}.

Definition formEnv : Environment :=
  {| base_url := "https://x.test"; auth_config := Some formAuth |}.

Definition openEnv : Environment :=
  {| base_url := "https://x.test";
     auth_config := Some {| auth_type := auth_none; loginUrl := None;
                            usernameSelector := None; passwordSelector := None;
                            submitSelector := None; successIndicator := None |} |}.

Definition pendingRun : TestRun :=
  {| status := "pending"; stories_total := 0; stories_passed := 0;
     stories_failed := 0; stories_skipped := 0;
     current_story_id := None; current_story_name := None |}.

Definition fresh : World :=
  {| run := pendingRun; runStates := [pendingRun]; results := [];
     lastResults := []; progress := []; history := [] |}.

Definition noCounts : Counters :=
  {| c_passed := 0; c_failed := 0; c_skipped := 0 |}.

(** Nobody cancels. *)
Definition undisturbed : nat -> option string := fun _ => Some "running".

(** The run is cancelled while the second story runs. *)
Definition cancelledAfterTwo : nat -> option string :=
  fun i => if (i <? 2)%nat then Some "running" else Some "cancelled".

Definition five : list StoryRow :=
  [ storyRow "s1" None; storyRow "s2" None; storyRow "s3" None;
    storyRow "s4" None; storyRow "s5" None ].

(** A stand-in for Node: two letters [a]..[p] per byte in place of base64,
    the bytes of the string in place of UTF-8, and a cipher that reverses
    the data and tags it with the key and the iv. *)
Definition letter (n : N) : ascii := ascii_of_N (97 + n).

Definition encodeByte (x : Byte.byte) : string :=
  String (letter (Byte.to_N x / 16))
         (String (letter (Byte.to_N x mod 16)) EmptyString).

Fixpoint encode (bs : list Byte.byte) : string :=
  match bs with
  | [] => EmptyString
  | x :: rest => encodeByte x +:+ encode rest
  end.

Fixpoint decode (s : string) : list Byte.byte :=
  match s with
  | String c1 (String c2 rest) =>
      match Byte.of_N ((N_of_ascii c1 - 97) * 16 + (N_of_ascii c2 - 97)) with
      | Some x => x :: decode rest
      | None => decode rest
      end
  | _ => []
  end.

Definition sameBytes (x y : list Byte.byte) : bool :=
  if List.list_eq_dec Byte.byte_eq_dec x y then true else false.

Definition standIn : Crypto.Node string :=
  {| Crypto.wellFormed := fun _ => True;
     Crypto.utf8Encode := list_byte_of_string;
     Crypto.utf8Decode := string_of_list_byte;
     Crypto.base64Encode := encode;
     Crypto.base64Decode := decode;
     Crypto.scrypt := fun key salt n => firstn n (list_byte_of_string key ++ salt);
     Crypto.gcmEncrypt := fun key iv data => (rev data, key ++ iv);
     Crypto.gcmDecrypt := fun key iv tag data =>
       if sameBytes tag (key ++ iv) then Ok (rev data)
       else Throw "Unsupported state or unable to authenticate data" |}.

End Examples.

(** ** More environments *)

Module Pages.

(** A page on which nothing is visible. *)
Definition blank : Browser :=
  {| rejects := fun _ _ => None;
     visible := fun _ _ => false;
     currentUrl := fun _ => "https://x.test/";
     uploadAnswer := fun _ _ => Stored;
     publicUrl := fun f => "https://cdn.test/" +:+ f;
     now := fun h => Z.of_nat (length h);
     isoNow := fun _ => "2025-01-01T00:00:00.000Z";
     consoleErrors := fun _ => [];
     resolveUrl := fun rel base => Some (base +:+ rel) |}.

Definition isButtonRole (l : Locator) : bool :=
  match l with
  | First (GetByRole role _) => String.eqb role "button"
  | _ => false
  end.

(** A page whose only visible elements are found by their button role. *)
Definition buttonsOnly : Browser :=
  {| rejects := rejects blank; visible := fun _ l => isButtonRole l;
     currentUrl := currentUrl blank; uploadAnswer := uploadAnswer blank;
     publicUrl := publicUrl blank; now := now blank; isoNow := isoNow blank;
     consoleErrors := consoleErrors blank; resolveUrl := resolveUrl blank |}.


(** A story whose one verification has the type [visual]. *)
Definition looksRight : Story :=
  {| id := "story-9"; steps := [Examples.clickGo];
     outcome := Some [ {| v_type := "visual"; v_target := None;
                          v_expected := "the chart is blue" |} ];
     required_role := None |}.

End Pages.

Module Users.

(** A stand-in for [decrypt]: a ciphertext is a password behind [ok:]. *)
Definition unseal (c : string) : Result string :=
  if String.prefix "ok:" c
  then Ok (String.substring 3 (String.length c - 3) c)
  else Throw "Unsupported state or unable to authenticate data".

Definition user (r u c : string) : TestUser.t :=
  {| TestUser.id := u; TestUser.role := r; TestUser.username := u;
     TestUser.password_encrypted := c; TestUser.is_enabled := true |}.

(** Two admins, the second of them with a damaged password, and a member. *)
Definition staff : list TestUser.t :=
  [ user "admin" "root@x.test" "ok:hunter2";
    user "member" "joe@x.test" "ok:swordfish";
    user "admin" "old@x.test" "damaged" ].

(** A story for admins. *)
Definition forAdmins : Story :=
  {| id := "story-7"; steps := []; outcome := None;
     required_role := Some "admin" |}.

(** A story for a role nobody has. *)
Definition forAuditors : Story :=
  {| id := "story-8"; steps := []; outcome := None;
     required_role := Some "auditor" |}.

End Users.

Module Faults.

(** A browser that dies after its first context: every later
    [browser.newContext()] is rejected. *)
Definition worn : Browser :=
  {| rejects := fun h e =>
       if Examples.isNewContext e && existsb Examples.isNewContext h
       then Some "browser.newContext: Target page, context or browser has been closed"
       else None;
     visible := visible Examples.calm; currentUrl := currentUrl Examples.calm;
     uploadAnswer := uploadAnswer Examples.calm;
     publicUrl := publicUrl Examples.calm;
     now := now Examples.calm; isoNow := isoNow Examples.calm;
     consoleErrors := consoleErrors Examples.calm;
     resolveUrl := resolveUrl Examples.calm |}.

(** A page that has stayed on the login form. *)
Definition astray : Browser :=
  {| rejects := rejects Examples.calm; visible := visible Examples.calm;
     currentUrl := fun _ => "https://x.test/login";
     uploadAnswer := uploadAnswer Examples.calm;
     publicUrl := publicUrl Examples.calm;
     now := now Examples.calm; isoNow := isoNow Examples.calm;
     consoleErrors := consoleErrors Examples.calm;
     resolveUrl := resolveUrl Examples.calm |}.



(** The dashboard is expected after a click; a second verification
    follows. *)
Definition toDashboard : Verification :=
  {| v_type := "url"; v_target := None; v_expected := "/dashboard" |}.

Definition seesGreeting : Verification :=
  {| v_type := "element"; v_target := Some "#greeting";
     v_expected := "a greeting" |}.

Definition signIn : Story :=
  {| id := "story-2"; steps := [Examples.clickGo];
     outcome := Some [toDashboard; seesGreeting]; required_role := None |}.

(** What the verification reports on these pages. *)
Definition notOnDashboard : string :=
  "Expected URL to contain " +:+ quoted "/dashboard" +:+ ", got "
  +:+ quoted "https://x.test/login".

End Faults.

(** ** Measures on histories and run records *)

(** The markers of a history: the entries into [executeStory] and
    [executeStep], and the results [executeStep] returned. *)
Definition isMarker (e : Event) : bool :=
  match e with
  | EnterStory _ | EnterStep _ | StepDone _ => true
  | _ => false
  end.

Definition markers (h : History) : list Event := List.filter isMarker h.

(** How many times [executeStep] was entered for step [i]. *)
Definition isAttemptOf (i : nat) (e : Event) : bool :=
  match e with
  | EnterStep j => Nat.eqb j i
  | _ => false
  end.

Definition attemptsOf (i : nat) (h : History) : nat :=
  length (List.filter (isAttemptOf i) h).

(** How many attempts returned a failed result. *)
Definition isFailure (e : Event) : bool :=
  match e with
  | StepDone r => negb (sr_passed r)
  | _ => false
  end.

Definition failedAttempts (h : History) : nat := length (List.filter isFailure h).

(** The result of the latest attempt of step [i]. *)
Fixpoint lastResultOf (i : nat) (h : History) : option StepResult :=
  match h with
  | [] => None
  | StepDone r :: h' =>
      if Nat.eqb (sr_step r) i then Some r else lastResultOf i h'
  | _ :: h' => lastResultOf i h'
  end.

(** A stretch of code is quiet when it enters no story and no step. *)
Definition quiet {A : Type} (m : History -> A * History) : Prop :=
  forall h, markers (snd (m h)) = markers h.

(** The stories [executeStory] was entered for, the latest first. *)
Fixpoint storiesEntered (h : History) : list string :=
  match h with
  | [] => []
  | EnterStory sid :: h' => sid :: storiesEntered h'
  | _ :: h' => storiesEntered h'
  end.

(** The counters of the run record do not exceed the local counters. *)
Definition persisted_le (r : TestRun) (c : Counters) : Prop :=
  stories_passed r <= c_passed c /\ stories_failed r <= c_failed c /\
  stories_skipped r <= c_skipped c.

(** The number of stories counted. *)
Definition counted (c : Counters) : nat := c_passed c + c_failed c + c_skipped c.

Definition storyId (s : StoryRow) : string := id (story s).

(** The counters of [r'] are not below those of [r]. *)
Definition counts_le (r r' : TestRun) : Prop :=
  stories_passed r <= stories_passed r' /\
  stories_failed r <= stories_failed r' /\
  stories_skipped r <= stories_skipped r'.

(** A sequence of states of the run record whose counters never decrease. *)
Fixpoint nondecreasing (rs : list TestRun) : Prop :=
  match rs with
  | r :: (r' :: _) as rest => counts_le r r' /\ nondecreasing rest
  | _ => True
  end.

(** What an observer of the run record sees of a state. *)
Definition observed (r : TestRun) : option string * nat * nat * nat :=
  (current_story_id r, stories_passed r, stories_failed r, stories_skipped r).

(** The states of the run record end with the current one, never decrease,
    and stay below the local counters. *)
Definition observable (w : World) (c : Counters) : Prop :=
  (exists rs, runStates w = rs ++ [run w]) /\
  nondecreasing (runStates w) /\ persisted_le (run w) c.

(** The number of colons of a string. *)
Fixpoint colons (s : string) : nat :=
  match s with
  | EmptyString => 0
  | String c s' => (if Ascii.eqb c ":" then 1 else 0) + colons s'
  end.

(** The browsing context can be opened and closed. *)
Definition contextWorks (b : Browser) : Prop :=
  forall h, rejects b h NewContext = None /\ rejects b h NewPage = None /\
            rejects b h CloseContext = None.

(** The history at the head of the [try] block of [executeStory]. *)
Definition atTry (story : Story) (h : History) : History :=
  NewPage :: NewContext :: EnterStory (id story) :: h.

(** ** Readings put to the test *)

(** The reading of the wait rule that defaults to 1000 on every value that
    is missing or is no integer, for every label that contains ["wait"]. *)
Definition waitDefaulting (v : option string) : Z :=
  match v with
  | Some s => match JS.parseInt s with Some n => n | None => 1000 end
  | None => 1000
  end.

Definition wait_rule_as_stated : Prop :=
  forall (b : Browser) (step : StoryStep) (h : History),
    JS.includes (JS.toLowerCase (action step)) "wait" = true ->
    dispatch b step h =
    (Ok tt, WaitForTimeout (Some (waitDefaulting (value step))) :: h).

(** The reading of the authentication rule under which nothing is captured
    after a failed login: the context is closed next. *)
Definition auth_failure_as_stated : Prop :=
  forall (b : Browser) (story : Story) (baseUrl : string)
         (opts : ExecutionOptions) (creds : UserCredentials)
         (cfg : AuthConfig) (h : History) (err : string) (h1 : History),
    contextWorks b ->
    credentials opts = Some creds -> authConfig opts = Some cfg ->
    auth_type cfg = auth_form ->
    authenticateUser b baseUrl creds cfg (atTry story h) = (Some err, h1) ->
    exists r,
      executeStory b story baseUrl opts h = (Ok r, CloseContext :: h1) /\
      passed r = false /\ error r = Some err /\ step_results r = [].

(** ** Classes of events *)

(** The probe of one strategy of [findElement]. *)
Definition probeEvent (l : Locator) : Event :=
  IsVisible (First l) (Some 1000%Z).

(** The history after the strategies [ls] have been probed in order. *)
Definition probed (ls : list Locator) (h : History) : History :=
  rev (map probeEvent ls) ++ h.

(** What the probe of [l] answers at history [h]. *)
Definition sees (b : Browser) (l : Locator) (h : History) : bool :=
  fst (probe b l h).

(** Every strategy of [ls] is probed in turn and none is seen. *)
Definition unseen (b : Browser) (ls : list Locator) (h : History) : Prop :=
  forall k l, nth_error ls k = Some l -> sees b l (probed (firstn k ls) h) = false.

Definition isProbe (e : Event) : bool :=
  match e with
  | IsVisible (First _) (Some 1000%Z) => true
  | _ => false
  end.

(** The calls the branches of [executeStep] make on the page. *)
Definition isAct (e : Event) : bool :=
  match e with
  | Goto _ | Click _ | Fill _ _ | SelectOption _ _ | Check _
  | ScrollIntoViewIfNeeded _ | Hover _ | Focus _ | ScrollBy _ _
  | KeyboardPress _ | WaitForTimeout _ => true
  | _ => false
  end.

Definition isStepMarker (e : Event) : bool :=
  match e with
  | EnterStep _ | StepDone _ => true
  | _ => false
  end.

(** The calls of [authenticateUser] and the first navigation. *)
Definition isEntry (e : Event) : bool :=
  match e with
  | Goto _ | PageFill _ _ | PageClick _ | WaitForSelector _ _
  | WaitForLoadState => true
  | _ => false
  end.

(** The calls of the verifications. *)
Definition isCheck (e : Event) : bool :=
  match e with
  | Url | IsVisible _ None => true
  | _ => false
  end.

Definition isCapture (e : Event) : bool :=
  match e with
  | Screenshot | Upload _ => true
  | _ => false
  end.

Definition isContext (e : Event) : bool :=
  match e with
  | NewContext | NewPage | CloseContext => true
  | _ => false
  end.

(** The events of the steps, the verifications and the captures. *)
Definition isRun (e : Event) : bool :=
  isProbe e || isAct e || isStepMarker e || isCheck e || isCapture e.

(** The events of the [try] and [catch] blocks of [executeStory]. *)
Definition isBody (e : Event) : bool := isRun e || isEntry e.

(** The calls of a login. *)
Definition isLogin (e : Event) : bool :=
  match e with
  | PageFill _ _ | PageClick _ | WaitForSelector _ _ | WaitForLoadState => true
  | _ => false
  end.

(** A stretch of code only adds events, all of them in the class [P]. *)
Definition emits {A : Type} (P : Event -> bool) (m : History -> A * History)
  : Prop :=
  forall h, exists d, snd (m h) = d ++ h /\ forallb P d = true.

(** The calls of one step: probes and page calls. *)
Definition isStepCall (e : Event) : bool := isProbe e || isAct e.

(** The work of the step loop: probes, page calls and markers. *)
Definition isWork (e : Event) : bool := isStepCall e || isStepMarker e.

(** A computation that throws has just made the call that rejected, and
    throws its message. *)
Definition throwsLast (b : Browser) {A : Type} (m : M A) : Prop :=
  forall h msg h', m h = (Throw msg, h') ->
    exists e hd, h' = e :: hd /\ rejects b hd e = Some msg.

(** [step] with another [element]. *)
Definition withElement (step : StoryStep) (el : option string) : StoryStep :=
  {| action := action step; selector := selector step; element := el;
     value := value step; description := description step |}.

(** The keywords that the chain of [executeStep] tests before ["check"]. *)
Definition keywordsBeforeCheck : list string :=
  [ "navigate"; "go to"; "click"; "tap"; "type"; "enter"; "fill"; "select";
    "choose" ].

Definition stepPassed (r : StepResult) : Prop := sr_passed r = true.

(** Results of a story stopped at its first failed step: passed results,
    then at most one failed result. *)
Definition failFast (rs : list StepResult) : Prop :=
  exists rs0 tail,
    rs = rs0 ++ tail /\ Forall stepPassed rs0 /\
    (tail = [] \/ exists r, tail = [r] /\ sr_passed r = false).

Definition captures (d : list Event) : bool := existsb isCapture d.

(** What holds of the locals and the history when the [try]/[catch]
    statement of [executeStory] is left, for a story with [n] steps that
    was entered at history [h]. *)
Definition settled (n : nat) (h : History) (l : Locals) (h' : History) : Prop :=
  (forall j, length (l_stepResults l) <= j -> attemptsOf j h' = attemptsOf j h) /\
  failFast (l_stepResults l) /\
  if l_passed l
  then l_error l = None /\ l_screenshotUrl l = None /\
       Forall stepPassed (l_stepResults l) /\ length (l_stepResults l) = n
  else exists msg, l_error l = Some msg.

(** The events of the steps and the verifications. *)
Definition isPlain (e : Event) : bool := isRun e && negb (isCapture e).

(** The events [d] are of the steps, the verifications and the captures,
    and a capture is among them only under [screenshotOnFailure] and with
    [passed] false. *)
Definition captureOnFailure (opts : ExecutionOptions) (l : Locals)
    (d : list Event) : Prop :=
  forallb isRun d = true /\
  (captures d = true -> screenshotOnFailure opts = true /\ l_passed l = false).

(** The types of verification that [executeStory] evaluates. *)
Definition isEvaluated (v : Verification) : bool :=
  String.eqb (v_type v) "url" || String.eqb (v_type v) "element"
  || String.eqb (v_type v) "content".

(** [story] with other verifications. *)
Definition withOutcome (story : Story) (o : option (list Verification)) : Story :=
  {| id := id story; steps := steps story; outcome := o;
     required_role := required_role story |}.

(** How many of the values written to [stories.last_result] are [v]. *)
Definition countOutcome (v : string) (l : list (string * string)) : nat :=
  length (List.filter (fun p => String.eqb (snd p) v) l).

(** A progress report of a run of [total] stories adds up. *)
Definition addsUp (total : nat) (p : ProgressUpdate) : Prop :=
  p_total p = total /\
  p_passed p + p_failed p + p_skipped p = p_completed p /\
  p_completed p <= total.

(** No call of a login form is among the events [d]. *)
Definition noLogin (d : list Event) : Prop :=
  forallb (fun e => negb (isLogin e)) d = true.

(** The calls of a login, in the order [authenticateUser] makes them. *)
Definition loginPlan (target : string) (creds : UserCredentials)
    (cfg : AuthConfig) : list Event :=
  [ Goto target;
    PageFill (JS.orDefault (usernameSelector cfg) defaultUsernameSelector)
             (username creds);
    PageFill (JS.orDefault (passwordSelector cfg) defaultPasswordSelector)
             (password creds);
    PageClick (JS.orDefault (submitSelector cfg) defaultSubmitSelector);
    match successIndicator cfg with
    | Some (String c s) => WaitForSelector (String c s) 10000
    | _ => WaitForLoadState
    end ].

(** The story passes the role check of [executeTestRun]. *)
Definition admitted (env : Environment) (cm : gmap string UserCredentials)
    (s : StoryRow) : bool :=
  match fst (gate env cm (story s)) with
  | None => true
  | Some _ => false
  end.

(** ** The attempts of one step *)

(** The marker [e] belongs to step [j]. *)
Definition concerns (j : nat) (e : Event) : bool :=
  match e with
  | EnterStep k => Nat.eqb k j
  | StepDone r => Nat.eqb (sr_step r) j
  | _ => false
  end.

(** How many attempts of step [j] returned a failed result. *)
Definition failuresOf (j : nat) (h : History) : nat :=
  length (List.filter (fun e => isFailure e && concerns j e) h).

(** None of the events [d] belongs to step [j]. *)
Definition away (j : nat) (d : list Event) : Prop :=
  forallb (fun e => negb (concerns j e)) d = true.


(** * Properties *)

(** ** The primitives on small inputs *)

Example parseInt_digits : JS.parseInt "1000" = Some 1000%Z.
Proof. reflexivity. Qed.

Example parseInt_leading_integer : JS.parseInt "  42px" = Some 42%Z.
Proof. reflexivity. Qed.

Example parseInt_negative : JS.parseInt "-7" = Some (-7)%Z.
Proof. reflexivity. Qed.

Example parseInt_no_hex : JS.parseInt "0x10" = Some 0%Z.
Proof. reflexivity. Qed.

Example parseInt_nan : JS.parseInt "soon" = None /\ JS.parseInt "" = None.
Proof. split; reflexivity. Qed.

Example parseInt_rounds :
  JS.parseInt "9007199254740993" = Some 9007199254740992%Z /\
  JS.parseInt "9007199254740995" = Some 9007199254740996%Z /\
  JS.parseInt "-9007199254740993" = Some (-9007199254740992)%Z /\
  JS.parseInt "9007199254740991" = Some 9007199254740991%Z.
Proof. repeat split; reflexivity. Qed.

Example split_fields : JS.split ":" "a:b::c" = ["a"; "b"; ""; "c"].
Proof. reflexivity. Qed.

Example split_empty : JS.split ":" "" = [""].
Proof. reflexivity. Qed.

Example join_fields : JS.join ":" ["a"; "b"; ""; "c"] = "a:b::c".
Proof. reflexivity. Qed.

Example toLowerCase_label : JS.toLowerCase "Click AND Wait" = "click and wait".
Proof. reflexivity. Qed.

Example includes_empty : JS.includes "abc" "" = true /\ JS.includes "" "" = true.
Proof. split; reflexivity. Qed.

(** The target [Submit] is first looked for as a submit button. *)
Example strategies_submit :
  strategies "Submit" =
  [ attr "button" "type" "submit"; attr "input" "type" "submit";
    GetByLabel "Submit"; GetByPlaceholder "Submit";
    GetByRole "textbox" "Submit"; GetByRole "button" "Submit";
    GetByRole "link" "Submit"; GetByText "Submit" ].
Proof. reflexivity. Qed.

(** The branch [uncheck] of [executeStep] is never taken: a label that
    contains [uncheck] contains [check], which is tested first. *)
Example uncheck_checks :
  dispatch Examples.calm (Examples.step "Uncheck the box" (Some "#box") None) []
  = (Ok tt, [Check (Css "#box")]).
Proof. reflexivity. Qed.

(** ** Strings *)

Lemma prefix_app (s t : string) : String.prefix s (s +:+ t) = true.
Proof.
  induction s as [|c s IH]; simpl.
  - destruct t; reflexivity.
  - destruct (Ascii.ascii_dec c c) as [_|ne]; [exact IH | now destruct ne].
Qed.

Lemma includes_unfold (s sub : string) :
  JS.includes s sub =
  String.prefix sub s ||
  match s with
  | EmptyString => false
  | String _ s' => JS.includes s' sub
  end.
Proof. destruct s; reflexivity. Qed.

Lemma includes_app (a s c : string) : JS.includes (a +:+ s +:+ c) s = true.
Proof.
  induction a as [|x a IH].
  - change (JS.includes (s +:+ c) s = true).
    rewrite includes_unfold, prefix_app. reflexivity.
  - change (JS.includes (String x (a +:+ s +:+ c)) s = true).
    rewrite includes_unfold, IH. apply orb_true_r.
Qed.

Lemma prefix_app_r (s t c : string) :
  String.prefix s t = true -> String.prefix s (t +:+ c) = true.
Proof.
  revert t. induction s as [|x s IH]; intros t H.
  - destruct (t +:+ c); reflexivity.
  - destruct t as [|y t]; [discriminate |].
    change (String.prefix (String x s) (String y (t +:+ c)) = true).
    simpl in *. destruct (Ascii.ascii_dec x y); [auto | discriminate].
Qed.

Lemma includes_app_l (a t s : string) :
  JS.includes t s = true -> JS.includes (a +:+ t) s = true.
Proof.
  intros H. induction a as [|x a IH]; [exact H |].
  change (JS.includes (String x (a +:+ t)) s = true).
  rewrite includes_unfold, IH. apply orb_true_r.
Qed.

Lemma includes_app_r (t c s : string) :
  JS.includes t s = true -> JS.includes (t +:+ c) s = true.
Proof.
  induction t as [|x t IH]; intros H.
  - rewrite includes_unfold in H. rewrite orb_false_r in H.
    destruct s; [| discriminate]. rewrite includes_unfold.
    destruct ("" +:+ c); reflexivity.
  - rewrite includes_unfold in H.
    change (JS.includes (String x (t +:+ c)) s = true).
    rewrite includes_unfold.
    apply orb_true_iff in H. destruct H as [H | H].
    + change (String x (t +:+ c)) with (String x t +:+ c).
      rewrite (prefix_app_r _ _ _ H). reflexivity.
    + rewrite (IH H). apply orb_true_r.
Qed.

Lemma prefix_refl (s : string) : String.prefix s s = true.
Proof.
  induction s as [|c s IH]; [reflexivity |]. simpl.
  destruct (Ascii.ascii_dec c c) as [_|ne]; [exact IH | now destruct ne].
Qed.

Lemma includes_self (s : string) : JS.includes s s = true.
Proof. rewrite includes_unfold, prefix_refl. reflexivity. Qed.

Lemma includes_self_app (s c : string) : JS.includes (s +:+ c) s = true.
Proof. rewrite includes_unfold, prefix_app. reflexivity. Qed.

(** ** The element resolver *)

(** C8: a target that starts with [#], [.] or [[], or contains [=], is
    returned as the literal selector [page.locator(target)], and no strategy
    of the cascade is evaluated: the history gains no visibility probe. *)
Theorem findElement_css_literal (b : Browser) (target : string) (h : History) :
  JS.startsWith target "#" = true \/ JS.startsWith target "." = true \/
  JS.startsWith target "[" = true \/ JS.includes target "=" = true ->
  findElement b target h = (Css target, h).
Proof.
  intros H. unfold findElement, looksLikeCss.
  destruct H as [-> | [-> | [-> | ->]]]; simpl;
    rewrite ?orb_true_r; reflexivity.
Qed.

Lemma findElement_css_literal_witness :
  findElement Examples.calm "#email" [] = (Css "#email", []).
Proof.
  apply findElement_css_literal. left. reflexivity.
Defined.

(** ** The step executor *)

Ltac in_list := simpl; repeat (first [left; reflexivity | right]).





(** C7, as stated, fails: the step [wait] with value ["soon"] pauses for
    [parseInt("soon", 10)], which is NaN and not 1000; and the step
    [click and wait] clicks and does not pause for its value. *)
Lemma wait_rule_counterexample :
  ~ wait_rule_as_stated /\
  dispatch Examples.calm Examples.waitSoon [] = (Ok tt, [WaitForTimeout None]) /\
  dispatch Examples.calm Examples.clickAndWait [] = (Ok tt, [Click (Css "#go")]).
Proof.
  split; [| split; reflexivity].
  intros H. specialize (H Examples.calm Examples.waitSoon [] eq_refl).
  discriminate H.
Qed.

(** C7, amended: a step whose lowercased label contains ["wait"] and none of
    the keywords tested before it pauses for [parseInt(value || "1000", 10)]
    and does nothing else; that is 1000 when the value is missing or empty,
    and the integer the value starts with otherwise (NaN when there is
    none). *)
Theorem wait_step_pauses (b : Browser) (step : StoryStep) (h : History) :
  JS.includes (JS.toLowerCase (action step)) "wait" = true ->
  (forall k, In k keywordsBeforeWait ->
     JS.includes (JS.toLowerCase (action step)) k = false) ->
  dispatch b step h =
    (Ok tt, WaitForTimeout (JS.parseInt (JS.orDefault (value step) "1000")) :: h)
  /\ (JS.truthy (value step) = false ->
      JS.parseInt (JS.orDefault (value step) "1000") = Some 1000%Z)
  /\ (forall s, value step = Some s -> s <> "" ->
      JS.parseInt (JS.orDefault (value step) "1000") = JS.parseInt s).
Proof.
  intros W K. split; [| split].
  - unfold dispatch.
    rewrite (K "navigate"), (K "go to"), (K "click"), (K "tap"), (K "type"),
      (K "enter"), (K "fill"), (K "select"), (K "choose"), (K "check"),
      (K "uncheck") by in_list.
    rewrite W. reflexivity.
  - destruct (value step) as [[|c s]|]; simpl; intros E;
      try discriminate; reflexivity.
  - intros s -> Hs. destruct s; [contradiction | reflexivity].
Qed.

Lemma wait_step_pauses_witness :
  dispatch Examples.calm (Examples.step "Wait a bit" None (Some "250ms")) [] =
    (Ok tt, [WaitForTimeout (Some 250%Z)]).
Proof.
  pose proof (wait_step_pauses Examples.calm
                (Examples.step "Wait a bit" None (Some "250ms")) []) as H.
  destruct H as [H _].
  - reflexivity.
  - intros k Hk. simpl in Hk.
    repeat (destruct Hk as [<- | Hk]; [reflexivity |]). destruct Hk.
  - exact H.
Defined.

(** ** The verification evaluator *)

(** The verifications are reached only when every step has passed. *)
Lemma tryBlock_failed_step (b : Browser) (story : Story) (baseUrl : string)
    (opts : ExecutionOptions) (l : Locals) (h h1 : History)
    (t : option string) (l2 : Locals) (h2 : History) :
  enterSite b baseUrl opts h = (Ok tt, h1) ->
  runSteps b opts (id story) (steps story) 0 l h1 = (t, l2, h2) ->
  l_passed l2 = false ->
  tryBlock b story baseUrl opts l h = (t, l2, h2).
Proof.
  intros E R P. unfold tryBlock. rewrite E, R, P.
  destruct t; reflexivity.
Qed.

(** ** Stored credentials *)

Lemma prefix_colon (c : ascii) (s : string) :
  String.prefix ":" (String c s) = Ascii.eqb c ":".
Proof.
  change (String.prefix ":" (String c s))
    with (if Ascii.ascii_dec ":" c then String.prefix "" s else false).
  destruct (Ascii.ascii_dec ":" c) as [<- | ne].
  - destruct s; reflexivity.
  - symmetry. apply Ascii.eqb_neq. congruence.
Qed.

Lemma includes_colon_cons (c : ascii) (s : string) :
  JS.includes (String c s) ":" = Ascii.eqb c ":" || JS.includes s ":".
Proof. rewrite includes_unfold, prefix_colon. reflexivity. Qed.

Lemma colon_free_cons (c : ascii) (s : string) :
  JS.includes (String c s) ":" = false ->
  Ascii.eqb c ":" = false /\ JS.includes s ":" = false.
Proof. rewrite includes_colon_cons. apply orb_false_iff. Qed.

Lemma split_field (a rest : string) :
  JS.includes a ":" = false ->
  JS.split ":" (a +:+ String ":" rest) = a :: JS.split ":" rest.
Proof.
  induction a as [|c a IH]; intros H.
  - reflexivity.
  - apply colon_free_cons in H. destruct H as [Hc Ha].
    change (JS.split ":" (String c (a +:+ String ":" rest))
            = String c a :: JS.split ":" rest).
    simpl. rewrite Hc, (IH Ha). reflexivity.
Qed.

Lemma split_single (a : string) :
  JS.includes a ":" = false -> JS.split ":" a = [a].
Proof.
  induction a as [|c a IH]; intros H.
  - reflexivity.
  - apply colon_free_cons in H. destruct H as [Hc Ha].
    simpl. rewrite Hc, (IH Ha). reflexivity.
Qed.

Lemma split_join4 (a b c d : string) :
  JS.includes a ":" = false -> JS.includes b ":" = false ->
  JS.includes c ":" = false -> JS.includes d ":" = false ->
  JS.split ":" (JS.join ":" [a; b; c; d]) = [a; b; c; d].
Proof.
  intros Ha Hb Hc Hd.
  change (JS.split ":" (a +:+ String ":" (b +:+ String ":" (c +:+ String ":" d)))
          = [a; b; c; d]).
  rewrite (split_field _ _ Ha), (split_field _ _ Hb), (split_field _ _ Hc),
    (split_single _ Hd).
  reflexivity.
Qed.

Lemma split_length (s : string) : length (JS.split ":" s) = S (colons s).
Proof.
  induction s as [|c s IH]; [reflexivity |].
  simpl. destruct (Ascii.eqb c ":"); simpl.
  - now rewrite IH.
  - destruct (JS.split ":" s); simpl in *; congruence.
Qed.

(** C9: with the key configured, [decrypt] returns the plaintext that
    [encrypt] was given, whatever salt and iv were drawn; and [decrypt]
    throws the format error on every input that does not split into exactly
    four fields at the colons, that is, that has not exactly three colons. *)
Theorem decrypt_encrypt (text : Type) (node : Crypto.Node text)
    (key : string) (salt iv : Crypto.bytes) (plaintext : text) :
  Crypto.Sound node -> key <> "" -> Crypto.wellFormed node plaintext ->
  (exists c, Crypto.encrypt node (Some key) salt iv plaintext = Ok c /\
             Crypto.decrypt node (Some key) c = Ok plaintext)
  /\ (forall envKey c, length (JS.split ":" c) <> 4 ->
        Crypto.decrypt node envKey c = Throw "Invalid ciphertext format")
  /\ (forall envKey c, colons c <> 3 ->
        Crypto.decrypt node envKey c = Throw "Invalid ciphertext format").
Proof.
  intros S K W.
  assert (F : forall envKey c, length (JS.split ":" c) <> 4 ->
            Crypto.decrypt node envKey c = Throw "Invalid ciphertext format").
  { intros envKey c H. unfold Crypto.decrypt.
    destruct (JS.split ":" c) as [|p1 [|p2 [|p3 [|p4 [|p5 ps]]]]];
      try reflexivity. now destruct H. }
  split; [| split; [exact F |]].
  - destruct key as [|k0 key]; [now destruct K |].
    unfold Crypto.encrypt, Crypto.deriveKey, Crypto.getEncryptionKey.
    destruct (Crypto.gcmEncrypt node _ iv (Crypto.utf8Encode node plaintext))
      as [encrypted tag] eqn:E.
    eexists. split; [reflexivity |].
    unfold Crypto.decrypt.
    rewrite split_join4 by apply (Crypto.base64_alphabet node S).
    unfold Crypto.deriveKey, Crypto.getEncryptionKey.
    rewrite !(Crypto.base64_inverse node S).
    pose proof (Crypto.gcm_inverse node S
      (Crypto.scrypt node (String k0 key) salt 32) iv
      (Crypto.utf8Encode node plaintext)) as G.
    rewrite E in G. simpl in G. rewrite G.
    now rewrite (Crypto.utf8_inverse node S).
  - intros envKey c H. apply F. rewrite split_length. congruence.
Qed.

Lemma includes_cons_ne (c : ascii) (s : string) :
  Ascii.eqb c ":" = false ->
  JS.includes (String c s) ":" = JS.includes s ":".
Proof. intros H. rewrite includes_colon_cons, H. reflexivity. Qed.

Lemma standIn_byte (x : Byte.byte) (s : string) :
  Examples.decode (Examples.encodeByte x +:+ s) = x :: Examples.decode s.
Proof. destruct x; reflexivity. Qed.

Lemma standIn_letters (x : Byte.byte) :
  Ascii.eqb (Examples.letter (Byte.to_N x / 16)) ":" = false /\
  Ascii.eqb (Examples.letter (Byte.to_N x mod 16)) ":" = false.
Proof. destruct x; split; reflexivity. Qed.

Lemma standIn_sound : Crypto.Sound Examples.standIn.
Proof.
  constructor; simpl.
  - intros s _. apply string_of_list_byte_of_string.
  - induction bs as [|x bs IH]; [reflexivity |].
    simpl Examples.encode. rewrite standIn_byte, IH. reflexivity.
  - induction bs as [|x bs IH]; [reflexivity |].
    destruct (standIn_letters x) as [H1 H2].
    change (JS.includes
      (String (Examples.letter (Byte.to_N x / 16))
         (String (Examples.letter (Byte.to_N x mod 16)) (Examples.encode bs)))
      ":" = false).
    rewrite (includes_cons_ne _ _ H1), (includes_cons_ne _ _ H2). exact IH.
  - intros key iv data. unfold Examples.sameBytes.
    destruct (List.list_eq_dec Byte.byte_eq_dec (key ++ iv) (key ++ iv));
      [| contradiction].
    now rewrite rev_involutive.
Qed.

Lemma decrypt_encrypt_witness :
  exists c,
    Crypto.encrypt Examples.standIn (Some "secret") [] [] "caf\195\169" = Ok c /\
    Crypto.decrypt Examples.standIn (Some "secret") c = Ok "caf\195\169".
Proof.
  apply (decrypt_encrypt string Examples.standIn "secret" [] [] "caf\195\169").
  - exact standIn_sound.
  - discriminate.
  - exact I.
Defined.

(** ** Markers: what a history tells about the attempts *)

Lemma markers_cons_plain (e : Event) (h : History) :
  isMarker e = false -> markers (e :: h) = markers h.
Proof. intros H. unfold markers. simpl. now rewrite H. Qed.

Lemma attemptsOf_markers (i : nat) (h : History) :
  attemptsOf i (markers h) = attemptsOf i h.
Proof.
  unfold attemptsOf, markers. induction h as [|e h IH]; [reflexivity |].
  destruct e; simpl; try exact IH.
  - destruct (Nat.eqb stepIndex i); simpl; now rewrite IH.
Qed.

Lemma failedAttempts_markers (h : History) :
  failedAttempts (markers h) = failedAttempts h.
Proof.
  unfold failedAttempts, markers. induction h as [|e h IH]; [reflexivity |].
  destruct e; simpl; try exact IH.
  - destruct (negb (sr_passed r)); simpl; now rewrite IH.
Qed.

Lemma lastResultOf_markers (i : nat) (h : History) :
  lastResultOf i (markers h) = lastResultOf i h.
Proof.
  unfold markers. induction h as [|e h IH]; [reflexivity |].
  destruct e; simpl; try exact IH.
  - destruct (Nat.eqb (sr_step r) i); [reflexivity | exact IH].
Qed.

Lemma quiet_ret {A} (a : A) : quiet (ret a).
Proof. intros h. reflexivity. Qed.

Lemma quiet_perform (b : Browser) (e : Event) :
  isMarker e = false -> quiet (perform b e).
Proof.
  intros H h. unfold perform.
  destruct (rejects b h e); simpl; now apply markers_cons_plain.
Qed.

Lemma quiet_waitForTimeout (b : Browser) (ms : option Z) :
  quiet (waitForTimeout ms).
Proof. intros h. reflexivity. Qed.

Lemma quiet_bind {A B} (m : M A) (k : A -> M B) :
  quiet m -> (forall a, quiet (k a)) -> quiet (bind m k).
Proof.
  intros Hm Hk h. unfold bind. specialize (Hm h).
  destruct (m h) as [[a | msg] h1]; simpl in *.
  - now rewrite (Hk a h1).
  - exact Hm.
Qed.

Lemma quiet_probe (b : Browser) (l : Locator) : quiet (probe b l).
Proof.
  intros h. unfold probe.
  destruct (rejects b h _); reflexivity.
Qed.

Lemma quiet_tryStrategies (b : Browser) (ls : list Locator) (target : string) :
  quiet (tryStrategies b ls target).
Proof.
  induction ls as [|l ls IH]; intros h; [reflexivity |].
  simpl. pose proof (quiet_probe b l h) as P.
  destruct (probe b l h) as [[|] h1]; simpl in *.
  - exact P.
  - now rewrite IH.
Qed.

Lemma quiet_findElement (b : Browser) (target : string) :
  quiet (findElement b target).
Proof.
  intros h. unfold findElement.
  destruct (looksLikeCss target); [reflexivity |].
  apply quiet_tryStrategies.
Qed.

Lemma quiet_onElement (b : Browser) (target : string) (act : Locator -> Event) :
  (forall l, isMarker (act l) = false) -> quiet (onElement b target act).
Proof.
  intros H h. unfold onElement.
  pose proof (quiet_findElement b target h) as F.
  destruct (findElement b target h) as [l h1]. simpl in F.
  now rewrite (quiet_perform b (act l) (H l) h1).
Qed.

Lemma quiet_withTarget (b : Browser) (target : option string)
    (act : Locator -> Event) :
  (forall l, isMarker (act l) = false) -> quiet (withTarget b target act).
Proof.
  intros H. unfold withTarget.
  destruct target as [[|c t]|]; try apply quiet_ret.
  now apply quiet_onElement.
Qed.

Create HintDb quiet.

#[local] Hint Resolve quiet_ret quiet_perform quiet_waitForTimeout
  quiet_onElement quiet_withTarget : quiet.

Lemma quiet_dispatch (b : Browser) (step : StoryStep) : quiet (dispatch b step).
Proof.
  unfold dispatch.
  repeat match goal with
         | |- quiet (if ?c then _ else _) => destruct c
         | |- quiet (match ?t with Some _ => _ | None => _ end) =>
             destruct t as [[|? ?]|]
         end;
    auto with quiet.
Qed.

Lemma attemptsOf_cons (j : nat) (e : Event) (h : History) :
  attemptsOf j (e :: h) = (if isAttemptOf j e then 1 else 0) + attemptsOf j h.
Proof. unfold attemptsOf. simpl. destruct (isAttemptOf j e); reflexivity. Qed.

Lemma failedAttempts_cons (e : Event) (h : History) :
  failedAttempts (e :: h) = (if isFailure e then 1 else 0) + failedAttempts h.
Proof. unfold failedAttempts. simpl. destruct (isFailure e); reflexivity. Qed.

(** What a quiet stretch leaves unchanged. *)
Lemma same_markers (h h' : History) :
  markers h' = markers h ->
  (forall i, attemptsOf i h' = attemptsOf i h) /\
  failedAttempts h' = failedAttempts h /\
  (forall i, lastResultOf i h' = lastResultOf i h).
Proof.
  intros E. repeat split; intros.
  - now rewrite <- attemptsOf_markers, E, attemptsOf_markers.
  - now rewrite <- failedAttempts_markers, E, failedAttempts_markers.
  - now rewrite <- lastResultOf_markers, E, lastResultOf_markers.
Qed.

(** One attempt: the history gains the entry and the result. *)
Lemma executeStep_markers (b : Browser) (step : StoryStep) (i : nat)
    (h : History) :
  let r := fst (executeStep b step i h) in
  sr_step r = i /\
  markers (snd (executeStep b step i h)) = StepDone r :: EnterStep i :: markers h.
Proof.
  unfold executeStep.
  pose proof (quiet_bind (dispatch b step)
                (fun _ => waitForTimeout (Some 100%Z))
                (quiet_dispatch b step)
                (fun _ => quiet_waitForTimeout b _) (EnterStep i :: h)) as Q.
  destruct (bind (dispatch b step) (fun _ => waitForTimeout (Some 100%Z))
                 (EnterStep i :: h)) as [outcome h1].
  simpl in *. split; [reflexivity |].
  unfold markers in *. simpl. now rewrite Q.
Qed.

Lemma executeStep_measures (b : Browser) (step : StoryStep) (i : nat)
    (h : History) (r : StepResult) (h1 : History) :
  executeStep b step i h = (r, h1) ->
  sr_step r = i /\
  (forall j, attemptsOf j h1 = (if Nat.eqb i j then 1 else 0) + attemptsOf j h) /\
  failedAttempts h1 = (if sr_passed r then 0 else 1) + failedAttempts h /\
  (forall j, lastResultOf j h1 = if Nat.eqb i j then Some r else lastResultOf j h).
Proof.
  intros E. pose proof (executeStep_markers b step i h) as [S M].
  rewrite E in S, M. simpl in S, M. split; [exact S |].
  repeat split; intros.
  - rewrite <- attemptsOf_markers, M, !attemptsOf_cons, attemptsOf_markers.
    reflexivity.
  - rewrite <- failedAttempts_markers, M, !failedAttempts_cons,
      failedAttempts_markers.
    simpl. destruct (sr_passed r); reflexivity.
  - rewrite <- lastResultOf_markers, M. simpl. rewrite S.
    destruct (Nat.eqb i j); [reflexivity |]. apply lastResultOf_markers.
Qed.

(** The retry loop of one step. *)
Lemma attemptStep_measures (b : Browser) (step : StoryStep) (i : nat) :
  forall (n : nat) (lastError : option string) (retries : nat) (h : History)
         (r : StepResult) (lastError' : option string) (retries' : nat)
         (h' : History),
    attemptStep b n step i lastError retries h = ((r, lastError', retries'), h') ->
    sr_step r = i /\
    attemptsOf i h' <= attemptsOf i h + n + 1 /\
    1 <= attemptsOf i h' - attemptsOf i h /\
    (forall j, j <> i -> attemptsOf j h' = attemptsOf j h) /\
    failedAttempts h' + retries = failedAttempts h + retries' /\
    lastResultOf i h' = Some r /\
    (forall j, j <> i -> lastResultOf j h' = lastResultOf j h) /\
    (sr_passed r = false -> lastError' = sr_error r).
Proof.
  induction n as [|n IH]; intros lastError retries h r lastError' retries' h' E;
    simpl in E;
    destruct (executeStep b step i h) as [r1 h1] eqn:X;
    destruct (executeStep_measures b step i h r1 h1 X) as (S1 & A1 & F1 & L1);
    destruct (sr_passed r1) eqn:P1.
  - injection E as <- <- <- <-. rewrite (A1 i), F1, (L1 i), Nat.eqb_refl, P1.
    repeat split; try lia; try congruence.
    + intros j Hj. rewrite A1. destruct (Nat.eqb_spec i j); [congruence | lia].
    + intros j Hj. rewrite L1. destruct (Nat.eqb_spec i j); [congruence | reflexivity].
  - injection E as <- <- <- <-. rewrite (A1 i), F1, (L1 i), Nat.eqb_refl, P1.
    repeat split; try lia; try congruence.
    + intros j Hj. rewrite A1. destruct (Nat.eqb_spec i j); [congruence | lia].
    + intros j Hj. rewrite L1. destruct (Nat.eqb_spec i j); [congruence | reflexivity].
  - injection E as <- <- <- <-. rewrite (A1 i), F1, (L1 i), Nat.eqb_refl, P1.
    repeat split; try lia; try congruence.
    + intros j Hj. rewrite A1. destruct (Nat.eqb_spec i j); [congruence | lia].
    + intros j Hj. rewrite L1. destruct (Nat.eqb_spec i j); [congruence | reflexivity].
  - apply IH in E. destruct E as (S & A & A' & Aj & F & L & Lj & LE).
    destruct (same_markers h1 (WaitForTimeout (Some 1000%Z) :: h1) eq_refl)
      as (QA & QF & QL).
    rewrite QA in A, A'. rewrite QF in F. rewrite (A1 i), Nat.eqb_refl in A, A'.
    rewrite F1 in F.
    repeat split; try lia; try assumption.
    + intros j Hj. rewrite (Aj j Hj), QA, A1.
      destruct (Nat.eqb_spec i j); [congruence | lia].
    + intros j Hj. rewrite (Lj j Hj), QL, L1.
      destruct (Nat.eqb_spec i j); [congruence | reflexivity].
Qed.

Lemma quiet_captureScreenshot (b : Browser) (storyId : string) :
  quiet (captureScreenshot b storyId).
Proof.
  unfold captureScreenshot. apply quiet_bind.
  - now apply quiet_perform.
  - intros _ h. unfold uploadScreenshot.
    destruct (uploadAnswer b h _); simpl; try reflexivity.
    destruct (publicUrl b _); reflexivity.
Qed.

Lemma quiet_authenticateUser (b : Browser) (baseUrl : string)
    (creds : UserCredentials) (cfg : AuthConfig) :
  quiet (authenticateUser b baseUrl creds cfg).
Proof.
  intros h. unfold authenticateUser.
  match goal with
  | |- context [match ?m h with _ => _ end] =>
      assert (Q : quiet m); [| specialize (Q h); destruct (m h) as [[[]|msg] h1]; exact Q]
  end.
  apply quiet_bind.
  { intros h0. destruct (resolveUrl b _ baseUrl); reflexivity. }
  intros target. repeat (apply quiet_bind; [now apply quiet_perform | intros _]).
  destruct (successIndicator cfg) as [[|c s]|]; now apply quiet_perform.
Qed.

Lemma quiet_enterSite (b : Browser) (baseUrl : string) (opts : ExecutionOptions) :
  quiet (enterSite b baseUrl opts).
Proof.
  unfold enterSite.
  destruct (credentials opts) as [creds|]; [| now apply quiet_perform].
  destruct (authConfig opts) as [cfg|]; [| now apply quiet_perform].
  destruct (auth_type cfg); try now apply quiet_perform.
  intros h. pose proof (quiet_authenticateUser b baseUrl creds cfg h) as Q.
  destruct (authenticateUser b baseUrl creds cfg h) as [[e|] h1]; exact Q.
Qed.

Lemma quiet_verify (b : Browser) (v : Verification) : quiet (verify b v).
Proof.
  intros h. unfold verify.
  repeat match goal with
         | |- context [if ?c then _ else _] => destruct c
         | |- context [match rejects b h ?e with _ => _ end] =>
             destruct (rejects b h e)
         end; reflexivity.
Qed.

Lemma verifyAll_measures (b : Browser) (vs : list Verification) :
  forall (l : Locals) (h : History) (l' : Locals) (h' : History),
    verifyAll b vs l h = (l', h') ->
    markers h' = markers h /\
    l_stepResults l' = l_stepResults l /\ l_retries l' = l_retries l.
Proof.
  induction vs as [|v vs IH]; intros l h l' h' E; simpl in E.
  - now injection E as <- <-.
  - pose proof (quiet_verify b v h) as Q.
    destruct (verify b v h) as [[msg|] h1]; simpl in Q.
    + now injection E as <- <-.
    + apply IH in E. destruct E as (M & S & R). now rewrite M.
Qed.

(** The step loop, from step [i] on. *)
Lemma runSteps_measures (b : Browser) (opts : ExecutionOptions) (sid : string) :
  forall (todo : list StoryStep) (i : nat) (l : Locals) (h : History)
         (t : option string) (l' : Locals) (h' : History),
    runSteps b opts sid todo i l h = (t, l', h') ->
    (forall j, j < i -> attemptsOf j h' = attemptsOf j h) /\
    (forall j, attemptsOf j h' <= attemptsOf j h + retryCount opts + 1) /\
    failedAttempts h' + l_retries l = failedAttempts h + l_retries l' /\
    (forall j, j < i -> lastResultOf j h' = lastResultOf j h) /\
    exists rs,
      l_stepResults l' = l_stepResults l ++ rs /\
      map sr_step rs = seq i (length rs) /\
      length rs <= length todo /\
      Forall (fun sr => lastResultOf (sr_step sr) h' = Some sr) rs.
Proof.
  induction todo as [|step rest IH]; intros i l h t l' h' E; simpl in E.
  - injection E as <- <- <-. repeat split; try lia; auto.
    exists []. rewrite app_nil_r. repeat split; simpl; auto; lia.
  - destruct (attemptStep b (retryCount opts) step i None (l_retries l) h)
      as [[[r lastError] retries'] h1] eqn:X.
    destruct (attemptStep_measures b step i _ _ _ _ _ _ _ _ X)
      as (S & A & _ & Aj & F & L & Lj & _).
    destruct (sr_passed r) eqn:P.
    + apply IH in E. destruct E as (A2 & B2 & F2 & L2 & rs & R1 & R2 & R3 & R4).
      simpl in F2, R1. repeat split.
      * intros j Hj. rewrite A2 by lia. apply Aj. lia.
      * intros j. destruct (Nat.eq_dec j i) as [-> | ne].
        -- rewrite A2 by lia. exact A.
        -- specialize (B2 j). rewrite (Aj j ne) in B2. exact B2.
      * lia.
      * intros j Hj. rewrite L2 by lia. apply Lj. lia.
      * exists (r :: rs). repeat split.
        -- rewrite R1, <- app_assoc. reflexivity.
        -- simpl. now rewrite S, R2.
        -- simpl. lia.
        -- constructor; [| exact R4]. rewrite S, L2 by lia. exact L.
    + assert (Q : markers h' = markers h1 /\
                  l_stepResults l' = l_stepResults l ++ [r] /\
                  l_retries l' = retries').
      { destruct (screenshotOnFailure opts).
        - pose proof (quiet_captureScreenshot b sid h1) as Q.
          destruct (captureScreenshot b sid h1) as [[u|msg] h2];
            injection E as <- <- <-; auto.
        - injection E as <- <- <-; auto. }
      destruct Q as (M & R & T).
      destruct (same_markers h1 h' M) as (QA & QF & QL).
      repeat split.
      * intros j Hj. rewrite QA. apply Aj. lia.
      * intros j. rewrite QA. destruct (Nat.eq_dec j i) as [-> | ne].
        -- exact A.
        -- rewrite (Aj j ne). lia.
      * rewrite QF, T. exact F.
      * intros j Hj. rewrite QL. apply Lj. lia.
      * exists [r]. repeat split; auto.
        -- simpl. now rewrite S.
        -- simpl. lia.
        -- constructor; [| constructor]. rewrite QL, S. exact L.
Qed.

Lemma tryBlock_measures (b : Browser) (story : Story) (baseUrl : string)
    (opts : ExecutionOptions) (l : Locals) (h : History)
    (t : option string) (l' : Locals) (h' : History) :
  tryBlock b story baseUrl opts l h = (t, l', h') ->
  (forall j, attemptsOf j h' <= attemptsOf j h + retryCount opts + 1) /\
  failedAttempts h' + l_retries l = failedAttempts h + l_retries l' /\
  exists rs,
    l_stepResults l' = l_stepResults l ++ rs /\
    map sr_step rs = seq 0 (length rs) /\
    length rs <= length (steps story) /\
    Forall (fun sr => lastResultOf (sr_step sr) h' = Some sr) rs.
Proof.
  unfold tryBlock. intros E.
  pose proof (quiet_enterSite b baseUrl opts h) as Q0.
  destruct (enterSite b baseUrl opts h) as [[[]|msg] h1]; simpl in Q0;
    destruct (same_markers h h1 Q0) as (QA & QF & QL).
  2:{ injection E as <- <- <-. rewrite QF. repeat split; [intros; rewrite QA; lia |].
      exists []. rewrite app_nil_r. repeat split; simpl; auto; lia. }
  destruct (runSteps b opts (id story) (steps story) 0 l h1)
    as [[t2 l2] h2] eqn:X.
  destruct (runSteps_measures b opts _ _ _ _ _ _ _ _ X)
    as (_ & B & F & _ & rs & R1 & R2 & R3 & R4).
  rewrite QF in F.
  assert (K : markers h' = markers h2 /\
              l_stepResults l' = l_stepResults l2 /\
              l_retries l' = l_retries l2).
  { destruct t2 as [msg|]; [now injection E as <- <- <- |].
    destruct (l_passed l2); [| now injection E as <- <- <-].
    destruct (outcome story) as [vs|]; [| now injection E as <- <- <-].
    destruct (verifyAll b vs l2 h2) as [l3 h3] eqn:V.
    destruct (verifyAll_measures b vs _ _ _ _ V) as (M3 & S3 & T3).
    destruct (negb (l_passed l3) && screenshotOnFailure opts
              && negb (JS.truthy (l_screenshotUrl l3))).
    - pose proof (quiet_captureScreenshot b (id story) h3) as Q.
      destruct (captureScreenshot b (id story) h3) as [[u|msg] h4];
        injection E as <- <- <-; simpl in *; rewrite Q; auto.
    - now injection E as <- <- <-. }
  destruct K as (M & S & T).
  destruct (same_markers h2 h' M) as (KA & KF & KL).
  repeat split.
  - intros j. rewrite KA. specialize (B j). rewrite QA in B. exact B.
  - rewrite KF, T. exact F.
  - exists rs. rewrite S. repeat split; auto.
    eapply List.Forall_impl; [| exact R4]. simpl. intros sr Hsr. now rewrite KL.
Qed.

Lemma catchBlock_measures (b : Browser) (story : Story)
    (opts : ExecutionOptions) (msg : string) (l : Locals) (h : History)
    (l' : Locals) (h' : History) :
  catchBlock b story opts msg l h = (l', h') ->
  markers h' = markers h /\
  l_stepResults l' = l_stepResults l /\ l_retries l' = l_retries l /\
  l_passed l' = false /\ l_error l' = Some msg.
Proof.
  unfold catchBlock. intros E.
  destruct (screenshotOnFailure opts).
  - pose proof (quiet_captureScreenshot b (id story) h) as Q.
    destruct (captureScreenshot b (id story) h) as [[u|m] h1];
      injection E as <- <-; auto.
  - injection E as <- <-; auto.
Qed.

Lemma afterTryCatch_measures (b : Browser) (story : Story) (baseUrl : string)
    (opts : ExecutionOptions) (h : History) (l : Locals) (h' : History) :
  afterTryCatch b story baseUrl opts h = (l, h') ->
  (forall j, attemptsOf j h' <= attemptsOf j h + retryCount opts + 1) /\
  failedAttempts h' = failedAttempts h + l_retries l /\
  map sr_step (l_stepResults l) = seq 0 (length (l_stepResults l)) /\
  length (l_stepResults l) <= length (steps story) /\
  Forall (fun sr => lastResultOf (sr_step sr) h' = Some sr) (l_stepResults l).
Proof.
  unfold afterTryCatch. intros E.
  destruct (tryBlock b story baseUrl opts initialLocals h)
    as [[t l1] h1] eqn:X.
  destruct (tryBlock_measures b _ _ _ _ _ _ _ _ X)
    as (B & F & rs & R1 & R2 & R3 & R4).
  simpl in F, R1.
  assert (K : markers h' = markers h1 /\
              l_stepResults l = l_stepResults l1 /\
              l_retries l = l_retries l1).
  { destruct t as [msg|].
    - apply catchBlock_measures in E. tauto.
    - now injection E as <- <-. }
  destruct K as (M & S & T).
  destruct (same_markers h1 h' M) as (KA & KF & KL).
  rewrite S, T, R1. repeat split; auto.
  - intros j. rewrite KA. apply B.
  - rewrite KF. lia.
  - eapply List.Forall_impl; [| exact R4]. simpl. intros sr Hsr. now rewrite KL.
Qed.

Lemma executeStory_unfold (b : Browser) (story : Story) (baseUrl : string)
    (opts : ExecutionOptions) (h0 : History) :
  let h := NewPage :: NewContext :: EnterStory (id story) :: h0 in
  rejects b (EnterStory (id story) :: h0) NewContext = None ->
  rejects b (NewContext :: EnterStory (id story) :: h0) NewPage = None ->
  executeStory b story baseUrl opts h0 =
    let '(l, h2) := afterTryCatch b story baseUrl opts h in
    match rejects b h2 CloseContext with
    | Some msg => (Throw msg, CloseContext :: h2)
    | None =>
        (Ok {| passed := l_passed l;
               duration_ms := now b (CloseContext :: h2) - now b h;
               step_results := l_stepResults l;
               error := l_error l;
               screenshot_url := l_screenshotUrl l;
               console_errors := consoleErrors b (CloseContext :: h2);
               retries := l_retries l |}, CloseContext :: h2)
    end.
Proof.
  intros h C1 C2. unfold executeStory, bind, perform.
  rewrite C1, C2. fold h.
  destruct (afterTryCatch b story baseUrl opts h) as [l h2].
  destruct (rejects b h2 CloseContext); reflexivity.
Qed.

(** Whatever the browser does, a run of [executeStory] enters each step at
    most [retryCount + 1] times; when it returns a result, the retries it
    reports are the failed attempts, and it keeps one result per step, the
    result of the latest attempt of that step. *)
Lemma executeStory_attempts (b : Browser) (story : Story) (baseUrl : string)
    (opts : ExecutionOptions) (h : History) :
  let h' := snd (executeStory b story baseUrl opts h) in
  (forall i, attemptsOf i h' <= attemptsOf i h + retryCount opts + 1) /\
  (forall r, fst (executeStory b story baseUrl opts h) = Ok r ->
     failedAttempts h' = failedAttempts h + retries r /\
     map sr_step (step_results r) = seq 0 (length (step_results r)) /\
     length (step_results r) <= length (steps story) /\
     Forall (fun sr => lastResultOf (sr_step sr) h' = Some sr) (step_results r)).
Proof.
  destruct (rejects b (EnterStory (id story) :: h) NewContext) as [m|] eqn:C1.
  { unfold executeStory, bind, perform. rewrite C1. simpl.
    split; [intros; rewrite !attemptsOf_cons; simpl; lia | discriminate]. }
  destruct (rejects b (NewContext :: EnterStory (id story) :: h) NewPage)
    as [m|] eqn:C2.
  { unfold executeStory, bind, perform. rewrite C1, C2. simpl.
    split; [intros; rewrite !attemptsOf_cons; simpl; lia | discriminate]. }
  rewrite (executeStory_unfold b story baseUrl opts h C1 C2).
  destruct (afterTryCatch b story baseUrl opts _) as [l h2] eqn:X.
  destruct (afterTryCatch_measures b _ _ _ _ _ _ X) as (A & F & R2 & R3 & R4).
  rewrite !failedAttempts_cons in F. simpl in F.
  assert (A' : forall i, attemptsOf i (CloseContext :: h2)
                         <= attemptsOf i h + retryCount opts + 1).
  { intros i. specialize (A i). rewrite !attemptsOf_cons in *. simpl in *. lia. }
  destruct (rejects b h2 CloseContext) as [m|]; simpl.
  - split; [exact A' | discriminate].
  - split; [exact A' |]. intros r E. injection E as <-. simpl.
    rewrite failedAttempts_cons. simpl. repeat split; auto.
Qed.

(** Two failed attempts and a third that passes, under [retryCount = 2]. *)
Lemma attemptStep_third_passes (b : Browser) (step : StoryStep) (i : nat)
    (lastError : option string) (retries : nat) (h0 : History)
    (r1 r2 r3 : StepResult) (h1 h2 h3 : History) :
  executeStep b step i h0 = (r1, h1) -> sr_passed r1 = false ->
  executeStep b step i (WaitForTimeout (Some 1000%Z) :: h1) = (r2, h2) ->
  sr_passed r2 = false ->
  executeStep b step i (WaitForTimeout (Some 1000%Z) :: h2) = (r3, h3) ->
  sr_passed r3 = true ->
  attemptStep b 2 step i lastError retries h0
  = ((r3, sr_error r2, 2 + retries), h3).
Proof.
  intros E1 P1 E2 P2 E3 P3. simpl.
  rewrite E1, P1, E2, P2, E3, P3. reflexivity.
Qed.

(** ** Authentication failure *)

Lemma authenticateUser_error (b : Browser) (baseUrl : string)
    (creds : UserCredentials) (cfg : AuthConfig) (h : History)
    (err : string) (h1 : History) :
  authenticateUser b baseUrl creds cfg h = (Some err, h1) ->
  exists msg, err = "Authentication failed: " +:+ msg.
Proof.
  unfold authenticateUser.
  match goal with
  | |- context [match ?m h with _ => _ end] => destruct (m h) as [[[]|msg] h2]
  end; intros E; [discriminate |].
  injection E as <- <-. now exists msg.
Qed.

Lemma captureScreenshot_events (b : Browser) (sid : string) (h : History) :
  exists d, snd (captureScreenshot b sid h) = d ++ Screenshot :: h /\
            (d = [] \/ exists f, d = [Upload f]).
Proof.
  unfold captureScreenshot, bind, perform.
  destruct (rejects b h Screenshot).
  - exists []. split; [reflexivity | now left].
  - unfold uploadScreenshot.
    eexists [Upload _]. split; [| right; eexists; reflexivity].
    destruct (uploadAnswer b (Screenshot :: h) _); simpl; try reflexivity.
    destruct (publicUrl b _); reflexivity.
Qed.

(** C2, as stated, fails: with [screenshotOnFailure] set, as
    [executeTestRun] sets it, the [catch] block of [executeStory] takes and
    uploads a screenshot after the failed login, before the context is
    closed. *)
Lemma auth_failure_counterexample : ~ auth_failure_as_stated.
Proof.
  intros H.
  destruct (H Examples.lockedOut Examples.oneClick "https://x.test"
              Examples.asAdmin Examples.admin Examples.formAuth []
              "Authentication failed: Timeout 30000ms exceeded"
              [PageFill "#user" (Some "admin@x.test");
               Goto "https://x.test/login"; NewPage; NewContext;
               EnterStory "story-1"])
    as (r & E & _); try reflexivity.
  - intros h. repeat split.
  - discriminate E.
Qed.

(** C2, amended: when the login fails, [executeStory] returns a result with
    [passed = false], the authentication error as [error], no step result
    and no retry, and no step has been entered.  When
    [screenshotOnFailure] is set a screenshot is taken (and uploaded when
    taking it succeeds) before the context is closed; when it is not set,
    the context is closed next and no screenshot is recorded. *)
Theorem auth_failure_aborts (b : Browser) (story : Story) (baseUrl : string)
    (opts : ExecutionOptions) (creds : UserCredentials) (cfg : AuthConfig)
    (h : History) (err : string) (h1 : History) :
  contextWorks b ->
  credentials opts = Some creds -> authConfig opts = Some cfg ->
  auth_type cfg = auth_form ->
  authenticateUser b baseUrl creds cfg (atTry story h) = (Some err, h1) ->
  exists r h',
    executeStory b story baseUrl opts h = (Ok r, h') /\
    passed r = false /\ error r = Some err /\
    step_results r = [] /\ retries r = 0 /\
    (forall i, attemptsOf i h' = attemptsOf i h) /\
    (screenshotOnFailure opts = true ->
       exists d, h' = CloseContext :: d ++ Screenshot :: h1 /\
                 (d = [] \/ exists f, d = [Upload f])) /\
    (screenshotOnFailure opts = false ->
       h' = CloseContext :: h1 /\ screenshot_url r = None).
Proof.
  intros W C A T E.
  destruct (authenticateUser_error _ _ _ _ _ _ _ E) as [m ->].
  rewrite (executeStory_unfold b story baseUrl opts h)
    by apply (W _).
  fold (atTry story h).
  assert (X : tryBlock b story baseUrl opts initialLocals (atTry story h)
              = (Some ("Authentication failed: " +:+ m), initialLocals, h1)).
  { unfold tryBlock, enterSite. rewrite C, A, T, E. reflexivity. }
  unfold afterTryCatch. rewrite X.
  destruct (catchBlock b story opts ("Authentication failed: " +:+ m)
              initialLocals h1) as [l h2] eqn:K.
  destruct (catchBlock_measures _ _ _ _ _ _ _ _ K) as (M & S & R & P & Er).
  destruct (W h2) as (_ & _ & ->).
  eexists. eexists. split; [reflexivity |]. simpl.
  repeat split; auto.
  - intros i. rewrite attemptsOf_cons. simpl.
    destruct (same_markers h1 h2 M) as (QA & _). rewrite QA.
    pose proof (quiet_authenticateUser b baseUrl creds cfg (atTry story h)) as Q.
    rewrite E in Q. unfold snd in Q.
    destruct (same_markers _ _ Q) as (QA' & _). rewrite QA'.
    unfold atTry. now rewrite !attemptsOf_cons.
  - intros SF. unfold catchBlock in K. rewrite SF in K.
    destruct (captureScreenshot_events b (id story) h1) as (d & D & Hd).
    exists d. split; [| exact Hd].
    destruct (captureScreenshot b (id story) h1) as [[u|e] h3];
      injection K as <- <-; simpl in D; now rewrite D.
  - unfold catchBlock in K. rewrite H in K. now injection K as <- <-.
  - unfold catchBlock in K. rewrite H in K. now injection K as <- <-.
Qed.

Lemma auth_failure_aborts_witness :
  exists r h',
    executeStory Examples.lockedOut Examples.oneClick "https://x.test"
                 Examples.asAdmin [] = (Ok r, h') /\
    passed r = false /\
    error r = Some "Authentication failed: Timeout 30000ms exceeded" /\
    step_results r = [] /\ retries r = 0 /\
    (forall i, attemptsOf i h' = attemptsOf i []) /\
    (screenshotOnFailure Examples.asAdmin = true ->
       exists d,
         h' = CloseContext :: d ++ Screenshot ::
                [PageFill "#user" (Some "admin@x.test");
                 Goto "https://x.test/login"; NewPage; NewContext;
                 EnterStory "story-1"] /\
         (d = [] \/ exists f, d = [Upload f])) /\
    (screenshotOnFailure Examples.asAdmin = false ->
       h' = CloseContext ::
              [PageFill "#user" (Some "admin@x.test");
               Goto "https://x.test/login"; NewPage; NewContext;
               EnterStory "story-1"] /\ screenshot_url r = None).
Proof.
  apply (auth_failure_aborts Examples.lockedOut Examples.oneClick
           "https://x.test" Examples.asAdmin Examples.admin Examples.formAuth).
  - intros h. repeat split.
  - reflexivity.
  - reflexivity.
  - reflexivity.
  - reflexivity.
Defined.

(** ** The stories that were entered *)

Lemma storiesEntered_markers (h : History) :
  storiesEntered (markers h) = storiesEntered h.
Proof.
  unfold markers. induction h as [|e h IH]; [reflexivity |].
  destruct e; simpl; try exact IH. now rewrite IH.
Qed.

Lemma entered_same_markers (h h' : History) :
  markers h' = markers h -> storiesEntered h' = storiesEntered h.
Proof.
  intros E. now rewrite <- storiesEntered_markers, E, storiesEntered_markers.
Qed.

Lemma entered_executeStep (b : Browser) (step : StoryStep) (i : nat)
    (h : History) :
  storiesEntered (snd (executeStep b step i h)) = storiesEntered h.
Proof.
  destruct (executeStep_markers b step i h) as [_ M].
  rewrite <- storiesEntered_markers, M. simpl. apply storiesEntered_markers.
Qed.

Lemma entered_attemptStep (b : Browser) (step : StoryStep) (i : nat) :
  forall (n : nat) (lastError : option string) (retries : nat) (h : History),
    storiesEntered (snd (attemptStep b n step i lastError retries h))
    = storiesEntered h.
Proof.
  induction n as [|n IH]; intros lastError retries h; simpl;
    pose proof (entered_executeStep b step i h) as E;
    destruct (executeStep b step i h) as [r h1]; simpl in E;
    destruct (sr_passed r); simpl; try exact E.
  rewrite IH. exact E.
Qed.

Lemma entered_runSteps (b : Browser) (opts : ExecutionOptions) (sid : string) :
  forall (todo : list StoryStep) (i : nat) (l : Locals) (h : History),
    storiesEntered (snd (runSteps b opts sid todo i l h)) = storiesEntered h.
Proof.
  induction todo as [|step rest IH]; intros i l h; simpl; [reflexivity |].
  pose proof (entered_attemptStep b step i (retryCount opts) None
                (l_retries l) h) as E.
  destruct (attemptStep b (retryCount opts) step i None (l_retries l) h)
    as [[[r lastError] retries'] h1]. simpl in E.
  destruct (sr_passed r); [now rewrite IH |].
  destruct (screenshotOnFailure opts); [| exact E].
  pose proof (quiet_captureScreenshot b sid h1) as Q.
  destruct (captureScreenshot b sid h1) as [[u|msg] h2]; simpl in *;
    now rewrite (entered_same_markers _ _ Q).
Qed.

Lemma entered_afterTryCatch (b : Browser) (story : Story) (baseUrl : string)
    (opts : ExecutionOptions) (h : History) :
  storiesEntered (snd (afterTryCatch b story baseUrl opts h))
  = storiesEntered h.
Proof.
  unfold afterTryCatch.
  assert (T : storiesEntered (snd (tryBlock b story baseUrl opts initialLocals h))
              = storiesEntered h).
  { unfold tryBlock.
    pose proof (quiet_enterSite b baseUrl opts h) as Q0.
    destruct (enterSite b baseUrl opts h) as [[[]|msg] h1]; simpl in Q0;
      [| simpl; now apply entered_same_markers].
    pose proof (entered_runSteps b opts (id story) (steps story) 0
                  initialLocals h1) as R.
    rewrite (entered_same_markers _ _ Q0) in R.
    destruct (runSteps b opts (id story) (steps story) 0 initialLocals h1)
      as [[t2 l2] h2]. simpl in R.
    destruct t2 as [msg|]; [exact R |].
    destruct (l_passed l2); [| exact R].
    destruct (outcome story) as [vs|]; [| exact R].
    destruct (verifyAll b vs l2 h2) as [l3 h3] eqn:V.
    destruct (verifyAll_measures b vs _ _ _ _ V) as (M3 & _).
    apply entered_same_markers in M3.
    destruct (negb (l_passed l3) && screenshotOnFailure opts
              && negb (JS.truthy (l_screenshotUrl l3))).
    - pose proof (quiet_captureScreenshot b (id story) h3) as Q.
      destruct (captureScreenshot b (id story) h3) as [[u|msg] h4];
        simpl in *; rewrite (entered_same_markers _ _ Q); congruence.
    - simpl. congruence. }
  destruct (tryBlock b story baseUrl opts initialLocals h) as [[[msg|] l1] h1];
    simpl in T; [| exact T].
  destruct (catchBlock b story opts msg l1 h1) as [l h2] eqn:K.
  destruct (catchBlock_measures _ _ _ _ _ _ _ _ K) as (M & _).
  simpl. rewrite (entered_same_markers _ _ M). exact T.
Qed.

(** A call of [executeStory] is recorded once, under the id of its story. *)
Lemma entered_executeStory (b : Browser) (s : Story) (baseUrl : string)
    (opts : ExecutionOptions) (h : History) :
  storiesEntered (snd (executeStory b s baseUrl opts h))
  = id s :: storiesEntered h.
Proof.
  unfold executeStory, bind, perform.
  destruct (rejects b (EnterStory (id s) :: h) NewContext); [reflexivity |].
  destruct (rejects b (NewContext :: EnterStory (id s) :: h) NewPage);
    [reflexivity |].
  pose proof (entered_afterTryCatch b s baseUrl opts
                (NewPage :: NewContext :: EnterStory (id s) :: h)) as A.
  destruct (afterTryCatch b s baseUrl opts _) as [l h2]. simpl in A.
  destruct (rejects b h2 CloseContext); simpl; exact A.
Qed.

(** ** Role gating *)

Lemma includes_quoted (a s c : string) :
  JS.includes (a +:+ quoted s +:+ c) s = true.
Proof.
  apply includes_app_l, includes_app_r. unfold quoted.
  apply includes_app_l, includes_self_app.
Qed.

Lemma lookupRole_none (cm : gmap string UserCredentials) (role : string) :
  cm !! role = None -> ~ In role objectPrototypeNames ->
  lookupRole cm role = None.
Proof.
  intros L N. unfold lookupRole. rewrite L.
  destruct (existsb (String.eqb role) objectPrototypeNames) eqn:X;
    [| reflexivity].
  apply existsb_exists in X. destruct X as (k & Hk & E).
  apply String.eqb_eq in E. subst k. contradiction.
Qed.

(** A story with a required role is given a skip reason that names the role
    when the environment has no form login or [credentialsMap[role]] is
    undefined. *)
Lemma gate_skips (env : Environment) (cm : gmap string UserCredentials)
    (s : Story) (role : string) :
  required_role s = Some role -> role <> "" ->
  auth_config env = None \/
  (exists cfg, auth_config env = Some cfg /\ auth_type cfg <> auth_form) \/
  lookupRole cm role = None ->
  exists reason,
    gate env cm s = (Some reason, None) /\ JS.includes reason role = true.
Proof.
  intros R N H. unfold gate. rewrite R.
  destruct role as [|c r]; [contradiction |].
  assert (G : forall reason : string,
            JS.includes reason (String c r) = true ->
            exists reason0,
              (Some reason, @None UserCredentials) = (Some reason0, None) /\
              JS.includes reason0 (String c r) = true)
    by (intros reason I; now exists reason).
  destruct H as [-> | [(cfg & -> & T) | L]].
  - apply G, includes_quoted.
  - destruct (auth_type cfg); try contradiction; apply G, includes_quoted.
  - destruct (auth_config env) as [cfg|]; [| apply G, includes_quoted].
    destruct (auth_type cfg); try rewrite L; try apply G, includes_quoted.
    apply G, includes_app_l, includes_self.
Qed.

(** ** The story loop *)

Lemma runOne_skip (b : Browser) (env : Environment)
    (cm : gmap string UserCredentials) (s : StoryRow) (c : Counters)
    (w : World) (reason : string) (creds : option UserCredentials) :
  gate env cm (story s) = (Some reason, creds) ->
  let c' := {| c_passed := c_passed c; c_failed := c_failed c;
               c_skipped := S (c_skipped c) |} in
  runOne b env cm s c w =
  (c', updateRun (setCounts c')
         (updateStory (id (story s)) "skipped"
            (insertResult (plainRow s reason) w))).
Proof. intros G. unfold runOne. rewrite G. reflexivity. Qed.

(** A story whose [executeStory] throws: the failure is counted and
    recorded, and the run record is not written. *)
Lemma runOne_thrown (b : Browser) (env : Environment)
    (cm : gmap string UserCredentials) (s : StoryRow) (c : Counters)
    (w : World) (creds : option UserCredentials) (msg : string)
    (h' : History) :
  gate env cm (story s) = (None, creds) ->
  executeStory b (story s) (base_url env) (runOptions env creds) (history w)
  = (Throw msg, h') ->
  exists w',
    runOne b env cm s c w =
    ({| c_passed := c_passed c; c_failed := S (c_failed c);
        c_skipped := c_skipped c |}, w') /\
    run w' = run w /\ runStates w' = runStates w /\
    results w' = results w ++ [plainRow s msg].
Proof.
  intros G E. unfold runOne. rewrite G, E.
  eexists. split; [reflexivity |]. repeat split.
Qed.

(** A story whose [executeStory] returns: the counters are written to the
    run record. *)
Lemma runOne_returned (b : Browser) (env : Environment)
    (cm : gmap string UserCredentials) (s : StoryRow) (c : Counters)
    (w : World) (creds : option UserCredentials) (r : ExecutionResult)
    (h' : History) :
  gate env cm (story s) = (None, creds) ->
  executeStory b (story s) (base_url env) (runOptions env creds) (history w)
  = (Ok r, h') ->
  exists c' w',
    runOne b env cm s c w = (c', w') /\
    run w' = setCounts c' (run w) /\
    runStates w' = runStates w ++ [setCounts c' (run w)] /\
    results w' = results w ++ [resultRow s r].
Proof.
  intros G E. unfold runOne. rewrite G, E.
  eexists. eexists. split; [reflexivity |]. repeat split.
Qed.

(** What every iteration does, whatever the story and the browser. *)
Lemma runOne_spec (b : Browser) (env : Environment)
    (cm : gmap string UserCredentials) (s : StoryRow) (c : Counters)
    (w : World) :
  let c' := fst (runOne b env cm s c w) in
  let w' := snd (runOne b env cm s c w) in
  (exists row, results w' = results w ++ [row] /\ tr_story_id row = storyId s) /\
  counted c' = S (counted c) /\
  (c_passed c <= c_passed c' /\ c_failed c <= c_failed c' /\
   c_skipped c <= c_skipped c') /\
  (run w' = run w /\ runStates w' = runStates w \/
   run w' = setCounts c' (run w) /\
   runStates w' = runStates w ++ [setCounts c' (run w)]) /\
  (storiesEntered (history w') = storiesEntered (history w) \/
   storiesEntered (history w') = storyId s :: storiesEntered (history w)) /\
  progress w' = progress w.
Proof.
  unfold runOne, counted, storyId.
  destruct (gate env cm (story s)) as [[reason|] creds].
  - simpl. repeat split; try lia; eauto.
  - pose proof (entered_executeStory b (story s) (base_url env)
                  (runOptions env creds) (history w)) as En.
    destruct (executeStory b (story s) (base_url env) (runOptions env creds)
                (history w)) as [[r|msg] h']; simpl in En |- *.
    + destruct (passed r); simpl; repeat split; try lia; eauto.
    + repeat split; try lia; eauto.
Qed.

Lemma persisted_le_step (r : TestRun) (c c' : Counters) :
  persisted_le r c ->
  c_passed c <= c_passed c' -> c_failed c <= c_failed c' ->
  c_skipped c <= c_skipped c' ->
  persisted_le r c' /\ persisted_le (setCounts c' r) c'.
Proof. unfold persisted_le. simpl. lia. Qed.

(** The loop over stories none of which finds the run cancelled. *)
Lemma storyLoop_uncancelled (b : Browser) (statusRead : nat -> option string)
    (env : Environment) (cm : gmap string UserCredentials) (total : nat) :
  forall (todo : list StoryRow) (i : nat) (c : Counters) (w : World),
    (forall j, j < length todo -> isCancelled (statusRead (i + j)) = false) ->
    exists c' w',
      storyLoop b statusRead env cm total todo i c w = (Some c', w') /\
      map tr_story_id (results w')
      = map tr_story_id (results w) ++ map storyId todo /\
      counted c' = counted c + length todo /\
      (persisted_le (run w) c -> persisted_le (run w') c') /\
      (forall sid, In sid (storiesEntered (history w')) ->
         In sid (storiesEntered (history w)) \/ In sid (map storyId todo)) /\
      status (run w') = status (run w) /\
      length (progress w') = length (progress w) + length todo.
Proof.
  induction todo as [|s rest IH]; intros i c w H.
  - exists c, w. simpl. rewrite app_nil_r.
    split; [reflexivity |]. split; [reflexivity |]. split; [lia |].
    split; [auto |]. split; [auto |]. split; [reflexivity | lia].
  - assert (H0 : isCancelled (statusRead i) = false).
    { rewrite <- (Nat.add_0_r i). apply H. simpl. lia. }
    simpl. rewrite H0.
    set (w2 := updateRun _ (onProgress _ w)).
    pose proof (runOne_spec b env cm s c w2) as R.
    destruct (runOne b env cm s c w2) as [c1 w3]. simpl in R.
    destruct R as ((row & R1 & R2) & R3 & (P1 & P2 & P3) & R4 & R5 & R6).
    destruct (IH (S i) c1 w3) as (c' & w' & E & I1 & I2 & I3 & I4 & I5 & I6).
    { intros j Hj. replace (S i + j) with (i + S j) by lia.
      apply H. simpl. lia. }
    exists c', w'. split; [exact E |].
    split; [| split; [| split; [| split; [| split]]]].
    + rewrite I1, R1, map_app. simpl. rewrite R2, <- app_assoc. reflexivity.
    + rewrite I2, R3. simpl. lia.
    + intros L. apply I3.
      assert (L2 : persisted_le (run w2) c) by exact L.
      destruct (persisted_le_step _ _ c1 L2 P1 P2 P3) as [K1 K2].
      destruct R4 as [[-> _] | [-> _]]; assumption.
    + intros sid Hs. destruct (I4 sid Hs) as [Hin | Hin].
      * destruct R5 as [R5 | R5]; rewrite R5 in Hin.
        -- now left.
        -- destruct Hin as [<- | Hin]; [right; now left | now left].
      * right. now right.
    + rewrite I5. destruct R4 as [[-> _] | [-> _]]; reflexivity.
    + rewrite I6, R6. subst w2. simpl. rewrite length_app. simpl. lia.
Qed.


Lemma executeTestRun_loop (b : Browser) (statusRead : nat -> option string)
    (env : Environment) (cm : gmap string UserCredentials)
    (stories : list StoryRow) (w : World) :
  stories <> [] ->
  executeTestRun b statusRead env cm stories w =
  match storyLoop b statusRead env cm (length stories) stories 0
          {| c_passed := 0; c_failed := 0; c_skipped := 0 |}
          (updateRun (setRunning (length stories)) w) with
  | (None, w2) => w2
  | (Some c, w2) =>
      onProgress {| p_total := length stories; p_completed := length stories;
                    p_passed := c_passed c; p_failed := c_failed c;
                    p_skipped := c_skipped c; p_current := None |}
                 (updateRun (setCompleted c) w2)
  end.
Proof. destruct stories; [contradiction | reflexivity]. Qed.

(** For a role that no object inherits, the claim C3 makes holds: the story
    is recorded as skipped with a reason that names the role, the skipped
    counter is incremented and written, the failed counter is not, and
    [executeStory] is not called. *)
Lemma gating_skips_story (b : Browser) (env : Environment)
    (cm : gmap string UserCredentials) (s : StoryRow) (c : Counters)
    (w : World) (role : string) :
  required_role (story s) = Some role -> role <> "" ->
  auth_config env = None \/
  (exists cfg, auth_config env = Some cfg /\ auth_type cfg <> auth_form) \/
  (cm !! role = None /\ ~ In role objectPrototypeNames) ->
  exists reason,
    JS.includes reason role = true /\
    let c' := fst (runOne b env cm s c w) in
    let w' := snd (runOne b env cm s c w) in
    c_skipped c' = S (c_skipped c) /\ c_failed c' = c_failed c /\
    c_passed c' = c_passed c /\
    history w' = history w /\
    results w' = results w ++ [plainRow s reason] /\
    lastResults w' = lastResults w ++ [(storyId s, "skipped")] /\
    stories_skipped (run w') = S (c_skipped c) /\
    stories_failed (run w') = c_failed c.
Proof.
  intros R N H.
  destruct (gate_skips env cm (story s) role R N) as (reason & G & I).
  { destruct H as [H | [H | [L P]]]; [now left | right; now left |].
    right. right. now apply lookupRole_none. }
  exists reason. split; [exact I |].
  rewrite (runOne_skip b env cm s c w reason None G). simpl.
  repeat split.
Qed.

(** C3 at the role [constructor]: no test user has that role, the
    environment has form login, and yet the story is not skipped:
    [credentialsMap["constructor"]] is the inherited [Object], which is
    truthy, so [executeStory] is entered with it as credentials and the story
    is counted as failed. *)
Theorem gating_inherited_role :
  let s := Examples.storyRow "s1" (Some "constructor") in
  let c' := fst (runOne Examples.strict Examples.formEnv ∅ s
                   Examples.noCounts Examples.fresh) in
  let w' := snd (runOne Examples.strict Examples.formEnv ∅ s
                   Examples.noCounts Examples.fresh) in
  (∅ : gmap string UserCredentials) !! "constructor" = None /\
  gate Examples.formEnv ∅ (story s)
  = (None, Some {| username := None; password := None |}) /\
  c_skipped c' = 0 /\ c_failed c' = 1 /\
  storiesEntered (history w') = ["s1"] /\
  lastResults w' = [("s1", "failed")].
Proof. repeat split. Qed.

(** ** Persisted counters *)

Lemma nondecreasing_snoc (rs : list TestRun) (r r' : TestRun) :
  nondecreasing (rs ++ [r]) -> counts_le r r' ->
  nondecreasing ((rs ++ [r]) ++ [r']).
Proof.
  induction rs as [|a rs IH]; intros N L.
  - simpl. auto.
  - destruct rs as [|a' rs].
    + simpl in *. destruct N as [N _]. auto.
    + change (nondecreasing (a :: (a' :: rs ++ [r]) ++ [r'])).
      change (nondecreasing (a :: a' :: rs ++ [r])) in N.
      destruct N as [N1 N2]. split; [exact N1 |]. now apply IH.
Qed.

Lemma observable_updateRun (f : TestRun -> TestRun) (w : World)
    (c c' : Counters) :
  observable w c -> counts_le (run w) (f (run w)) ->
  persisted_le (f (run w)) c' -> observable (updateRun f w) c'.
Proof.
  intros ((rs & E) & N & P) L P'. unfold observable, updateRun. simpl.
  split; [eexists; reflexivity |]. split; [| exact P'].
  rewrite E in *. now apply nondecreasing_snoc.
Qed.

Lemma observable_runOne (b : Browser) (env : Environment)
    (cm : gmap string UserCredentials) (s : StoryRow) (c : Counters)
    (w : World) :
  observable w c ->
  observable (snd (runOne b env cm s c w)) (fst (runOne b env cm s c w)).
Proof.
  intros O. pose proof O as ((rs & E) & N & P).
  unfold persisted_le in P. unfold runOne.
  destruct (gate env cm (story s)) as [[reason|] creds].
  - simpl. apply (observable_updateRun _
      (updateStory _ _ (insertResult _ w)) c); try exact O;
      unfold counts_le, persisted_le; simpl; lia.
  - destruct (executeStory b (story s) (base_url env) (runOptions env creds)
                (history w)) as [[r|msg] h'].
    + simpl. apply (observable_updateRun _
        (updateStory _ _ (insertResult _ (setHistory h' w))) c); try exact O;
        unfold counts_le, persisted_le; destruct (passed r); simpl; lia.
    + simpl. unfold observable, persisted_le. simpl.
      split; [eauto |]. split; [exact N | lia].
Qed.

Lemma observable_storyLoop (b : Browser) (statusRead : nat -> option string)
    (env : Environment) (cm : gmap string UserCredentials) (total : nat) :
  forall (todo : list StoryRow) (i : nat) (c : Counters) (w : World),
    observable w c ->
    let r := storyLoop b statusRead env cm total todo i c w in
    match fst r with
    | Some c' => observable (snd r) c'
    | None => nondecreasing (runStates (snd r))
    end.
Proof.
  induction todo as [|s rest IH]; intros i c w O; simpl; [exact O |].
  destruct (isCancelled (statusRead i)).
  - simpl. eapply observable_updateRun with (c' := c) in O.
    + destruct O as (_ & N & _). exact N.
    + unfold counts_le. simpl. lia.
    + destruct O as (_ & _ & P). exact P.
  - set (w2 := updateRun _ (onProgress _ w)).
    assert (O2 : observable w2 c).
    { apply (observable_updateRun _ (onProgress _ w) c); try exact O.
      - unfold counts_le. simpl. lia.
      - destruct O as (_ & _ & P). exact P. }
    pose proof (observable_runOne b env cm s c w2 O2) as O3.
    destruct (runOne b env cm s c w2) as [c1 w3]. now apply IH.
Qed.

(** An observer of the run record never sees a counter decrease. *)
Lemma runStates_nondecreasing (b : Browser) (statusRead : nat -> option string)
    (env : Environment) (cm : gmap string UserCredentials)
    (stories : list StoryRow) (w : World) :
  observable w {| c_passed := 0; c_failed := 0; c_skipped := 0 |} ->
  nondecreasing (runStates (executeTestRun b statusRead env cm stories w)).
Proof.
  intros O. destruct stories as [|s rest].
  - eapply observable_updateRun with (c' := Build_Counters 0 0 0) in O.
    + destruct O as (_ & N & _). exact N.
    + destruct O as (_ & _ & P). unfold counts_le, persisted_le in *.
      simpl in *. lia.
    + unfold persisted_le. simpl. lia.
  - rewrite executeTestRun_loop by discriminate.
    set (total := length (s :: rest)).
    assert (O1 : observable (updateRun (setRunning total) w)
                   {| c_passed := 0; c_failed := 0; c_skipped := 0 |}).
    { apply (observable_updateRun _ w (Build_Counters 0 0 0)); try exact O.
      - unfold counts_le. simpl. lia.
      - destruct O as (_ & _ & P). exact P. }
    pose proof (observable_storyLoop b statusRead env cm total (s :: rest) 0
                  _ _ O1) as L.
    destruct (storyLoop b statusRead env cm total (s :: rest) 0 _ _)
      as [[c|] w2]; simpl in L; [| exact L].
    eapply observable_updateRun with (f := setCompleted c) (c' := c) in L.
    + destruct L as (_ & N & _). exact N.
    + destruct L as (_ & _ & P). unfold counts_le, persisted_le in *.
      simpl. lia.
    + unfold persisted_le. simpl. lia.
Qed.

(** C5 on a run of two stories, the first of which makes [executeStory]
    throw (the browser cannot be launched): the failure is recorded in
    [test_results], but when the second story begins the run record still
    shows no failed story; the count is written only after the second
    story. *)
Theorem thrown_story_not_persisted :
  let w' := executeTestRun Examples.crashing Examples.undisturbed
              Examples.openEnv ∅
              [Examples.storyRow "s1" None; Examples.storyRow "s2" None]
              Examples.fresh in
  map (fun r => (tr_story_id r, tr_passed r)) (results w')
  = [("s1", false); ("s2", true)] /\
  map observed (runStates w')
  = [ (None, 0, 0, 0); (None, 0, 0, 0); (Some "s1", 0, 0, 0);
      (Some "s2", 0, 0, 0); (Some "s2", 1, 1, 0); (None, 1, 1, 0) ].
Proof. split; reflexivity. Qed.

(** * Further properties of the engine *)

(** ** What each stretch of code adds to the history *)

Lemma emits_weaken {A} (P Q : Event -> bool) (m : History -> A * History) :
  (forall e, P e = true -> Q e = true) -> emits P m -> emits Q m.
Proof.
  intros PQ E h. destruct (E h) as (d & H & F). exists d. split; [exact H |].
  rewrite forallb_forall in *. auto.
Qed.

Lemma emits_ret {A} (P : Event -> bool) (a : A) : emits P (ret a).
Proof. intros h. exists []. split; reflexivity. Qed.

Lemma emits_perform (b : Browser) (P : Event -> bool) (e : Event) :
  P e = true -> emits P (perform b e).
Proof.
  intros H h. exists [e]. unfold perform.
  destruct (rejects b h e); simpl; rewrite H; split; reflexivity.
Qed.

Lemma emits_waitForTimeout (P : Event -> bool) (ms : option Z) :
  P (WaitForTimeout ms) = true -> emits P (waitForTimeout ms).
Proof. intros H h. exists [WaitForTimeout ms]. simpl. now rewrite H. Qed.

Lemma emits_then {A B} (P : Event -> bool) (m : History -> A * History)
    (k : A -> History -> B * History) :
  emits P m -> (forall a, emits P (k a)) ->
  emits P (fun h => let '(a, h1) := m h in k a h1).
Proof.
  intros Em Ek h. destruct (Em h) as (d1 & H1 & F1).
  destruct (m h) as [a h1]. simpl in H1. subst h1.
  destruct (Ek a (d1 ++ h)) as (d2 & H2 & F2).
  exists (d2 ++ d1). rewrite H2, app_assoc, forallb_app, F1, F2.
  split; reflexivity.
Qed.

Lemma emits_bind {A B} (P : Event -> bool) (m : M A) (k : A -> M B) :
  emits P m -> (forall a, emits P (k a)) -> emits P (bind m k).
Proof.
  intros Em Ek h. unfold bind. destruct (Em h) as (d1 & H1 & F1).
  destruct (m h) as [[a | msg] h1]; simpl in H1; subst h1.
  - destruct (Ek a (d1 ++ h)) as (d2 & H2 & F2).
    exists (d2 ++ d1). rewrite H2, app_assoc, forallb_app, F1, F2.
    split; reflexivity.
  - exists d1. split; [reflexivity | exact F1].
Qed.

(** ** The cascade of [findElement] *)

Lemma probe_history (b : Browser) (l : Locator) (h : History) :
  snd (probe b l h) = probeEvent l :: h.
Proof. unfold probe. destruct (rejects b h _); reflexivity. Qed.

Lemma probed_cons (x : Locator) (ls : list Locator) (h : History) :
  probed (x :: ls) h = probed ls (probeEvent x :: h).
Proof. unfold probed. simpl. now rewrite <- app_assoc. Qed.

Lemma probed_snoc (ls : list Locator) (x : Locator) (h : History) :
  probed (ls ++ [x]) h = probeEvent x :: probed ls h.
Proof. unfold probed. now rewrite map_app, rev_app_distr. Qed.

Lemma unseen_cons (b : Browser) (x : Locator) (ls : list Locator) (h : History) :
  unseen b (x :: ls) h <->
  sees b x h = false /\ unseen b ls (probeEvent x :: h).
Proof.
  unfold unseen. split.
  - intros U. split; [exact (U 0 x eq_refl) |].
    intros k l Hk. rewrite <- probed_cons. exact (U (S k) l Hk).
  - intros [S0 U] [|k] l Hk; simpl in Hk.
    + injection Hk as <-. exact S0.
    + simpl firstn. rewrite probed_cons. now apply U.
Qed.

(** The first strategy that is seen wins; the strategies before it have been
    probed once each, the ones after it are not probed. *)
Lemma tryStrategies_found (b : Browser) (target : string) (l : Locator)
    (post : list Locator) :
  forall (pre : list Locator) (h : History),
    unseen b pre h -> sees b l (probed pre h) = true ->
    tryStrategies b (pre ++ l :: post) target h
    = (First l, probed (pre ++ [l]) h).
Proof.
  induction pre as [|x pre IH]; intros h U S; simpl.
  - unfold sees, probed in S. simpl in S.
    pose proof (probe_history b l h) as P.
    destruct (probe b l h) as [v h1]. simpl in S, P. subst v h1. reflexivity.
  - apply unseen_cons in U. destruct U as [S0 U].
    unfold sees in S0. pose proof (probe_history b x h) as P.
    destruct (probe b x h) as [v h1]. simpl in S0, P. subst v h1.
    rewrite probed_cons in S. rewrite (IH _ U S).
    now rewrite <- probed_cons.
Qed.

Lemma tryStrategies_fallback (b : Browser) (target : string) :
  forall (ls : list Locator) (h : History),
    unseen b ls h ->
    tryStrategies b ls target h = (Css target, probed ls h).
Proof.
  induction ls as [|x ls IH]; intros h U; simpl; [reflexivity |].
  apply unseen_cons in U. destruct U as [S0 U].
  unfold sees in S0. pose proof (probe_history b x h) as P.
  destruct (probe b x h) as [v h1]. simpl in S0, P. subst v h1.
  rewrite (IH _ U). now rewrite probed_cons.
Qed.

(** Every run of the loop is one of the two. *)
Lemma tryStrategies_cases (b : Browser) (target : string) :
  forall (ls : list Locator) (h : History),
    (exists pre l post,
       ls = pre ++ l :: post /\ unseen b pre h /\
       sees b l (probed pre h) = true) \/
    unseen b ls h.
Proof.
  induction ls as [|x ls IH]; intros h.
  - right. intros [|k] l Hk; discriminate.
  - destruct (sees b x h) eqn:S.
    + left. exists [], x, ls. split; [reflexivity |].
      split; [| exact S]. intros [|k] l Hk; discriminate.
    + destruct (IH (probeEvent x :: h)) as [(pre & l & post & E & U & Sl) | U].
      * left. exists (x :: pre), l, post. split; [now rewrite E |].
        split; [now apply unseen_cons | now rewrite probed_cons].
      * right. now apply unseen_cons.
Qed.

Lemma strategies_length (target : string) :
  6 <= length (strategies target) <= 17.
Proof.
  unfold strategies.
  repeat match goal with
         | |- context [if ?c then _ else _] => destruct c
         end; simpl; lia.
Qed.

(** X1: for a target that does not look like a selector, [findElement]
    returns the first strategy of the cascade that is seen, after one probe
    of each strategy before it and of itself. *)
Theorem findElement_first_visible (b : Browser) (target : string)
    (pre : list Locator) (l : Locator) (post : list Locator) (h : History) :
  looksLikeCss target = false ->
  strategies target = pre ++ l :: post ->
  unseen b pre h -> sees b l (probed pre h) = true ->
  findElement b target h = (First l, probed (pre ++ [l]) h).
Proof.
  intros C S U V. unfold findElement. rewrite C, S.
  now apply tryStrategies_found.
Qed.

Lemma findElement_first_visible_witness :
  findElement Pages.buttonsOnly "Submit" []
  = (First (GetByRole "button" "Submit"),
     probed [ attr "button" "type" "submit"; attr "input" "type" "submit";
              GetByLabel "Submit"; GetByPlaceholder "Submit";
              GetByRole "textbox" "Submit"; GetByRole "button" "Submit" ] []).
Proof.
  apply (findElement_first_visible Pages.buttonsOnly "Submit"
           [ attr "button" "type" "submit"; attr "input" "type" "submit";
             GetByLabel "Submit"; GetByPlaceholder "Submit";
             GetByRole "textbox" "Submit" ]
           (GetByRole "button" "Submit")
           [ GetByRole "link" "Submit"; GetByText "Submit" ]).
  - reflexivity.
  - reflexivity.
  - intros k l Hk.
    do 5 (destruct k as [|k]; [injection Hk as <-; reflexivity |]).
    destruct k; discriminate.
  - reflexivity.
Defined.

(** X2: when no strategy is seen, [findElement] falls back to the target
    as a literal selector, after one probe of every strategy. *)
Theorem findElement_fallback (b : Browser) (target : string) (h : History) :
  looksLikeCss target = false ->
  unseen b (strategies target) h ->
  findElement b target h = (Css target, probed (strategies target) h).
Proof.
  intros C U. unfold findElement. rewrite C.
  now apply tryStrategies_fallback.
Qed.

Lemma findElement_fallback_witness :
  findElement Pages.blank "Total price" []
  = (Css "Total price", probed (strategies "Total price") []).
Proof.
  apply findElement_fallback.
  - reflexivity.
  - intros k l Hk.
    do 6 (destruct k as [|k]; [injection Hk as <-; reflexivity |]).
    destruct k; discriminate.
Defined.

(** What [findElement] adds to the history and what it returns. *)
Lemma findElement_probes (b : Browser) (target : string) (h : History) :
  exists k,
    k <= length (strategies target) /\
    snd (findElement b target h) = probed (firstn k (strategies target)) h /\
    (fst (findElement b target h) = Css target \/
     exists l, In l (strategies target) /\
               fst (findElement b target h) = First l).
Proof.
  unfold findElement. destruct (looksLikeCss target).
  - exists 0. simpl. repeat split; try lia; auto.
  - destruct (tryStrategies_cases b target (strategies target) h)
      as [(pre & l & post & E & U & S) | U].
    + exists (length (pre ++ [l])).
      rewrite E, (tryStrategies_found b target l post pre h U S). simpl.
      split; [rewrite !length_app; simpl; lia |]. split.
      * replace (pre ++ l :: post) with ((pre ++ [l]) ++ post)
          by (now rewrite <- app_assoc).
        now rewrite firstn_app, Nat.sub_diag, firstn_all, app_nil_r.
      * right. exists l. split; [| reflexivity].
        apply in_or_app. right. now left.
    + exists (length (strategies target)).
      rewrite (tryStrategies_fallback b target _ h U). simpl.
      rewrite firstn_all. repeat split; auto.
Qed.

(** X3: [findElement] only probes: it adds to the history the probes of an
    initial stretch of the cascade, at most 17 of them, and returns either
    the target as a literal selector or the first match of a strategy of the
    cascade. *)
Theorem findElement_bounded (b : Browser) (target : string) (h : History) :
  exists k,
    k <= length (strategies target) /\ length (strategies target) <= 17 /\
    snd (findElement b target h) = probed (firstn k (strategies target)) h /\
    (fst (findElement b target h) = Css target \/
     exists l, In l (strategies target) /\
               fst (findElement b target h) = First l).
Proof.
  destruct (findElement_probes b target h) as (k & K & E & R).
  pose proof (strategies_length target) as [_ L17].
  exists k. split; [exact K |]. split; [exact L17 |].
  split; [exact E | exact R].
Qed.

(** ** Substrings *)

Lemma prefix_split (p s : string) :
  String.prefix p s = true -> exists c, s = p +:+ c.
Proof.
  revert s. induction p as [|x p IH]; intros s H.
  - now exists s.
  - destruct s as [|y s]; [discriminate |]. simpl in H.
    destruct (Ascii.ascii_dec x y) as [<- | ne]; [| discriminate].
    destruct (IH s H) as [c ->]. now exists c.
Qed.

Lemma includes_split (s t : string) :
  JS.includes s t = true -> exists a c, s = a +:+ t +:+ c.
Proof.
  induction s as [|x s IH]; intros H; rewrite includes_unfold in H;
    apply orb_true_iff in H; destruct H as [H | H]; try discriminate.
  - destruct (prefix_split _ _ H) as [c E]. now exists "", c.
  - destruct (prefix_split _ _ H) as [c E]. now exists "", c.
  - destruct (IH H) as (a & c & ->). now exists (String x a), c.
Qed.

Lemma append_assoc (a b c : string) : (a +:+ b) +:+ c = a +:+ b +:+ c.
Proof.
  induction a as [|x a IH]; [reflexivity |].
  change (String x ((a +:+ b) +:+ c) = String x (a +:+ b +:+ c)).
  now rewrite IH.
Qed.

(** A string that contains [p ++ q] contains [q]. *)
Lemma includes_suffix (s p q : string) :
  JS.includes s (p +:+ q) = true -> JS.includes s q = true.
Proof.
  intros H. destruct (includes_split _ _ H) as (a & c & ->).
  rewrite append_assoc.
  apply includes_app_l, includes_app_l, includes_self_app.
Qed.

Lemma uncheck_contains_check (a : string) :
  JS.includes a "uncheck" = true -> JS.includes a "check" = true.
Proof. apply (includes_suffix a "un" "check"). Qed.

(** ** The events of one step *)

Lemma forallb_probed (ls : list Locator) :
  forallb isProbe (rev (map probeEvent ls)) = true.
Proof.
  induction ls as [|l ls IH]; [reflexivity |].
  simpl. now rewrite forallb_app, IH.
Qed.

Lemma emits_findElement (b : Browser) (target : string) :
  emits isProbe (findElement b target).
Proof.
  intros h. destruct (findElement_probes b target h) as (k & _ & E & _).
  eexists. split; [exact E | apply forallb_probed].
Qed.

Lemma emits_onElement (b : Browser) (target : string) (act : Locator -> Event) :
  (forall l, isAct (act l) = true) ->
  emits isStepCall (onElement b target act).
Proof.
  intros H.
  apply (emits_then isStepCall (findElement b target)
           (fun l => perform b (act l))).
  - apply (emits_weaken isProbe); [| apply emits_findElement].
    intros e He. unfold isStepCall. now rewrite He.
  - intros l. apply emits_perform. unfold isStepCall.
    rewrite (H l). apply orb_true_r.
Qed.

Lemma emits_withTarget (b : Browser) (target : option string)
    (act : Locator -> Event) :
  (forall l, isAct (act l) = true) ->
  emits isStepCall (withTarget b target act).
Proof.
  intros H. unfold withTarget.
  destruct target as [[|c t]|]; try apply emits_ret.
  now apply emits_onElement.
Qed.

Ltac emits_leaf :=
  first [ apply emits_ret
        | apply emits_perform; reflexivity
        | apply emits_waitForTimeout; reflexivity
        | apply emits_withTarget; intros; reflexivity
        | apply emits_onElement; intros; reflexivity ].

Ltac emits_branches :=
  repeat (cbv beta iota;
          match goal with
          | |- emits _ (if ?c then _ else _) => destruct c
          | |- emits _ (match ?t with Some _ => _ | None => _ end) =>
              destruct t as [[|? ?]|]
          end).

(** Whatever the step, [dispatch] makes probes and page calls only, and
    [uncheck()] is not among them. *)
Lemma emits_dispatch (b : Browser) (step : StoryStep) :
  emits isStepCall (dispatch b step).
Proof.
  unfold dispatch.
  destruct (JS.includes (JS.toLowerCase (action step)) "uncheck") eqn:U.
  - rewrite (uncheck_contains_check _ U). emits_branches; emits_leaf.
  - emits_branches; emits_leaf.
Qed.

Lemma emits_executeStep (b : Browser) (step : StoryStep) (i : nat) :
  emits isWork (executeStep b step i).
Proof.
  intros h. unfold executeStep.
  assert (E : emits isStepCall
                (bind (dispatch b step) (fun _ => waitForTimeout (Some 100%Z)))).
  { apply emits_bind; [apply emits_dispatch |].
    intros _. now apply emits_waitForTimeout. }
  destruct (E (EnterStep i :: h)) as (d & H & F).
  destruct (bind (dispatch b step) (fun _ => waitForTimeout (Some 100%Z))
                 (EnterStep i :: h)) as [outcome h1].
  simpl in H. subst h1. simpl.
  eexists (StepDone _ :: d ++ [EnterStep i]). split.
  - simpl. now rewrite <- app_assoc.
  - simpl. rewrite forallb_app. simpl. rewrite andb_true_r.
    rewrite forallb_forall in *. intros e He. unfold isWork.
    now rewrite (F e He).
Qed.

(** X4: no step ever unchecks a box: every event a run of [executeStep]
    adds is a probe, a marker, or a page call other than [uncheck()].  A
    label that contains [uncheck] contains [check], which the chain tests
    first: when no keyword before [check] matches, the target is checked. *)
Theorem executeStep_never_unchecks (b : Browser) (step : StoryStep)
    (i : nat) (h : History) :
  (exists d, snd (executeStep b step i h) = d ++ h /\
             forall l, ~ In (Uncheck l) d) /\
  (JS.includes (JS.toLowerCase (action step)) "uncheck" = true ->
   (forall k, In k keywordsBeforeCheck ->
      JS.includes (JS.toLowerCase (action step)) k = false) ->
   dispatch b step h
   = withTarget b (JS.or (selector step) (element step)) Check h).
Proof.
  split.
  - destruct (emits_executeStep b step i h) as (d & H & F).
    exists d. split; [exact H |]. intros l Hin.
    rewrite forallb_forall in F. specialize (F _ Hin). discriminate.
  - intros U K. unfold dispatch.
    rewrite (K "navigate"), (K "go to"), (K "click"), (K "tap"), (K "type"),
      (K "enter"), (K "fill"), (K "select"), (K "choose") by in_list.
    rewrite (uncheck_contains_check _ U). reflexivity.
Qed.

Lemma executeStep_never_unchecks_witness :
  dispatch Examples.calm (Examples.step "Uncheck the box" (Some "#box") None) []
  = withTarget Examples.calm (Some "#box") Check [].
Proof.
  destruct (executeStep_never_unchecks Examples.calm
              (Examples.step "Uncheck the box" (Some "#box") None) 0 [])
    as [_ H].
  apply H.
  - reflexivity.
  - intros k Hk. simpl in Hk.
    repeat (destruct Hk as [<- | Hk]; [reflexivity |]). destruct Hk.
Defined.

(** ** How a step fails *)

Lemma throwsLast_ret (b : Browser) {A} (a : A) : throwsLast b (ret a).
Proof. intros h msg h' H. discriminate. Qed.

Lemma throwsLast_perform (b : Browser) (e : Event) : throwsLast b (perform b e).
Proof.
  intros h msg h' H. unfold perform in H.
  destruct (rejects b h e) as [m|] eqn:R; [| discriminate].
  injection H as <- <-. now exists e, h.
Qed.

Lemma throwsLast_waitForTimeout (b : Browser) (ms : option Z) :
  throwsLast b (waitForTimeout ms).
Proof. intros h msg h' H. discriminate. Qed.

Lemma throwsLast_bind (b : Browser) {A B} (m : M A) (k : A -> M B) :
  throwsLast b m -> (forall a, throwsLast b (k a)) -> throwsLast b (bind m k).
Proof.
  intros Tm Tk h msg h' H. unfold bind in H.
  destruct (m h) as [[a | m1] h1] eqn:E.
  - exact (Tk a h1 msg h' H).
  - injection H as <- <-. exact (Tm h m1 h1 E).
Qed.

Lemma throwsLast_onElement (b : Browser) (target : string)
    (act : Locator -> Event) :
  throwsLast b (onElement b target act).
Proof.
  intros h msg h' H. unfold onElement in H.
  destruct (findElement b target h) as [l h1].
  exact (throwsLast_perform b (act l) h1 msg h' H).
Qed.

Lemma throwsLast_withTarget (b : Browser) (target : option string)
    (act : Locator -> Event) :
  throwsLast b (withTarget b target act).
Proof.
  unfold withTarget. destruct target as [[|c t]|];
    first [apply throwsLast_ret | apply throwsLast_onElement].
Qed.

Lemma throwsLast_dispatch (b : Browser) (step : StoryStep) :
  throwsLast b (dispatch b step).
Proof.
  unfold dispatch.
  repeat match goal with
         | |- throwsLast _ (if ?c then _ else _) => destruct c
         | |- throwsLast _ (match ?t with Some _ => _ | None => _ end) =>
             destruct t as [[|? ?]|]
         end;
    first [ apply throwsLast_ret | apply throwsLast_perform
          | apply throwsLast_waitForTimeout | apply throwsLast_withTarget
          | apply throwsLast_onElement ].
Qed.

(** The error of the result of [executeStep] and the last events of the
    attempt. *)
Lemma executeStep_result (b : Browser) (step : StoryStep) (i : nat)
    (h : History) :
  let r := fst (executeStep b step i h) in
  let h' := snd (executeStep b step i h) in
  if sr_passed r
  then sr_error r = None /\
       exists hd, h' = StepDone r :: WaitForTimeout (Some 100%Z) :: hd
  else exists e hd msg,
         h' = StepDone r :: e :: hd /\ rejects b hd e = Some msg /\
         sr_error r = Some msg.
Proof.
  unfold executeStep.
  pose proof (throwsLast_bind b (dispatch b step)
                (fun _ => waitForTimeout (Some 100%Z))
                (throwsLast_dispatch b step)
                (fun _ => throwsLast_waitForTimeout b _)
                (EnterStep i :: h)) as T.
  destruct (bind (dispatch b step) (fun _ => waitForTimeout (Some 100%Z))
                 (EnterStep i :: h)) as [[[] | msg] h1] eqn:E; simpl.
  - repeat split. unfold bind, waitForTimeout in E.
    destruct (dispatch b step (EnterStep i :: h)) as [[[] | m] h0];
      [| discriminate].
    injection E as <-. now exists h0.
  - destruct (T msg h1 eq_refl) as (e & hd & -> & R).
    now exists e, hd, msg.
Qed.

(** X5: the result of [executeStep] carries the index and the label of the
    step.  When it passed it has no error and the attempt ended with the
    settle pause of 100 ms; when it failed, its error is the message of the
    page call that rejected, that call is the last one of the attempt, and
    no settle pause follows it. *)
Theorem executeStep_outcome (b : Browser) (step : StoryStep) (i : nat)
    (h : History) :
  let r := fst (executeStep b step i h) in
  let h' := snd (executeStep b step i h) in
  sr_step r = i /\ sr_action r = action step /\
  if sr_passed r
  then sr_error r = None /\
       exists hd, h' = StepDone r :: WaitForTimeout (Some 100%Z) :: hd
  else exists e hd msg,
         h' = StepDone r :: e :: hd /\ rejects b hd e = Some msg /\
         sr_error r = Some msg.
Proof.
  intros r h'. subst r h'.
  split; [| split; [| exact (executeStep_result b step i h)]];
    unfold executeStep;
    destruct (bind (dispatch b step) (fun _ => waitForTimeout (Some 100%Z))
                   (EnterStep i :: h)) as [[[] | msg] h1]; reflexivity.
Qed.

(** ** Which field names the target *)

(** X6: when a step has a selector, its element is not used, whatever it
    is, unless the label asks for a navigation (where the element stands in
    for a missing URL). *)
Theorem selector_precedes_element (b : Browser) (step : StoryStep)
    (el : option string) (h : History) :
  JS.truthy (selector step) = true ->
  JS.includes (JS.toLowerCase (action step)) "navigate" = false ->
  JS.includes (JS.toLowerCase (action step)) "go to" = false ->
  dispatch b (withElement step el) h = dispatch b step h.
Proof.
  intros S N G. unfold dispatch, withElement. simpl.
  rewrite N, G. unfold JS.or. rewrite S. reflexivity.
Qed.

Lemma selector_precedes_element_witness :
  dispatch Examples.calm
    (withElement (Examples.step "Click" (Some "#go") None) (Some "the button"))
    []
  = dispatch Examples.calm (Examples.step "Click" (Some "#go") None) [].
Proof.
  apply selector_precedes_element; reflexivity.
Defined.

(** ** The step loop stops at the first failed step *)

Lemma executeStep_error (b : Browser) (step : StoryStep) (i : nat) (h : History) :
  let r := fst (executeStep b step i h) in
  if sr_passed r then sr_error r = None else exists msg, sr_error r = Some msg.
Proof.
  pose proof (executeStep_result b step i h) as H. simpl in *.
  destruct (sr_passed (fst (executeStep b step i h))).
  - tauto.
  - destruct H as (e & hd & msg & _ & _ & E). now exists msg.
Qed.

(** The result the retry loop returns is the one of its last attempt. *)
Lemma attemptStep_result (b : Browser) (step : StoryStep) (i : nat) :
  forall (n : nat) (lastError : option string) (retries : nat) (h : History)
         (r : StepResult) (lastError' : option string) (retries' : nat)
         (h' : History),
    attemptStep b n step i lastError retries h = ((r, lastError', retries'), h') ->
    (exists hx, executeStep b step i hx = (r, h')) /\
    (sr_passed r = false -> lastError' = sr_error r /\
                            exists msg, sr_error r = Some msg).
Proof.
  induction n as [|n IH]; intros lastError retries h r lastError' retries' h' E;
    simpl in E;
    pose proof (executeStep_error b step i h) as Er;
    destruct (executeStep b step i h) as [r1 h1] eqn:X; simpl in Er;
    destruct (sr_passed r1) eqn:P1.
  - injection E as <- <- <- <-. split; [now exists h | congruence].
  - injection E as <- <- <- <-. split; [now exists h | auto].
  - injection E as <- <- <- <-. split; [now exists h | congruence].
  - now apply IH in E.
Qed.

Lemma runSteps_results (b : Browser) (opts : ExecutionOptions) (sid : string) :
  forall (todo : list StoryStep) (i : nat) (l : Locals) (h : History)
         (t : option string) (l' : Locals) (h' : History),
    runSteps b opts sid todo i l h = (t, l', h') ->
    l_passed l = true ->
    exists rs,
      l_stepResults l' = l_stepResults l ++ rs /\
      (forall j, i + length rs <= j -> attemptsOf j h' = attemptsOf j h) /\
      if l_passed l'
      then t = None /\ Forall stepPassed rs /\ length rs = length todo /\
           l_error l' = l_error l /\ l_screenshotUrl l' = l_screenshotUrl l
      else exists rs0 r msg,
             rs = rs0 ++ [r] /\ Forall stepPassed rs0 /\
             sr_passed r = false /\ l_error l' = Some msg.
Proof.
  induction todo as [|step rest IH]; intros i l h t l' h' E P; simpl in E.
  - injection E as <- <- <-. exists []. rewrite app_nil_r, P.
    repeat split; auto.
  - destruct (attemptStep b (retryCount opts) step i None (l_retries l) h)
      as [[[r lastError] retries'] h1] eqn:X.
    destruct (attemptStep_measures b step i _ _ _ _ _ _ _ _ X)
      as (_ & _ & _ & Aj & _).
    destruct (attemptStep_result b step i _ _ _ _ _ _ _ _ X) as (_ & Le).
    destruct (sr_passed r) eqn:Pr.
    + apply IH in E; [| exact P].
      destruct E as (rs & R & A & C). exists (r :: rs). simpl in R.
      split; [now rewrite R, <- app_assoc |]. split.
      * intros j Hj. simpl in Hj. rewrite A by lia. apply Aj. lia.
      * destruct (l_passed l').
        -- destruct C as (-> & F & Ln & Er & Sc). simpl.
           repeat split; auto; try (constructor; assumption).
        -- destruct C as (rs0 & r' & msg & -> & F & Pr' & Er).
           exists (r :: rs0), r', msg.
           repeat split; auto; try (constructor; assumption).
    + destruct (Le eq_refl) as (-> & msg & Em).
      assert (Q : markers h' = markers h1 /\
                  l_stepResults l' = l_stepResults l ++ [r] /\
                  l_passed l' = false /\ l_error l' = Some msg).
      { destruct (screenshotOnFailure opts).
        - pose proof (quiet_captureScreenshot b sid h1) as Q.
          destruct (captureScreenshot b sid h1) as [[u|m] h2];
            injection E as <- <- <-; simpl; auto.
        - injection E as <- <- <-; simpl; auto. }
      destruct Q as (M & R & Pl & Er).
      destruct (same_markers h1 h' M) as (QA & _).
      exists [r]. split; [exact R |]. split.
      * intros j Hj. simpl in Hj. rewrite QA. apply Aj. lia.
      * rewrite Pl. exists [], r, msg. repeat split; auto.
Qed.

Lemma verifyAll_locals (b : Browser) (vs : list Verification) :
  forall (l : Locals) (h : History),
    fst (verifyAll b vs l h) = l \/
    exists msg, fst (verifyAll b vs l h) = setFailed l (Some msg).
Proof.
  induction vs as [|v vs IH]; intros l h; simpl; [now left |].
  destruct (verify b v h) as [[msg|] h1]; simpl; [right; now exists msg |].
  apply IH.
Qed.

Lemma settled_failed (n : nat) (h h' : History) (l : Locals) :
  (forall j, length (l_stepResults l) <= j -> attemptsOf j h' = attemptsOf j h) ->
  failFast (l_stepResults l) -> l_passed l = false ->
  (exists msg, l_error l = Some msg) ->
  settled n h l h'.
Proof. intros A F P E. unfold settled. rewrite P. auto. Qed.

Lemma settled_catch (b : Browser) (story : Story) (opts : ExecutionOptions)
    (msg : string) (n : nat) (h h1 : History) (l1 : Locals) :
  (forall j, length (l_stepResults l1) <= j -> attemptsOf j h1 = attemptsOf j h) ->
  failFast (l_stepResults l1) ->
  settled n h (fst (catchBlock b story opts msg l1 h1))
            (snd (catchBlock b story opts msg l1 h1)).
Proof.
  intros A F.
  destruct (catchBlock b story opts msg l1 h1) as [l h'] eqn:K.
  destruct (catchBlock_measures _ _ _ _ _ _ _ _ K) as (M & S & _ & P & E).
  destruct (same_markers h1 h' M) as (QA & _). simpl.
  apply settled_failed; rewrite ?S; auto.
  - intros j Hj. rewrite QA. now apply A.
  - now exists msg.
Qed.

Lemma afterTryCatch_settled (b : Browser) (story : Story) (baseUrl : string)
    (opts : ExecutionOptions) (h : History) :
  settled (length (steps story)) h
    (fst (afterTryCatch b story baseUrl opts h))
    (snd (afterTryCatch b story baseUrl opts h)).
Proof.
  unfold afterTryCatch, tryBlock.
  pose proof (quiet_enterSite b baseUrl opts h) as Q0.
  destruct (enterSite b baseUrl opts h) as [[[]|msg] h1]; simpl in Q0;
    destruct (same_markers h h1 Q0) as (QA0 & _).
  2:{ apply settled_catch; [intros; apply QA0 |].
      exists [], []. repeat split; auto. }
  destruct (runSteps b opts (id story) (steps story) 0 initialLocals h1)
    as [[t2 l2] h2] eqn:X.
  destruct (runSteps_results b opts _ _ _ _ _ _ _ _ X eq_refl)
    as (rs & R & A & C).
  simpl in R. subst rs.
  assert (A2 : forall j, length (l_stepResults l2) <= j ->
                         attemptsOf j h2 = attemptsOf j h).
  { intros j Hj. rewrite A by (simpl; lia). apply QA0. }
  destruct (l_passed l2) eqn:P2.
  - destruct C as (-> & F & Ln & Er & Sc). simpl in Er, Sc.
    assert (FF : failFast (l_stepResults l2))
      by (exists (l_stepResults l2), []; rewrite app_nil_r; auto).
    assert (G2 : settled (length (steps story)) h l2 h2).
    { unfold settled. rewrite P2. repeat split; auto. }
    destruct (outcome story) as [vs|]; [| exact G2].
    pose proof (verifyAll_locals b vs l2 h2) as V.
    destruct (verifyAll b vs l2 h2) as [l3 h3] eqn:VE.
    destruct (verifyAll_measures b vs _ _ _ _ VE) as (M3 & S3 & _).
    destruct (same_markers h2 h3 M3) as (QA3 & _). simpl in V.
    assert (A3 : forall j, length (l_stepResults l3) <= j ->
                           attemptsOf j h3 = attemptsOf j h).
    { intros j Hj. rewrite QA3. apply A2. now rewrite <- S3. }
    destruct V as [-> | (m & ->)].
    + rewrite P2. simpl. unfold settled. rewrite P2. repeat split; auto.
    + simpl negb. simpl andb.
      destruct (screenshotOnFailure opts && negb (JS.truthy (l_screenshotUrl _)))
        eqn:SC.
      * pose proof (quiet_captureScreenshot b (id story) h3) as Q.
        destruct (captureScreenshot b (id story) h3) as [[u|m'] h4];
          simpl in Q; destruct (same_markers h3 h4 Q) as (QA4 & _).
        -- simpl. apply settled_failed; simpl; auto.
           ++ intros j Hj. rewrite QA4. now apply A3.
           ++ now exists m.
        -- apply settled_catch; auto.
           intros j Hj. rewrite QA4. now apply A3.
      * simpl. apply settled_failed; simpl; auto. now exists m.
  - destruct C as (rs0 & r & msg & R & F & Pr & Er).
    assert (FF : failFast (l_stepResults l2)).
    { exists rs0, [r]. repeat split; auto. right. now exists r. }
    destruct t2 as [m|].
    + now apply settled_catch.
    + simpl. apply settled_failed; auto. now exists msg.
Qed.

Lemma executeStory_settled (b : Browser) (story : Story) (baseUrl : string)
    (opts : ExecutionOptions) (h : History) (r : ExecutionResult) :
  fst (executeStory b story baseUrl opts h) = Ok r ->
  exists l h2,
    settled (length (steps story)) (atTry story h) l h2 /\
    snd (executeStory b story baseUrl opts h) = CloseContext :: h2 /\
    passed r = l_passed l /\ error r = l_error l /\
    step_results r = l_stepResults l /\
    screenshot_url r = l_screenshotUrl l.
Proof.
  intros E.
  destruct (rejects b (EnterStory (id story) :: h) NewContext) as [m|] eqn:C1.
  { unfold executeStory, bind, perform in E. rewrite C1 in E. discriminate. }
  destruct (rejects b (NewContext :: EnterStory (id story) :: h) NewPage)
    as [m|] eqn:C2.
  { unfold executeStory, bind, perform in E. rewrite C1, C2 in E.
    discriminate. }
  rewrite (executeStory_unfold b story baseUrl opts h C1 C2) in *.
  pose proof (afterTryCatch_settled b story baseUrl opts (atTry story h)) as S.
  unfold atTry in *.
  destruct (afterTryCatch b story baseUrl opts _) as [l h2]. simpl in S.
  exists l, h2. split; [exact S |].
  destruct (rejects b h2 CloseContext); [discriminate |].
  injection E as <-. repeat split.
Qed.


(** X8: the result of [executeStory] is passed exactly when it carries no
    error, and a passed result carries no screenshot. *)
Theorem executeStory_error_iff_failed (b : Browser) (story : Story)
    (baseUrl : string) (opts : ExecutionOptions) (h : History) :
  match fst (executeStory b story baseUrl opts h) with
  | Ok r =>
      (passed r = true <-> error r = None) /\
      (passed r = true -> screenshot_url r = None)
  | Throw _ => True
  end.
Proof.
  destruct (fst (executeStory b story baseUrl opts h)) as [r|] eqn:E;
    [| exact I].
  destruct (executeStory_settled b story baseUrl opts h r E)
    as (l & h2 & (_ & _ & C) & _ & P & Er & _ & Sc).
  rewrite P, Er, Sc. destruct (l_passed l).
  - tauto.
  - destruct C as [msg ->]. split; [split |]; discriminate.
Qed.

(** ** Captures and the browsing context *)

Lemma plain_events (d : list Event) :
  forallb isPlain d = true -> forallb isRun d = true /\ captures d = false.
Proof.
  induction d as [|e d IH]; intros H; [split; reflexivity |].
  simpl in H. apply andb_true_iff in H. destruct H as [He Hd].
  destruct (IH Hd) as [B C]. unfold isPlain in He.
  apply andb_true_iff in He. destruct He as [Hb Hc].
  unfold captures in *. simpl. rewrite Hb, B, C.
  destruct (isCapture e); [discriminate | split; reflexivity].
Qed.

Lemma captureOnFailure_plain (opts : ExecutionOptions) (l : Locals)
    (d : list Event) :
  forallb isPlain d = true -> captureOnFailure opts l d.
Proof.
  intros H. destruct (plain_events d H) as [B C]. split; [exact B |].
  rewrite C. discriminate.
Qed.

Lemma captureOnFailure_app (opts : ExecutionOptions) (l : Locals)
    (d2 d1 : list Event) :
  captureOnFailure opts l d2 -> captureOnFailure opts l d1 ->
  captureOnFailure opts l (d2 ++ d1).
Proof.
  intros [B2 C2] [B1 C1]. split.
  - now rewrite forallb_app, B2, B1.
  - unfold captures in *. rewrite existsb_app. intros H.
    apply orb_true_iff in H. destruct H; auto.
Qed.

Lemma captureOnFailure_failed (opts : ExecutionOptions) (l : Locals)
    (d : list Event) :
  forallb isRun d = true -> screenshotOnFailure opts = true ->
  l_passed l = false -> captureOnFailure opts l d.
Proof. intros B S P. split; auto. Qed.

Lemma emits_attemptStep (b : Browser) (step : StoryStep) (i : nat) :
  forall (n : nat) (lastError : option string) (retries : nat),
    emits isWork (attemptStep b n step i lastError retries).
Proof.
  induction n as [|n IH]; intros lastError retries h; simpl;
    destruct (emits_executeStep b step i h) as (d & H & F);
    destruct (executeStep b step i h) as [r h1]; simpl in H; subst h1;
    destruct (sr_passed r); try (now exists d).
  destruct (IH (sr_error r) (S retries)
              (WaitForTimeout (Some 1000%Z) :: d ++ h)) as (d2 & H2 & F2).
  exists (d2 ++ WaitForTimeout (Some 1000%Z) :: d). split.
  - rewrite H2, <- app_assoc. reflexivity.
  - rewrite forallb_app, F2. simpl. exact F.
Qed.

Lemma emits_captureScreenshot (b : Browser) (sid : string) :
  emits isCapture (captureScreenshot b sid).
Proof.
  unfold captureScreenshot. apply emits_bind; [now apply emits_perform |].
  intros _ h. unfold uploadScreenshot. eexists [Upload _].
  destruct (uploadAnswer b h _); simpl; try (split; reflexivity).
  destruct (publicUrl b _); split; reflexivity.
Qed.

Lemma emits_authenticateUser (b : Browser) (baseUrl : string)
    (creds : UserCredentials) (cfg : AuthConfig) :
  emits isEntry (authenticateUser b baseUrl creds cfg).
Proof.
  intros h. unfold authenticateUser.
  match goal with
  | |- context [match ?m h with _ => _ end] =>
      assert (E : emits isEntry m);
      [| destruct (E h) as (d & H & F); exists d;
         destruct (m h) as [[[]|msg] h1]; split; assumption]
  end.
  apply emits_bind.
  { intros h0. exists []. destruct (resolveUrl b _ baseUrl); split; reflexivity. }
  intros target. repeat (apply emits_bind; [now apply emits_perform | intros _]).
  destruct (successIndicator cfg) as [[|c s]|]; now apply emits_perform.
Qed.

Lemma emits_enterSite (b : Browser) (baseUrl : string) (opts : ExecutionOptions) :
  emits isEntry (enterSite b baseUrl opts).
Proof.
  unfold enterSite.
  destruct (credentials opts) as [creds|]; [| now apply emits_perform].
  destruct (authConfig opts) as [cfg|]; [| now apply emits_perform].
  destruct (auth_type cfg); try now apply emits_perform.
  intros h. destruct (emits_authenticateUser b baseUrl creds cfg h)
    as (d & H & F).
  exists d. destruct (authenticateUser b baseUrl creds cfg h) as [[e|] h1];
    split; assumption.
Qed.

Lemma emits_verify (b : Browser) (v : Verification) : emits isCheck (verify b v).
Proof.
  intros h. unfold verify.
  repeat match goal with
         | |- context [if ?c then _ else _] => destruct c
         | |- context [match rejects b h ?e with _ => _ end] =>
             destruct (rejects b h e)
         end;
    first [ exists []; split; reflexivity
          | eexists [_]; split; reflexivity ].
Qed.

Lemma emits_verifyAll (b : Browser) (vs : list Verification) (l : Locals) :
  emits isCheck (verifyAll b vs l).
Proof.
  induction vs as [|v vs IH]; intros h; simpl.
  - exists []. split; reflexivity.
  - destruct (emits_verify b v h) as (d & H & F).
    destruct (verify b v h) as [[msg|] h1]; simpl in H; subst h1.
    + now exists d.
    + destruct (IH (d ++ h)) as (d2 & H2 & F2).
      exists (d2 ++ d). rewrite H2, app_assoc, forallb_app, F2, F.
      split; reflexivity.
Qed.

Ltac plain_class H :=
  unfold isPlain; apply andb_true_iff; split;
  [ unfold isRun; unfold isWork, isStepCall in H;
    rewrite H, ?orb_true_r; reflexivity
  | match goal with
    | |- negb (isCapture ?e) = true => destruct e; try reflexivity; discriminate H
    end ].

Lemma work_is_plain (e : Event) : isWork e = true -> isPlain e = true.
Proof. intros H. plain_class H. Qed.

Lemma check_is_plain (e : Event) : isCheck e = true -> isPlain e = true.
Proof. intros H. plain_class H. Qed.

Lemma capture_is_run (e : Event) : isCapture e = true -> isRun e = true.
Proof. intros H. unfold isRun. rewrite H, ?orb_true_r. reflexivity. Qed.

Lemma forallb_weaken (P Q : Event -> bool) (d : list Event) :
  (forall e, P e = true -> Q e = true) ->
  forallb P d = true -> forallb Q d = true.
Proof. intros PQ H. rewrite forallb_forall in *. auto. Qed.

Lemma runSteps_events (b : Browser) (opts : ExecutionOptions) (sid : string) :
  forall (todo : list StoryStep) (i : nat) (l : Locals) (h : History)
         (t : option string) (l' : Locals) (h' : History),
    runSteps b opts sid todo i l h = (t, l', h') ->
    exists d, h' = d ++ h /\ captureOnFailure opts l' d.
Proof.
  induction todo as [|step rest IH]; intros i l h t l' h' E; simpl in E.
  - injection E as <- <- <-. exists []. split; [reflexivity |].
    now apply captureOnFailure_plain.
  - destruct (emits_attemptStep b step i (retryCount opts) None (l_retries l) h)
      as (d1 & H1 & F1).
    apply (forallb_weaken _ _ _ work_is_plain) in F1.
    destruct (attemptStep b (retryCount opts) step i None (l_retries l) h)
      as [[[r lastError] retries'] h1]. simpl in H1. subst h1.
    destruct (sr_passed r).
    + apply IH in E. destruct E as (d2 & -> & C2).
      exists (d2 ++ d1). split; [now rewrite app_assoc |].
      apply captureOnFailure_app; [exact C2 |].
      now apply captureOnFailure_plain.
    + destruct (screenshotOnFailure opts) eqn:S.
      * destruct (emits_captureScreenshot b sid (d1 ++ h)) as (dc & Hc & Fc).
        apply (forallb_weaken _ _ _ capture_is_run) in Fc.
        exists (dc ++ d1).
        destruct (captureScreenshot b sid (d1 ++ h)) as [[u|m] h2];
          simpl in Hc; subst h2; injection E as <- <- <-;
          (split; [now rewrite app_assoc |]);
          (apply captureOnFailure_app;
           [now apply captureOnFailure_failed
           | now apply captureOnFailure_plain]).
      * injection E as <- <- <-. exists d1. split; [reflexivity |].
        now apply captureOnFailure_plain.
Qed.

Lemma catchBlock_events (b : Browser) (story : Story) (opts : ExecutionOptions)
    (msg : string) (l : Locals) (h : History) :
  exists d,
    snd (catchBlock b story opts msg l h) = d ++ h /\
    captureOnFailure opts (fst (catchBlock b story opts msg l h)) d.
Proof.
  unfold catchBlock. destruct (screenshotOnFailure opts) eqn:S.
  - destruct (emits_captureScreenshot b (id story) h) as (dc & Hc & Fc).
    apply (forallb_weaken _ _ _ capture_is_run) in Fc.
    exists dc.
    destruct (captureScreenshot b (id story) h) as [[u|m] h2];
      simpl in *; (split; [exact Hc |]);
      now apply captureOnFailure_failed.
  - exists []. split; [reflexivity |]. now apply captureOnFailure_plain.
Qed.

Lemma captureOnFailure_catch (b : Browser) (story : Story)
    (opts : ExecutionOptions) (msg : string) (l1 : Locals) (h h1 : History)
    (d1 : list Event) :
  h1 = d1 ++ h -> forallb isRun d1 = true ->
  (captures d1 = true -> screenshotOnFailure opts = true) ->
  exists d,
    snd (catchBlock b story opts msg l1 h1) = d ++ h /\
    captureOnFailure opts (fst (catchBlock b story opts msg l1 h1)) d.
Proof.
  intros -> B C.
  destruct (catchBlock_events b story opts msg l1 (d1 ++ h)) as (dc & Hc & Cc).
  destruct (catchBlock b story opts msg l1 (d1 ++ h)) as [l h2] eqn:K.
  destruct (catchBlock_measures _ _ _ _ _ _ _ _ K) as (_ & _ & _ & P & _).
  simpl in *. subst h2. exists (dc ++ d1).
  split; [now rewrite app_assoc |].
  apply captureOnFailure_app; [exact Cc |].
  split; [exact B |]. intros H. split; [now apply C | exact P].
Qed.

(** The [try]/[catch] statement first makes the calls of [enterSite], then
    those of the steps, the verifications and the captures. *)
Lemma afterTryCatch_events (b : Browser) (story : Story) (baseUrl : string)
    (opts : ExecutionOptions) (h : History) :
  exists d,
    snd (afterTryCatch b story baseUrl opts h)
    = d ++ snd (enterSite b baseUrl opts h) /\
    captureOnFailure opts (fst (afterTryCatch b story baseUrl opts h)) d.
Proof.
  unfold afterTryCatch, tryBlock.
  destruct (enterSite b baseUrl opts h) as [[[]|msg] h1]; simpl snd at 2.
  2:{ apply (captureOnFailure_catch b story opts msg _ h1 h1 []); auto.
      discriminate. }
  destruct (runSteps b opts (id story) (steps story) 0 initialLocals h1)
    as [[t2 l2] h2] eqn:X.
  destruct (runSteps_events b opts _ _ _ _ _ _ _ _ X) as (dr & H2 & B2 & C2).
  destruct t2 as [m|].
  { apply (captureOnFailure_catch b story opts m _ h1 h2 dr); auto.
    intros H. now apply C2. }
  destruct (l_passed l2) eqn:P2.
  2:{ exists dr. simpl. split; [exact H2 |]. split; [exact B2 |].
      intros H. split; [now apply C2 | exact P2]. }
  assert (N2 : captures dr = false).
  { destruct (captures dr); [| reflexivity].
    destruct (C2 eq_refl). discriminate. }
  destruct (outcome story) as [vs|].
  2:{ exists dr. simpl. split; [exact H2 |]. split; [exact B2 |].
      rewrite N2. discriminate. }
  destruct (emits_verifyAll b vs l2 h2) as (dv & Hv & Fv).
  apply (forallb_weaken _ _ _ check_is_plain) in Fv.
  destruct (plain_events dv Fv) as [Bv Cv].
  destruct (verifyAll b vs l2 h2) as [l3 h3]. simpl in Hv.
  assert (H3 : h3 = (dv ++ dr) ++ h1)
    by (now rewrite Hv, H2, !app_assoc).
  assert (B3 : forallb isRun (dv ++ dr) = true)
    by (now rewrite forallb_app, Bv, B2).
  assert (N3 : captures (dv ++ dr) = false).
  { unfold captures in *. now rewrite existsb_app, Cv, N2. }
  destruct (negb (l_passed l3)) eqn:P3; simpl.
  2:{ exists (dv ++ dr). split; [exact H3 |]. split; [exact B3 |].
      rewrite N3. discriminate. }
  apply negb_true_iff in P3.
  destruct (screenshotOnFailure opts && negb (JS.truthy (l_screenshotUrl l3)))
    eqn:SC.
  - apply andb_true_iff in SC. destruct SC as [S _].
    destruct (emits_captureScreenshot b (id story) h3) as (dc & Hc & Fc).
    apply (forallb_weaken _ _ _ capture_is_run) in Fc.
    destruct (captureScreenshot b (id story) h3) as [[u|m] h4]; simpl in Hc.
    + exists (dc ++ dv ++ dr). simpl.
      split; [now rewrite Hc, H3, !app_assoc |].
      apply captureOnFailure_app;
        [now apply captureOnFailure_failed |].
      split; [exact B3 |]. rewrite N3. discriminate.
    + apply (captureOnFailure_catch b story opts m _ h1 h4 (dc ++ dv ++ dr)).
      * now rewrite Hc, H3, !app_assoc.
      * now rewrite forallb_app, Fc, B3.
      * intros _. exact S.
  - exists (dv ++ dr). simpl. split; [exact H3 |]. split; [exact B3 |].
    rewrite N3. discriminate.
Qed.

Lemma body_not_context (e : Event) : isBody e = true -> isContext e = false.
Proof. destruct e; try reflexivity; discriminate. Qed.

Lemma run_is_body (e : Event) : isRun e = true -> isBody e = true.
Proof. intros H. unfold isBody. now rewrite H. Qed.

Lemma entry_is_body (e : Event) : isEntry e = true -> isBody e = true.
Proof. intros H. unfold isBody. rewrite H. apply orb_true_r. Qed.

(** The events of the [try]/[catch] statement. *)
Lemma afterTryCatch_body (b : Browser) (story : Story) (baseUrl : string)
    (opts : ExecutionOptions) (h : History) :
  exists d,
    snd (afterTryCatch b story baseUrl opts h) = d ++ h /\
    forallb isBody d = true /\
    (captures d = true ->
     screenshotOnFailure opts = true /\
     l_passed (fst (afterTryCatch b story baseUrl opts h)) = false).
Proof.
  destruct (afterTryCatch_events b story baseUrl opts h) as (d & H & B & C).
  destruct (emits_enterSite b baseUrl opts h) as (d0 & H0 & F0).
  exists (d ++ d0). split; [now rewrite H, H0, app_assoc |]. split.
  - rewrite forallb_app.
    rewrite (forallb_weaken _ _ _ run_is_body B),
      (forallb_weaken _ _ _ entry_is_body F0). reflexivity.
  - unfold captures in *. rewrite existsb_app. intros K.
    apply orb_true_iff in K. destruct K as [K | K]; [now apply C |].
    exfalso. clear - F0 K. induction d0 as [|e d0 IH]; [discriminate |].
    simpl in *. apply andb_true_iff in F0. destruct F0 as [Fe F0].
    apply orb_true_iff in K. destruct K as [K | K]; [| now apply IH].
    destruct e; discriminate.
Qed.

(** X9: one browsing context per story, closed on every path.  When the
    context and the page have been opened, [executeStory] closes the context
    as its last call, exactly once, whatever happened in between (a failed
    login, a failed step, a throw in the [try] or in the [catch] block); the
    calls in between open or close no context.  When the context cannot be
    opened nothing else is called; when the page cannot be opened the
    context is not closed. *)
Theorem executeStory_closes_context (b : Browser) (story : Story)
    (baseUrl : string) (opts : ExecutionOptions) (h : History) :
  let h0 := EnterStory (id story) :: h in
  match rejects b h0 NewContext with
  | Some msg =>
      executeStory b story baseUrl opts h = (Throw msg, NewContext :: h0)
  | None =>
      match rejects b (NewContext :: h0) NewPage with
      | Some msg =>
          executeStory b story baseUrl opts h
          = (Throw msg, NewPage :: NewContext :: h0)
      | None =>
          exists d,
            snd (executeStory b story baseUrl opts h)
            = CloseContext :: d ++ atTry story h /\
            forall e, In e d -> isBody e = true /\ isContext e = false
      end
  end.
Proof.
  intros h0. subst h0.
  destruct (rejects b (EnterStory (id story) :: h) NewContext) as [m|] eqn:C1.
  { unfold executeStory, bind, perform. now rewrite C1. }
  destruct (rejects b (NewContext :: EnterStory (id story) :: h) NewPage)
    as [m|] eqn:C2.
  { unfold executeStory, bind, perform. now rewrite C1, C2. }
  rewrite (executeStory_unfold b story baseUrl opts h C1 C2).
  destruct (afterTryCatch_body b story baseUrl opts (atTry story h))
    as (d & H & B & _).
  unfold atTry in *.
  destruct (afterTryCatch b story baseUrl opts _) as [l h2]. simpl in H.
  exists d. split.
  - destruct (rejects b h2 CloseContext); simpl; now rewrite H.
  - intros e He. rewrite forallb_forall in B. specialize (B e He).
    split; [exact B | now apply body_not_context].
Qed.

(** X10: screenshots are for failures only.  A run of [executeStory] takes
    or uploads a screenshot only when [screenshotOnFailure] is set and the
    result it returns is not passed. *)
Theorem executeStory_captures_on_failure (b : Browser) (story : Story)
    (baseUrl : string) (opts : ExecutionOptions) (h : History) :
  exists d,
    snd (executeStory b story baseUrl opts h) = d ++ h /\
    (captures d = true ->
     screenshotOnFailure opts = true /\
     forall r, fst (executeStory b story baseUrl opts h) = Ok r ->
               passed r = false).
Proof.
  destruct (rejects b (EnterStory (id story) :: h) NewContext) as [m|] eqn:C1.
  { unfold executeStory, bind, perform. rewrite C1. simpl.
    exists [NewContext; EnterStory (id story)]. split; [reflexivity |].
    discriminate. }
  destruct (rejects b (NewContext :: EnterStory (id story) :: h) NewPage)
    as [m|] eqn:C2.
  { unfold executeStory, bind, perform. rewrite C1, C2. simpl.
    exists [NewPage; NewContext; EnterStory (id story)].
    split; [reflexivity | discriminate]. }
  rewrite (executeStory_unfold b story baseUrl opts h C1 C2).
  destruct (afterTryCatch_body b story baseUrl opts
              (NewPage :: NewContext :: EnterStory (id story) :: h))
    as (d & H & B & C).
  destruct (afterTryCatch b story baseUrl opts _) as [l h2].
  simpl in H, C.
  exists (CloseContext :: d ++ [NewPage; NewContext; EnterStory (id story)]).
  split.
  - destruct (rejects b h2 CloseContext); simpl; rewrite H, <- app_assoc;
      reflexivity.
  - unfold captures in *. simpl. rewrite existsb_app. simpl.
    rewrite orb_false_r. intros K. destruct (C K) as [S P].
    split; [exact S |].
    destruct (rejects b h2 CloseContext); simpl; intros r E;
      [discriminate |]. now injection E as <-.
Qed.

(** ** Verifications that are not evaluated *)

Lemma verify_other_type (b : Browser) (v : Verification) (h : History) :
  isEvaluated v = false -> verify b v h = (None, h).
Proof.
  unfold isEvaluated, verify. intros H.
  apply orb_false_iff in H. destruct H as [H E3].
  apply orb_false_iff in H. destruct H as [E1 E2].
  now rewrite E1, E2, E3.
Qed.

Lemma verifyAll_other_types (b : Browser) (vs : list Verification)
    (l : Locals) (h : History) :
  forallb (fun v => negb (isEvaluated v)) vs = true ->
  verifyAll b vs l h = (l, h).
Proof.
  induction vs as [|v vs IH]; intros H; [reflexivity |].
  simpl in H. apply andb_true_iff in H. destruct H as [Hv H].
  apply negb_true_iff in Hv. simpl.
  rewrite (verify_other_type b v h Hv). now apply IH.
Qed.

(** X11: verifications of a type other than [url], [element] and [content]
    are ignored: a story all of whose verifications have other types runs
    exactly as the same story without verifications, so it passes when its
    steps pass. *)
Theorem unevaluated_verifications_pass (b : Browser) (story : Story)
    (vs : list Verification) (baseUrl : string) (opts : ExecutionOptions)
    (h : History) :
  outcome story = Some vs ->
  forallb (fun v => negb (isEvaluated v)) vs = true ->
  executeStory b story baseUrl opts h
  = executeStory b (withOutcome story (Some [])) baseUrl opts h.
Proof.
  intros O F.
  assert (T : forall l h1,
            tryBlock b story baseUrl opts l h1
            = tryBlock b (withOutcome story (Some [])) baseUrl opts l h1).
  { intros l h1. unfold tryBlock. simpl. rewrite O.
    destruct (enterSite b baseUrl opts h1) as [[[]|m] h2]; [| reflexivity].
    destruct (runSteps b opts (id story) (steps story) 0 l h2)
      as [[[m|] l2] h3]; [reflexivity |].
    destruct (l_passed l2) eqn:P; [| reflexivity].
    rewrite (verifyAll_other_types b vs l2 h3 F). simpl. now rewrite P. }
  unfold executeStory, afterTryCatch. simpl id.
  unfold bind. destruct (perform b NewContext _) as [[[]|m] h1]; [| reflexivity].
  destruct (perform b NewPage h1) as [[[]|m] h2]; [| reflexivity].
  rewrite T. reflexivity.
Qed.

Lemma unevaluated_verifications_pass_witness :
  executeStory Examples.calm Pages.looksRight "https://x.test"
               Examples.twoRetries []
  = executeStory Examples.calm (withOutcome Pages.looksRight (Some []))
                 "https://x.test" Examples.twoRetries [].
Proof.
  apply (unevaluated_verifications_pass Examples.calm Pages.looksRight
           [ {| v_type := "visual"; v_target := None;
                v_expected := "the chart is blue" |} ]);
    reflexivity.
Defined.

(** ** The whole run *)

Lemma countOutcome_snoc (v : string) (l : list (string * string))
    (sid o : string) :
  countOutcome v (l ++ [(sid, o)])
  = countOutcome v l + (if String.eqb o v then 1 else 0).
Proof.
  unfold countOutcome. rewrite List.filter_app, length_app. simpl.
  destruct (String.eqb o v); reflexivity.
Qed.

(** One iteration writes one [last_result], for its story, and counts it. *)
Lemma runOne_tally (b : Browser) (env : Environment)
    (cm : gmap string UserCredentials) (s : StoryRow) (c : Counters)
    (w : World) :
  let c' := fst (runOne b env cm s c w) in
  let w' := snd (runOne b env cm s c w) in
  (exists o, lastResults w' = lastResults w ++ [(storyId s, o)]) /\
  countOutcome "passed" (lastResults w') + c_passed c
  = countOutcome "passed" (lastResults w) + c_passed c' /\
  countOutcome "failed" (lastResults w') + c_failed c
  = countOutcome "failed" (lastResults w) + c_failed c' /\
  countOutcome "skipped" (lastResults w') + c_skipped c
  = countOutcome "skipped" (lastResults w) + c_skipped c' /\
  stories_total (run w') = stories_total (run w).
Proof.
  unfold runOne, storyId.
  destruct (gate env cm (story s)) as [[reason|] creds].
  - simpl. rewrite !countOutcome_snoc. simpl. repeat split; eauto; lia.
  - destruct (executeStory b (story s) (base_url env) (runOptions env creds)
                (history w)) as [[r|msg] h'].
    + destruct (passed r); simpl; rewrite !countOutcome_snoc; simpl;
        repeat split; eauto; lia.
    + simpl. rewrite !countOutcome_snoc. simpl. repeat split; eauto; lia.
Qed.

Lemma storyLoop_tally (b : Browser) (statusRead : nat -> option string)
    (env : Environment) (cm : gmap string UserCredentials) (total : nat) :
  forall (todo : list StoryRow) (i : nat) (c : Counters) (w : World)
         (c' : Counters) (w' : World),
    storyLoop b statusRead env cm total todo i c w = (Some c', w') ->
    map fst (lastResults w') = map fst (lastResults w) ++ map storyId todo /\
    countOutcome "passed" (lastResults w') + c_passed c
    = countOutcome "passed" (lastResults w) + c_passed c' /\
    countOutcome "failed" (lastResults w') + c_failed c
    = countOutcome "failed" (lastResults w) + c_failed c' /\
    countOutcome "skipped" (lastResults w') + c_skipped c
    = countOutcome "skipped" (lastResults w) + c_skipped c' /\
    stories_total (run w') = stories_total (run w).
Proof.
  induction todo as [|s rest IH]; intros i c w c' w' E; simpl in E.
  - injection E as <- <-. rewrite app_nil_r. repeat split.
  - destruct (isCancelled (statusRead i)); [discriminate |].
    set (w2 := updateRun _ (onProgress _ w)) in E.
    pose proof (runOne_tally b env cm s c w2) as T.
    destruct (runOne b env cm s c w2) as [c1 w3]. simpl in T.
    destruct T as ((o & L) & T1 & T2 & T3 & T4).
    apply IH in E. destruct E as (M & E1 & E2 & E3 & E4).
    change (lastResults w2) with (lastResults w) in *.
    change (stories_total (run w2)) with (stories_total (run w)) in *.
    split; [| repeat split; lia].
    rewrite M, L, map_app. simpl. now rewrite <- app_assoc.
Qed.

(** X12: a run that is not cancelled ends [completed] and accounts for every
    story: the persisted counters add up to the number of stories (also
    those whose [executeStory] threw), [stories_total] is that number, the
    current-story markers are cleared, and [test_results] has gained one row
    per story, in the order of the stories.  With no story at all the run
    is marked completed with zero counts and [onProgress] is not called. *)
Theorem executeTestRun_completes (b : Browser)
    (statusRead : nat -> option string) (env : Environment)
    (cm : gmap string UserCredentials) (stories : list StoryRow) (w : World) :
  (forall j, j < length stories -> isCancelled (statusRead j) = false) ->
  let w' := executeTestRun b statusRead env cm stories w in
  status (run w') = "completed" /\
  stories_total (run w') = length stories /\
  stories_passed (run w') + stories_failed (run w') + stories_skipped (run w')
  = length stories /\
  (stories <> [] ->
   current_story_id (run w') = None /\ current_story_name (run w') = None) /\
  map tr_story_id (results w')
  = map tr_story_id (results w) ++ map storyId stories /\
  length (progress w')
  = length (progress w) + (if stories is [] then 0 else S (length stories)).
Proof.
  intros U w'. subst w'. destruct stories as [|s rest].
  - simpl. rewrite app_nil_r. repeat split; try lia; congruence.
  - rewrite executeTestRun_loop by discriminate.
    set (total := length (s :: rest)) in *.
    destruct (storyLoop_uncancelled b statusRead env cm total (s :: rest) 0
                {| c_passed := 0; c_failed := 0; c_skipped := 0 |}
                (updateRun (setRunning total) w) U)
      as (c & wk & E & R & N & _ & _ & _ & Pr).
    destruct (storyLoop_tally b statusRead env cm total _ _ _ _ _ _ E)
      as (_ & _ & _ & _ & T).
    rewrite E. simpl. unfold counted in N. simpl in N, T, R, Pr.
    repeat split; try lia; auto.
    rewrite length_app, Pr. subst total. simpl. lia.
Qed.

Lemma executeTestRun_completes_witness :
  let w' := executeTestRun Examples.calm Examples.undisturbed
              Examples.openEnv ∅ Examples.five Examples.fresh in
  status (run w') = "completed" /\ stories_total (run w') = 5 /\
  stories_passed (run w') + stories_failed (run w') + stories_skipped (run w')
  = 5 /\
  map tr_story_id (results w') = ["s1"; "s2"; "s3"; "s4"; "s5"].
Proof.
  destruct (executeTestRun_completes Examples.calm Examples.undisturbed
              Examples.openEnv ∅ Examples.five Examples.fresh)
    as (St & T & N & _ & R & _).
  - intros j _. reflexivity.
  - repeat split; assumption.
Defined.

(** X13: the final counters are the tallies of the outcomes written to the
    stories: when a run is not cancelled, [stories_passed],
    [stories_failed] and [stories_skipped] count the stories whose
    [last_result] was set to [passed], [failed] and [skipped] by this run,
    and every story got exactly one [last_result], in order. *)
Theorem final_counters_tally (b : Browser)
    (statusRead : nat -> option string) (env : Environment)
    (cm : gmap string UserCredentials) (stories : list StoryRow) (w : World) :
  stories <> [] ->
  (forall j, j < length stories -> isCancelled (statusRead j) = false) ->
  let w' := executeTestRun b statusRead env cm stories w in
  map fst (lastResults w') = map fst (lastResults w) ++ map storyId stories /\
  countOutcome "passed" (lastResults w')
  = countOutcome "passed" (lastResults w) + stories_passed (run w') /\
  countOutcome "failed" (lastResults w')
  = countOutcome "failed" (lastResults w) + stories_failed (run w') /\
  countOutcome "skipped" (lastResults w')
  = countOutcome "skipped" (lastResults w) + stories_skipped (run w').
Proof.
  intros NE U w'. subst w'. rewrite executeTestRun_loop by exact NE.
  destruct (storyLoop_uncancelled b statusRead env cm (length stories)
              stories 0 {| c_passed := 0; c_failed := 0; c_skipped := 0 |}
              (updateRun (setRunning (length stories)) w) U)
    as (c & wk & E & _).
  destruct (storyLoop_tally b statusRead env cm _ _ _ _ _ _ _ E)
    as (M & T1 & T2 & T3 & _).
  rewrite E. simpl in *. repeat split; auto; lia.
Qed.

Lemma final_counters_tally_witness :
  let w' := executeTestRun Examples.strict Examples.undisturbed
              Examples.formEnv ∅
              [Examples.storyRow "s1" None; Examples.storyRow "s2" (Some "admin")]
              Examples.fresh in
  map fst (lastResults w') = ["s1"; "s2"] /\
  countOutcome "passed" (lastResults w') = stories_passed (run w') /\
  countOutcome "failed" (lastResults w') = stories_failed (run w') /\
  countOutcome "skipped" (lastResults w') = stories_skipped (run w').
Proof.
  apply (final_counters_tally Examples.strict Examples.undisturbed
           Examples.formEnv ∅
           [Examples.storyRow "s1" None; Examples.storyRow "s2" (Some "admin")]
           Examples.fresh).
  - discriminate.
  - intros j _. reflexivity.
Defined.

Lemma storyLoop_progress (b : Browser) (statusRead : nat -> option string)
    (env : Environment) (cm : gmap string UserCredentials) (total : nat) :
  forall (todo : list StoryRow) (i : nat) (c : Counters) (w : World),
    counted c = i -> i + length todo = total ->
    exists ps,
      progress (snd (storyLoop b statusRead env cm total todo i c w))
      = progress w ++ ps /\
      Forall (addsUp total) ps /\
      map p_completed ps = seq i (length ps) /\
      map p_current ps = map (fun s => Some (title s)) (firstn (length ps) todo) /\
      match fst (storyLoop b statusRead env cm total todo i c w) with
      | Some c' => counted c' = total /\ length ps = length todo
      | None => length ps < length todo
      end.
Proof.
  induction todo as [|s rest IH]; intros i c w C T; simpl in T |- *.
  - exists []. rewrite app_nil_r. repeat split; auto. lia.
  - destruct (isCancelled (statusRead i)).
    + exists []. simpl. rewrite app_nil_r. repeat split; auto. lia.
    + set (p := {| p_total := total; p_completed := i |}).
      set (w2 := updateRun _ (onProgress p w)).
      pose proof (runOne_spec b env cm s c w2) as R.
      destruct (runOne b env cm s c w2) as [c1 w3]. simpl in R.
      destruct R as (_ & R2 & _ & _ & _ & R6).
      destruct (IH (S i) c1 w3) as (ps & P & F & Sq & Cu & L); [lia | lia |].
      exists (p :: ps). rewrite P, R6. simpl. rewrite <- app_assoc. simpl.
      split; [reflexivity |]. split.
      { constructor; [| exact F]. unfold addsUp, counted in *. simpl. lia. }
      split; [now rewrite Sq |]. split; [now rewrite Cu |].
      destruct (fst (storyLoop b statusRead env cm total rest (S i) c1 w3));
        [destruct L; split; lia | lia].
Qed.

(** X14: every progress report of a run adds up, whether the run is cancelled
    or not: [total] is the number of stories,
    [passed + failed + skipped = completed] and [completed <= total].  The
    [n]-th report (from 0) has [completed = n]; the reports before the last
    name the stories in order as [current]; and there are never more than
    one report per story plus the closing one. *)
Theorem progress_reports_add_up (b : Browser)
    (statusRead : nat -> option string) (env : Environment)
    (cm : gmap string UserCredentials) (stories : list StoryRow) (w : World) :
  exists ps,
    progress (executeTestRun b statusRead env cm stories w)
    = progress w ++ ps /\
    Forall (addsUp (length stories)) ps /\
    map p_completed ps = seq 0 (length ps) /\
    length ps <= S (length stories) /\
    forall k p, nth_error ps k = Some p -> k < length stories ->
      option_map title (nth_error stories k) = p_current p.
Proof.
  destruct stories as [|s rest].
  - exists []. simpl. rewrite app_nil_r. repeat split; auto.
    intros k p E. now destruct k.
  - rewrite executeTestRun_loop by discriminate.
    set (stories := s :: rest). set (total := length stories).
    destruct (storyLoop_progress b statusRead env cm total stories 0
                {| c_passed := 0; c_failed := 0; c_skipped := 0 |}
                (updateRun (setRunning total) w))
      as (ps & P & F & Sq & Cu & L); [reflexivity | reflexivity |].
    assert (Cur : forall k p, nth_error ps k = Some p ->
              option_map title (nth_error stories k) = p_current p).
    { intros k p E.
      assert (K : k < length ps) by (apply nth_error_Some; congruence).
      pose proof (f_equal (fun l => nth_error l k) Cu) as N. simpl in N.
      rewrite !nth_error_map, E, nth_error_firstn in N.
      apply Nat.ltb_lt in K. rewrite K in N. simpl in N.
      destruct (nth_error stories k); simpl in *; congruence. }
    destruct (storyLoop b statusRead env cm total stories 0 _ _)
      as [[c|] wk]; simpl in P, L |- *.
    + destruct L as (C & L).
      exists (ps ++ [{| p_total := total; p_completed := total;
                        p_passed := c_passed c; p_failed := c_failed c;
                        p_skipped := c_skipped c; p_current := None |}]).
      rewrite P, <- app_assoc. split; [reflexivity |]. split.
      { apply Forall_app. split; [exact F |]. constructor; [| constructor].
        unfold addsUp, counted in *. simpl. lia. }
      rewrite map_app, length_app, Sq, seq_app, L. simpl.
      split; [reflexivity |]. split; [subst total stories; simpl; lia |].
      intros k p E K. apply Cur. rewrite nth_error_app1 in E; [exact E |].
      rewrite L. exact K.
    + exists ps. repeat split; auto. subst total stories. simpl in *. lia.
Qed.

(** ** Stories without a role *)

Lemma run_not_login (e : Event) : isRun e = true -> negb (isLogin e) = true.
Proof. intros H. destruct e; try reflexivity; discriminate H. Qed.

Lemma gate_no_role (env : Environment) (cm : gmap string UserCredentials)
    (s : Story) :
  JS.truthy (required_role s) = false -> gate env cm s = (None, None).
Proof.
  unfold gate. destruct (required_role s) as [[|c r]|]; simpl;
    [reflexivity | discriminate | reflexivity].
Qed.

(** The calls of a story executed without credentials. *)
Lemma executeStory_anonymous (b : Browser) (story : Story) (baseUrl : string)
    (opts : ExecutionOptions) (h : History) :
  credentials opts = None ->
  exists d,
    snd (executeStory b story baseUrl opts h) = d ++ h /\ noLogin d /\
    (rejects b (EnterStory (id story) :: h) NewContext = None ->
     rejects b (NewContext :: EnterStory (id story) :: h) NewPage = None ->
     exists d', d = CloseContext :: d' ++ Goto baseUrl :: firstn 3 (atTry story h)).
Proof.
  intros Cr.
  destruct (rejects b (EnterStory (id story) :: h) NewContext) as [m|] eqn:C1.
  { exists [NewContext; EnterStory (id story)].
    unfold executeStory, bind, perform. rewrite C1.
    repeat split. discriminate. }
  destruct (rejects b (NewContext :: EnterStory (id story) :: h) NewPage)
    as [m|] eqn:C2.
  { exists [NewPage; NewContext; EnterStory (id story)].
    unfold executeStory, bind, perform. rewrite C1, C2.
    repeat split. discriminate. }
  rewrite executeStory_unfold by assumption.
  destruct (afterTryCatch_events b story baseUrl opts
              (NewPage :: NewContext :: EnterStory (id story) :: h))
    as (d & H & B & _).
  assert (E : snd (enterSite b baseUrl opts
                     (NewPage :: NewContext :: EnterStory (id story) :: h))
              = Goto baseUrl :: NewPage :: NewContext :: EnterStory (id story) :: h).
  { unfold enterSite. rewrite Cr. unfold perform.
    now destruct (rejects b _ (Goto baseUrl)). }
  rewrite E in H.
  destruct (afterTryCatch b story baseUrl opts _) as [l h2]. simpl in H.
  exists (CloseContext :: d ++
          [Goto baseUrl; NewPage; NewContext; EnterStory (id story)]).
  split; [| split].
  - subst h2. destruct (rejects b _ CloseContext); simpl;
      now rewrite <- app_assoc.
  - unfold noLogin. simpl. rewrite forallb_app. simpl.
    rewrite (forallb_weaken _ _ _ run_not_login B). reflexivity.
  - intros _ _. exists d. reflexivity.
Qed.

(** X15: a story without a required role (none, or the empty string) is run
    without credentials, whatever the environment's authentication and test
    users are: while it runs no login form is touched ([page.fill],
    [page.click], [page.waitForSelector], [page.waitForLoadState] are never
    called), and once its page is open the first call on it is
    [goto(base_url)]. *)
Theorem roleless_story_never_logs_in (b : Browser) (env : Environment)
    (cm : gmap string UserCredentials) (s : StoryRow) (c : Counters)
    (w : World) :
  JS.truthy (required_role (story s)) = false ->
  exists d,
    history (snd (runOne b env cm s c w)) = d ++ history w /\ noLogin d /\
    (rejects b (EnterStory (storyId s) :: history w) NewContext = None ->
     rejects b (NewContext :: EnterStory (storyId s) :: history w) NewPage
     = None ->
     exists d',
       d = CloseContext :: d' ++
           [Goto (base_url env); NewPage; NewContext; EnterStory (storyId s)]).
Proof.
  intros R. unfold runOne. rewrite (gate_no_role env cm _ R).
  destruct (executeStory_anonymous b (story s) (base_url env)
              (runOptions env None) (history w) eq_refl) as (d & H & N & F).
  exists d.
  destruct (executeStory b (story s) (base_url env) (runOptions env None)
              (history w)) as [[r|msg] h']; simpl in H |- *;
    (split; [exact H | split; [exact N | exact F]]).
Qed.

Lemma roleless_story_never_logs_in_witness :
  exists d,
    history (snd (runOne Examples.calm Examples.formEnv
                    {[ "admin" := Examples.admin ]}
                    (Examples.storyRow "s1" None)
                    {| c_passed := 0; c_failed := 0; c_skipped := 0 |}
                    Examples.fresh))
    = d ++ history Examples.fresh /\ noLogin d.
Proof.
  destruct (roleless_story_never_logs_in Examples.calm Examples.formEnv
              {[ "admin" := Examples.admin ]} (Examples.storyRow "s1" None)
              {| c_passed := 0; c_failed := 0; c_skipped := 0 |}
              Examples.fresh eq_refl) as (d & H & N & _).
  exists d. split; assumption.
Defined.

(** ** The credentials map *)

Section CredentialsMapFacts.

Variable decrypt : string -> Result string.

Lemma fileUsers_app (l1 l2 : list TestUser.t) (o : CredentialsObject) :
  fileUsers decrypt (l1 ++ l2) o = fileUsers decrypt l2 (fileUsers decrypt l1 o).
Proof.
  revert o. induction l1 as [|u l1 IH]; intros o; simpl; [reflexivity |].
  destruct (decrypt (TestUser.password_encrypted u)); apply IH.
Qed.

(** Users whose password does not decrypt leave no trace. *)
Lemma fileUsers_untouched (r : string) (l : list TestUser.t) :
  forall o,
    (forall v, In v l -> TestUser.role v = r ->
       exists m, decrypt (TestUser.password_encrypted v) = Throw m) ->
    (r = "__proto__" -> proto (fileUsers decrypt l o) = proto o) /\
    (r <> "__proto__" -> own (fileUsers decrypt l o) !! r = own o !! r).
Proof.
  induction l as [|u l IH]; intros o H; simpl; [split; reflexivity |].
  assert (H' : forall v, In v l -> TestUser.role v = r ->
            exists m, decrypt (TestUser.password_encrypted v) = Throw m).
  { intros v I. apply H. now right. }
  destruct (decrypt (TestUser.password_encrypted u)) as [p|m] eqn:D;
    [| now apply IH].
  assert (N : TestUser.role u <> r).
  { intros E. destruct (H u (or_introl eq_refl) E) as (m & T). congruence. }
  destruct (IH (assign (TestUser.role u)
                  {| username := Some (TestUser.username u);
                     password := Some p |} o) H') as (I1 & I2).
  unfold assign in *.
  destruct (String.eqb_spec (TestUser.role u) "__proto__") as [E | E].
  - split; intros R; [congruence |]. now rewrite I2.
  - split; intros R; [now rewrite I1 |].
    rewrite I2 by exact R. simpl. now rewrite lookup_insert_ne.
Qed.

Lemma buildCredentialsMap_fileUsers (testUsers : list TestUser.t) :
  buildCredentialsMap decrypt (Some testUsers)
  = fileUsers decrypt testUsers emptyObject.
Proof. now destruct testUsers. Qed.

End CredentialsMapFacts.

(** X16: the credentials of a role are those of the last test user of that
    role whose password decrypts: if the password of [user] decrypts to [p]
    and no later user of the same role has a password that decrypts, then
    [credentialsMap[role]] holds [user]'s name with [p], whatever came
    before and whichever other passwords fail to decrypt; a story of a
    form-login environment that requires the role is run with them. *)
Theorem credentials_last_user_wins (decrypt : string -> Result string)
    (before after : list TestUser.t) (user : TestUser.t) (p : string)
    (env : Environment) (cfg : AuthConfig) (s : Story) :
  let creds := {| username := Some (TestUser.username user);
                  password := Some p |} in
  let o := buildCredentialsMap decrypt (Some (before ++ user :: after)) in
  decrypt (TestUser.password_encrypted user) = Ok p ->
  TestUser.role user <> "__proto__" ->
  (forall v, In v after -> TestUser.role v = TestUser.role user ->
     exists m, decrypt (TestUser.password_encrypted v) = Throw m) ->
  own o !! TestUser.role user = Some creds /\
  (auth_config env = Some cfg -> auth_type cfg = auth_form ->
   required_role s = Some (TestUser.role user) -> TestUser.role user <> "" ->
   gate env (own o) s = (None, Some creds)).
Proof.
  intros creds o D N A. subst o.
  assert (L : own (buildCredentialsMap decrypt (Some (before ++ user :: after)))
              !! TestUser.role user = Some creds).
  { rewrite buildCredentialsMap_fileUsers, fileUsers_app. simpl. rewrite D.
    destruct (fileUsers_untouched decrypt (TestUser.role user) after
                (assign (TestUser.role user) creds
                   (fileUsers decrypt before emptyObject)) A) as (_ & U).
    fold creds. rewrite (U N). unfold assign.
    destruct (String.eqb_spec (TestUser.role user) "__proto__") as [E | E];
      [contradiction |].
    simpl. apply lookup_insert_eq. }
  split; [exact L |].
  intros C F R NE. unfold gate. rewrite R, C, F.
  destruct (TestUser.role user) as [|c r] eqn:X; [contradiction |].
  unfold lookupRole. now rewrite L.
Qed.

Lemma credentials_last_user_wins_witness :
  own (buildCredentialsMap Users.unseal (Some Users.staff)) !! "admin"
  = Some {| username := Some "root@x.test"; password := Some "hunter2" |} /\
  gate Examples.formEnv
    (own (buildCredentialsMap Users.unseal (Some Users.staff))) Users.forAdmins
  = (None, Some {| username := Some "root@x.test";
                   password := Some "hunter2" |}).
Proof.
  destruct (credentials_last_user_wins Users.unseal []
              [Users.user "member" "joe@x.test" "ok:swordfish";
               Users.user "admin" "old@x.test" "damaged"]
              (Users.user "admin" "root@x.test" "ok:hunter2") "hunter2"
              Examples.formEnv Examples.formAuth Users.forAdmins)
    as (L & G).
  - reflexivity.
  - discriminate.
  - intros v [<- | [<- | []]] R; [discriminate R |].
    eexists. reflexivity.
  - split; [exact L |]. apply G; try reflexivity. discriminate.
Defined.

(** X17: a password that does not decrypt costs only its user: the loop goes
    on, and when no test user of role [r] (and none of role [__proto__]) has
    a password that decrypts, which includes no test user at all,
    [credentialsMap] has no entry for [r] and still has the prototype of an
    object literal; in a form-login environment a story that requires [r]
    is then skipped as lacking a test user, unless [r] names a member of
    [Object.prototype]. *)
Theorem undecryptable_users_are_dropped (decrypt : string -> Result string)
    (testUsers : option (list TestUser.t)) (r : string)
    (env : Environment) (cfg : AuthConfig) (s : Story) :
  let o := buildCredentialsMap decrypt testUsers in
  (forall users v, testUsers = Some users -> In v users ->
     TestUser.role v = r \/ TestUser.role v = "__proto__" ->
     exists m, decrypt (TestUser.password_encrypted v) = Throw m) ->
  r <> "__proto__" ->
  own o !! r = None /\ proto o = None /\
  (auth_config env = Some cfg -> auth_type cfg = auth_form ->
   required_role s = Some r -> r <> "" ->
   existsb (String.eqb r) objectPrototypeNames = false ->
   gate env (own o) s
   = (Some ("Missing test user for required role: " +:+ r), None)).
Proof.
  intros o H N. subst o.
  assert (L : own (buildCredentialsMap decrypt testUsers) !! r = None /\
              proto (buildCredentialsMap decrypt testUsers) = None).
  { destruct testUsers as [users|]; [| split; reflexivity].
    rewrite buildCredentialsMap_fileUsers.
    destruct (fileUsers_untouched decrypt r users emptyObject) as (_ & U).
    { intros v I E. apply (H users v eq_refl I). now left. }
    destruct (fileUsers_untouched decrypt "__proto__" users emptyObject)
      as (P & _).
    { intros v I E. apply (H users v eq_refl I). now right. }
    rewrite (U N), (P eq_refl). split; reflexivity. }
  destruct L as (L & P). split; [exact L |]. split; [exact P |].
  intros C F R NE I. unfold gate. rewrite R, C, F.
  destruct r as [|c r']; [contradiction |].
  unfold lookupRole. now rewrite L, I.
Qed.

Lemma undecryptable_users_are_dropped_witness :
  own (buildCredentialsMap Users.unseal
         (Some [Users.user "auditor" "eve@x.test" "damaged";
                Users.user "member" "joe@x.test" "ok:swordfish"]))
    !! "auditor" = None /\
  gate Examples.formEnv
    (own (buildCredentialsMap Users.unseal
            (Some [Users.user "auditor" "eve@x.test" "damaged";
                   Users.user "member" "joe@x.test" "ok:swordfish"])))
    Users.forAuditors
  = (Some "Missing test user for required role: auditor", None).
Proof.
  destruct (undecryptable_users_are_dropped Users.unseal
              (Some [Users.user "auditor" "eve@x.test" "damaged";
                     Users.user "member" "joe@x.test" "ok:swordfish"])
              "auditor" Examples.formEnv Examples.formAuth Users.forAuditors)
    as (L & _ & G).
  - intros users v E I R. injection E as <-.
    destruct I as [<- | [<- | []]].
    + eexists. reflexivity.
    + destruct R as [R | R]; discriminate R.
  - discriminate.
  - split; [exact L |]. apply G; try reflexivity. discriminate.
Defined.

(** ** [crypto.ts]: the key and the format *)

(** X18: without a key nothing is encrypted or decrypted: when
    [ENCRYPTION_KEY] is not set, or is set to the empty string, [encrypt]
    throws the key error for every plaintext, and [decrypt] throws for
    every input, the format error when the input has not four fields (the
    format is checked first) and the key error otherwise. *)
Theorem encryption_key_required (text : Type) (node : Crypto.Node text)
    (envKey : option string) :
  JS.truthy envKey = false ->
  (forall salt iv plaintext,
     Crypto.encrypt node envKey salt iv plaintext
     = Throw "ENCRYPTION_KEY environment variable is not set") /\
  (forall c,
     Crypto.decrypt node envKey c
     = Throw (if Nat.eqb (colons c) 3
              then "ENCRYPTION_KEY environment variable is not set"
              else "Invalid ciphertext format")).
Proof.
  intros K.
  assert (G : Crypto.getEncryptionKey envKey
              = Throw "ENCRYPTION_KEY environment variable is not set").
  { unfold Crypto.getEncryptionKey.
    destruct envKey as [[|c k]|]; [reflexivity | discriminate | reflexivity]. }
  split.
  - intros salt iv plaintext.
    unfold Crypto.encrypt, Crypto.deriveKey. now rewrite G.
  - intros c. unfold Crypto.decrypt, Crypto.deriveKey. rewrite G.
    pose proof (split_length c) as L.
    destruct (JS.split ":" c) as [|p1 [|p2 [|p3 [|p4 [|p5 ps]]]]];
      simpl in L; try discriminate L; injection L as <-; reflexivity.
Qed.

Lemma encryption_key_required_witness :
  Crypto.encrypt Examples.standIn (Some "") [] [] "hunter2"
  = Throw "ENCRYPTION_KEY environment variable is not set" /\
  Crypto.decrypt Examples.standIn (Some "") "a:b:c:d"
  = Throw "ENCRYPTION_KEY environment variable is not set".
Proof.
  destruct (encryption_key_required string Examples.standIn (Some "") eq_refl)
    as (E & D).
  split; [apply E | apply (D "a:b:c:d")].
Defined.

Lemma encrypt_fields (text : Type) (node : Crypto.Node text)
    (key : string) (salt iv : Crypto.bytes) (plaintext : text) :
  Crypto.Sound node -> key <> "" ->
  let k := Crypto.scrypt node key salt 32 in
  let sealed := Crypto.gcmEncrypt node k iv (Crypto.utf8Encode node plaintext) in
  exists c,
    Crypto.encrypt node (Some key) salt iv plaintext = Ok c /\
    JS.split ":" c
    = [ Crypto.base64Encode node salt; Crypto.base64Encode node iv;
        Crypto.base64Encode node (snd sealed);
        Crypto.base64Encode node (fst sealed) ].
Proof.
  intros S K k sealed. subst k sealed.
  destruct key as [|k0 key]; [now destruct K |].
  unfold Crypto.encrypt, Crypto.deriveKey, Crypto.getEncryptionKey.
  destruct (Crypto.gcmEncrypt node _ iv (Crypto.utf8Encode node plaintext))
    as [encrypted tag].
  eexists. split; [reflexivity |].
  rewrite split_join4 by apply (Crypto.base64_alphabet node S). reflexivity.
Qed.

(** X19: with the key configured [encrypt] always returns, and what it
    returns has exactly three colons: the salt, the iv, the tag and the
    data, each in base64, in this order; the salt and the iv that were drawn
    can be read back from the first two fields. *)
Theorem encrypt_format (text : Type) (node : Crypto.Node text)
    (key : string) (salt iv : Crypto.bytes) (plaintext : text) :
  Crypto.Sound node -> key <> "" ->
  exists c saltB64 ivB64 tagB64 encryptedB64,
    Crypto.encrypt node (Some key) salt iv plaintext = Ok c /\
    colons c = 3 /\
    JS.split ":" c = [saltB64; ivB64; tagB64; encryptedB64] /\
    Crypto.base64Decode node saltB64 = salt /\
    Crypto.base64Decode node ivB64 = iv /\
    (Crypto.base64Decode node encryptedB64, Crypto.base64Decode node tagB64)
    = Crypto.gcmEncrypt node (Crypto.scrypt node key salt 32) iv
        (Crypto.utf8Encode node plaintext).
Proof.
  intros S K.
  destruct (encrypt_fields text node key salt iv plaintext S K) as (c & E & F).
  exists c. do 4 eexists. split; [exact E |]. split.
  { pose proof (split_length c) as L. rewrite F in L. simpl in L. lia. }
  split; [exact F |].
  rewrite !(Crypto.base64_inverse node S).
  split; [reflexivity |]. split; [reflexivity |].
  now destruct (Crypto.gcmEncrypt node _ iv _).
Qed.

Lemma encrypt_format_witness :
  exists c,
    Crypto.encrypt Examples.standIn (Some "secret") [] [] "hunter2" = Ok c /\
    colons c = 3.
Proof.
  destruct (encrypt_format string Examples.standIn "secret" [] [] "hunter2"
              standIn_sound)
    as (c & _ & _ & _ & _ & E & C & _); [discriminate |].
  exists c. split; assumption.
Defined.

(** X20: a ciphertext stands for one plaintext: under one key, two calls of
    [encrypt] return the same string only if they drew the same salt and
    the same iv and were given the same plaintext. *)
Theorem encrypt_injective (text : Type) (node : Crypto.Node text)
    (key : string) (salt iv salt' iv' : Crypto.bytes) (p p' : text) :
  Crypto.Sound node -> key <> "" ->
  Crypto.wellFormed node p -> Crypto.wellFormed node p' ->
  Crypto.encrypt node (Some key) salt iv p
  = Crypto.encrypt node (Some key) salt' iv' p' ->
  salt = salt' /\ iv = iv' /\ p = p'.
Proof.
  intros S K W W' E.
  destruct (encrypt_fields text node key salt iv p S K) as (c & E1 & F1).
  destruct (encrypt_fields text node key salt' iv' p' S K) as (c' & E2 & F2).
  assert (C : c = c') by congruence. subst c'.
  rewrite F1 in F2. injection F2 as Hs Hi Ht He.
  apply (f_equal (Crypto.base64Decode node)) in Hs, Hi, Ht, He.
  rewrite !(Crypto.base64_inverse node S) in Hs, Hi, Ht, He.
  subst salt' iv'. split; [reflexivity |]. split; [reflexivity |].
  pose proof (Crypto.gcm_inverse node S (Crypto.scrypt node key salt 32) iv
                (Crypto.utf8Encode node p)) as G.
  pose proof (Crypto.gcm_inverse node S (Crypto.scrypt node key salt 32) iv
                (Crypto.utf8Encode node p')) as G'.
  rewrite Ht, He, G' in G. injection G as G.
  apply (f_equal (Crypto.utf8Decode node)) in G.
  now rewrite !(Crypto.utf8_inverse node S) in G by assumption.
Qed.

Lemma encrypt_injective_witness :
  Crypto.encrypt Examples.standIn (Some "secret") [] [] "hunter2"
  = Crypto.encrypt Examples.standIn (Some "secret") [] [] "hunter2" /\
  ([] : Crypto.bytes) = [] /\ ([] : Crypto.bytes) = [] /\ "hunter2" = "hunter2".
Proof.
  split; [reflexivity |].
  apply (encrypt_injective string Examples.standIn "secret" [] [] [] []
           "hunter2" "hunter2" standIn_sound);
    [discriminate | exact I | exact I | reflexivity].
Defined.

(** ** The login *)

(** X21: [authenticateUser] never throws and makes the calls of the login in
    a fixed order: [goto] the login page, [fill] the user name, [fill] the
    password, [click] the submit button, then wait for the success
    indicator (for the page load when there is none).  It stops at the first
    call that is rejected and reports that call's message behind
    [Authentication failed: ]; it reports success exactly when all five
    calls were made and accepted.  When the login URL cannot be resolved no
    call is made. *)
Theorem authenticateUser_plan (b : Browser) (baseUrl : string)
    (creds : UserCredentials) (cfg : AuthConfig) (h : History) :
  match resolveUrl b (JS.nullish (loginUrl cfg) "/") baseUrl with
  | None =>
      authenticateUser b baseUrl creds cfg h
      = (Some "Authentication failed: Invalid URL", h)
  | Some target =>
      exists made rest,
        loginPlan target creds cfg = made ++ rest /\
        snd (authenticateUser b baseUrl creds cfg h) = rev made ++ h /\
        match fst (authenticateUser b baseUrl creds cfg h) with
        | None =>
            rest = [] /\
            forall k e, nth_error made k = Some e ->
              rejects b (rev (firstn k made) ++ h) e = None
        | Some err =>
            exists before e msg,
              made = before ++ [e] /\
              rejects b (rev before ++ h) e = Some msg /\
              err = "Authentication failed: " +:+ msg
        end
  end.
Proof.
  unfold authenticateUser, bind, perform, loginPlan.
  destruct (resolveUrl b (JS.nullish (loginUrl cfg) "/") baseUrl)
    as [target|]; [| reflexivity].
  set (e1 := Goto target).
  set (e2 := PageFill _ (username creds)).
  set (e3 := PageFill _ (password creds)).
  set (e4 := PageClick _).
  assert (W : forall h',
    (match successIndicator cfg with
     | Some (String c s) => perform b (WaitForSelector (String c s) 10000)
     | _ => perform b WaitForLoadState
     end) h'
    = perform b (match successIndicator cfg with
                 | Some (String c s) => WaitForSelector (String c s) 10000
                 | _ => WaitForLoadState
                 end) h').
  { intros h'. now destruct (successIndicator cfg) as [[|c s]|]. }
  unfold perform in W. 
  set (e5 := match successIndicator cfg with
             | Some (String c s) => WaitForSelector (String c s) 10000
             | _ => WaitForLoadState
             end) in *.
  destruct (rejects b h e1) as [m|] eqn:R1.
  { exists [e1], [e2; e3; e4; e5]. repeat split.
    exists [], e1, m. repeat split. exact R1. }
  destruct (rejects b (e1 :: h) e2) as [m|] eqn:R2.
  { exists [e1; e2], [e3; e4; e5]. repeat split.
    exists [e1], e2, m. repeat split. exact R2. }
  destruct (rejects b (e2 :: e1 :: h) e3) as [m|] eqn:R3.
  { exists [e1; e2; e3], [e4; e5]. repeat split.
    exists [e1; e2], e3, m. repeat split. exact R3. }
  destruct (rejects b (e3 :: e2 :: e1 :: h) e4) as [m|] eqn:R4.
  { exists [e1; e2; e3; e4], [e5]. repeat split.
    exists [e1; e2; e3], e4, m. repeat split. exact R4. }
  rewrite W.
  destruct (rejects b (e4 :: e3 :: e2 :: e1 :: h) e5) as [m|] eqn:R5.
  { exists [e1; e2; e3; e4; e5], []. repeat split.
    exists [e1; e2; e3; e4], e5, m. repeat split. exact R5. }
  exists [e1; e2; e3; e4; e5], []. repeat split.
  intros k e E.
  destruct k as [|[|[|[|[|k]]]]]; simpl in E; try injection E as <-;
    simpl; try assumption.
  now destruct k.
Qed.

(** ** Which stories are executed *)

Lemma runOne_entered (b : Browser) (env : Environment)
    (cm : gmap string UserCredentials) (s : StoryRow) (c : Counters)
    (w : World) :
  storiesEntered (history (snd (runOne b env cm s c w)))
  = (if admitted env cm s then [storyId s] else [])
    ++ storiesEntered (history w).
Proof.
  unfold runOne, admitted, storyId.
  destruct (gate env cm (story s)) as [[reason|] creds]; simpl;
    [reflexivity |].
  pose proof (entered_executeStory b (story s) (base_url env)
                (runOptions env creds) (history w)) as E.
  destruct (executeStory b (story s) (base_url env) (runOptions env creds)
              (history w)) as [[r|msg] h']; exact E.
Qed.

Lemma storyLoop_entered (b : Browser) (statusRead : nat -> option string)
    (env : Environment) (cm : gmap string UserCredentials) (total : nat) :
  forall (todo : list StoryRow) (i : nat) (c : Counters) (w : World),
    exists n,
      n <= length todo /\
      (forall j, j < n -> isCancelled (statusRead (i + j)) = false) /\
      (n < length todo -> isCancelled (statusRead (i + n)) = true) /\
      (n < length todo <->
       fst (storyLoop b statusRead env cm total todo i c w) = None) /\
      let w' := snd (storyLoop b statusRead env cm total todo i c w) in
      map tr_story_id (results w')
      = map tr_story_id (results w) ++ map storyId (firstn n todo) /\
      storiesEntered (history w')
      = rev (map storyId (List.filter (admitted env cm) (firstn n todo)))
        ++ storiesEntered (history w).
Proof.
  induction todo as [|s rest IH]; intros i c w.
  - exists 0. simpl. rewrite app_nil_r.
    repeat split; intros; try lia; try discriminate; auto.
  - simpl. destruct (isCancelled (statusRead i)) eqn:X.
    + exists 0. simpl. rewrite app_nil_r, Nat.add_0_r.
      repeat split; intros; try lia; try discriminate; auto.
    + set (w2 := updateRun _ (onProgress _ w)).
      pose proof (runOne_spec b env cm s c w2) as R.
      pose proof (runOne_entered b env cm s c w2) as En.
      destruct (runOne b env cm s c w2) as [c1 w3]. simpl in R, En.
      destruct R as ((row & R1 & R2) & _).
      destruct (IH (S i) c1 w3) as (n & Le & U & C & Iff & Res & Ent).
      exists (S n). simpl.
      split; [lia |]. split.
      { intros [|j] J; [now rewrite Nat.add_0_r |].
        rewrite Nat.add_succ_r. apply U. lia. }
      split; [intros J; rewrite Nat.add_succ_r; apply C; lia |].
      split; [rewrite <- Iff; lia |].
      split.
      * rewrite Res, R1, map_app. simpl. rewrite R2, <- app_assoc.
        reflexivity.
      * rewrite Ent, En.
        change (history w2) with (history w).
        destruct (admitted env cm s); simpl; [| reflexivity].
        now rewrite <- app_assoc.
Qed.

(** X22: every story is dealt with once and in order.  Let [n] be the index
    at which the run is found cancelled (the number of stories when it never
    is): exactly the first [n] stories get a row in [test_results], in
    order; of these, the ones that pass the role check are executed, each
    once and in order, and the others never reach [executeStory]; no story
    from [n] on is executed. *)
Theorem stories_executed_once_in_order (b : Browser)
    (statusRead : nat -> option string) (env : Environment)
    (cm : gmap string UserCredentials) (stories : list StoryRow) (w : World) :
  exists n,
    n <= length stories /\
    (forall j, j < n -> isCancelled (statusRead j) = false) /\
    (n < length stories -> isCancelled (statusRead n) = true) /\
    let w' := executeTestRun b statusRead env cm stories w in
    map tr_story_id (results w')
    = map tr_story_id (results w) ++ map storyId (firstn n stories) /\
    storiesEntered (history w')
    = rev (map storyId (List.filter (admitted env cm) (firstn n stories)))
      ++ storiesEntered (history w).
Proof.
  destruct stories as [|s rest].
  - exists 0. simpl. rewrite app_nil_r.
    repeat split; intros; try lia; auto.
  - rewrite executeTestRun_loop by discriminate.
    destruct (storyLoop_entered b statusRead env cm (length (s :: rest))
                (s :: rest) 0 {| c_passed := 0; c_failed := 0; c_skipped := 0 |}
                (updateRun (setRunning (length (s :: rest))) w))
      as (n & Le & U & C & _ & Res & Ent).
    exists n. split; [exact Le |]. split; [exact U |]. split; [exact C |].
    destruct (storyLoop b statusRead env cm _ (s :: rest) 0 _ _)
      as [[c|] wk]; simpl in Res, Ent |- *; split; assumption.
Qed.

(** X23: an observer of the run record never sees a counter go down: over
    the successive states that [executeTestRun] writes to [test_runs], from
    a record whose counters are zero, [stories_passed], [stories_failed] and
    [stories_skipped] never decrease, whether stories pass, fail, are
    skipped or throw, and whether the run is cancelled or not. *)
Theorem persisted_counters_never_decrease (b : Browser)
    (statusRead : nat -> option string) (env : Environment)
    (cm : gmap string UserCredentials) (stories : list StoryRow) (w : World) :
  runStates w = [run w] ->
  stories_passed (run w) = 0 -> stories_failed (run w) = 0 ->
  stories_skipped (run w) = 0 ->
  nondecreasing (runStates (executeTestRun b statusRead env cm stories w)).
Proof.
  intros R P F S. apply runStates_nondecreasing.
  split; [exists []; exact R |]. split; [now rewrite R |].
  unfold persisted_le. simpl. lia.
Qed.

Lemma persisted_counters_never_decrease_witness :
  nondecreasing
    (runStates (executeTestRun Examples.calm Examples.cancelledAfterTwo
                  Examples.openEnv ∅ Examples.five Examples.fresh)).
Proof.
  apply (persisted_counters_never_decrease Examples.calm
           Examples.cancelledAfterTwo Examples.openEnv ∅ Examples.five
           Examples.fresh); reflexivity.
Defined.

(** X24: roles need a form login: in an environment whose authentication is
    not configured, or is of another type than [form], a story that
    requires a role is skipped whatever test users there are.
    [executeStory] is not called, the row written to [test_results] has
    [passed] false and the reason as its error, the story's
    [last_result] is [skipped], and the skipped counter, one higher, is
    written to the run. *)
Theorem role_needs_form_login (b : Browser) (env : Environment)
    (cm : gmap string UserCredentials) (s : StoryRow) (c : Counters)
    (w : World) (role : string) :
  required_role (story s) = Some role -> role <> "" ->
  match auth_config env with
  | Some cfg => auth_type cfg <> auth_form
  | None => True
  end ->
  let reason := "Story requires role " +:+ quoted role
                +:+ " but environment auth is not configured for form login" in
  let c' := fst (runOne b env cm s c w) in
  let w' := snd (runOne b env cm s c w) in
  c' = {| c_passed := c_passed c; c_failed := c_failed c;
          c_skipped := S (c_skipped c) |} /\
  history w' = history w /\
  results w' = results w ++ [plainRow s reason] /\
  lastResults w' = lastResults w ++ [(storyId s, "skipped")] /\
  run w' = setCounts c' (run w).
Proof.
  intros R N A reason.
  assert (G : gate env cm (story s) = (Some reason, None)).
  { unfold gate. rewrite R. destruct role as [|ch r]; [contradiction |].
    destruct (auth_config env) as [cfg|]; [| reflexivity].
    destruct (auth_type cfg); try reflexivity. contradiction. }
  rewrite (runOne_skip b env cm s c w reason None G). simpl.
  repeat split.
Qed.

Lemma role_needs_form_login_witness :
  let w' := snd (runOne Examples.calm Examples.openEnv
                   {[ "admin" := Examples.admin ]}
                   (Examples.storyRow "s1" (Some "admin")) Examples.noCounts
                   Examples.fresh) in
  history w' = [] /\ lastResults w' = [("s1", "skipped")].
Proof.
  destruct (role_needs_form_login Examples.calm Examples.openEnv
              {[ "admin" := Examples.admin ]}
              (Examples.storyRow "s1" (Some "admin")) Examples.noCounts
              Examples.fresh "admin" eq_refl)
    as (_ & H & _ & L & _).
  - discriminate.
  - discriminate.
  - split; [exact H | exact L].
Defined.

(** ** The retry policy, seen from the story *)

Lemma failuresOf_cons (j : nat) (e : Event) (h : History) :
  failuresOf j (e :: h)
  = (if isFailure e && concerns j e then 1 else 0) + failuresOf j h.
Proof.
  unfold failuresOf. simpl. destruct (isFailure e && concerns j e); reflexivity.
Qed.

Lemma failuresOf_markers (j : nat) (h : History) :
  failuresOf j (markers h) = failuresOf j h.
Proof.
  unfold markers. induction h as [|e h IH]; [reflexivity |].
  destruct e; simpl; rewrite ?failuresOf_cons; simpl; rewrite ?IH;
    reflexivity.
Qed.

Lemma failedAttempts_app (d h : History) :
  failedAttempts (d ++ h) = failedAttempts d + failedAttempts h.
Proof. unfold failedAttempts. now rewrite List.filter_app, length_app. Qed.

(** Events that do not belong to step [j] leave its measures alone. *)
Lemma measures_away (j : nat) (d : list Event) (h h' : History) :
  markers h' = d ++ markers h -> away j d ->
  attemptsOf j h' = attemptsOf j h /\
  failuresOf j h' = failuresOf j h /\
  lastResultOf j h' = lastResultOf j h.
Proof.
  intros M A.
  rewrite <- (attemptsOf_markers j h'), <- (failuresOf_markers j h'),
    <- (lastResultOf_markers j h'), M,
    <- (attemptsOf_markers j h), <- (failuresOf_markers j h),
    <- (lastResultOf_markers j h).
  clear M. unfold away in A.
  induction d as [|e d IH]; [repeat split |].
  simpl in A. apply andb_true_iff in A. destruct A as [Ae Ad].
  destruct (IH Ad) as (I1 & I2 & I3).
  simpl app. rewrite attemptsOf_cons, failuresOf_cons, I1, I2.
  apply negb_true_iff in Ae.
  destruct e; simpl in *; rewrite ?Ae, ?andb_false_r; auto.
Qed.

Lemma away_app (j : nat) (d1 d2 : list Event) :
  away j d1 -> away j d2 -> away j (d1 ++ d2).
Proof. unfold away. intros A1 A2. now rewrite forallb_app, A1, A2. Qed.

(** One attempt of step [i], counted for every step [j]. *)
Lemma executeStep_failures (b : Browser) (step : StoryStep) (i : nat)
    (h : History) (r : StepResult) (h1 : History) (j : nat) :
  executeStep b step i h = (r, h1) ->
  failuresOf j h1
  = (if negb (sr_passed r) && Nat.eqb i j then 1 else 0) + failuresOf j h.
Proof.
  intros E. pose proof (executeStep_markers b step i h) as [S M].
  rewrite E in S, M. simpl in S, M.
  rewrite <- failuresOf_markers, M, !failuresOf_cons, failuresOf_markers.
  simpl. now rewrite S.
Qed.

(** The retry loop of step [i] adds markers of step [i] only. *)
Lemma attemptStep_away (b : Browser) (step : StoryStep) (i : nat) :
  forall (n : nat) (lastError : option string) (retries : nat) (h : History)
         (r : StepResult) (lastError' : option string) (retries' : nat)
         (h' : History),
    attemptStep b n step i lastError retries h = ((r, lastError', retries'), h') ->
    exists d, markers h' = d ++ markers h /\ forall j, j <> i -> away j d.
Proof.
  assert (One : forall h r1 h1, executeStep b step i h = (r1, h1) ->
            markers h1 = [StepDone r1; EnterStep i] ++ markers h /\
            forall j, j <> i -> away j [StepDone r1; EnterStep i]).
  { intros h r1 h1 X. pose proof (executeStep_markers b step i h) as [S M].
    rewrite X in S, M. simpl in S, M. split; [exact M |].
    intros j Hj. unfold away. simpl. rewrite S.
    destruct (Nat.eqb_spec i j); [congruence | reflexivity]. }
  induction n as [|n IH]; intros lastError retries h r lastError' retries' h' E;
    simpl in E;
    destruct (executeStep b step i h) as [r1 h1] eqn:X;
    destruct (One h r1 h1 X) as (M1 & A1);
    destruct (sr_passed r1).
  - injection E as <- <- <- <-. eauto.
  - injection E as <- <- <- <-. eauto.
  - injection E as <- <- <- <-. eauto.
  - apply IH in E. destruct E as (d & M & A).
    exists (d ++ [StepDone r1; EnterStep i]). split.
    + rewrite M. change (markers (WaitForTimeout (Some 1000%Z) :: h1))
        with (markers h1). rewrite M1, <- app_assoc. reflexivity.
    + intros j Hj. apply away_app; auto.
Qed.

(** The step loop from index [i] adds markers of the steps it runs only. *)
Lemma runSteps_away (b : Browser) (opts : ExecutionOptions) (sid : string) :
  forall (todo : list StoryStep) (i : nat) (l : Locals) (h : History)
         (t : option string) (l' : Locals) (h' : History),
    runSteps b opts sid todo i l h = (t, l', h') ->
    exists d, markers h' = d ++ markers h /\
              forall j, j < i \/ i + length todo <= j -> away j d.
Proof.
  induction todo as [|step rest IH]; intros i l h t l' h' E; simpl in E.
  - injection E as <- <- <-. exists []. split; [reflexivity |].
    intros j _. reflexivity.
  - destruct (attemptStep b (retryCount opts) step i None (l_retries l) h)
      as [[[r lastError] retries'] h1] eqn:X.
    destruct (attemptStep_away b step i _ _ _ _ _ _ _ _ X) as (d1 & M1 & A1).
    destruct (sr_passed r).
    + apply IH in E. destruct E as (d & M & A).
      exists (d ++ d1). split; [now rewrite M, M1, app_assoc |].
      intros j Hj. simpl in Hj. apply away_app; [apply A | apply A1]; lia.
    + assert (Q : markers h' = markers h1).
      { destruct (screenshotOnFailure opts).
        - pose proof (quiet_captureScreenshot b sid h1) as Q.
          destruct (captureScreenshot b sid h1) as [[u|msg] h2];
            injection E as <- <- <-; exact Q.
        - now injection E as <- <- <-. }
      exists d1. split; [now rewrite Q |].
      intros j Hj. simpl in Hj. apply A1. lia.
Qed.

(** Steps that all pass hand the loop over to the steps after them. *)
Lemma runSteps_app_passed (b : Browser) (opts : ExecutionOptions)
    (sid : string) (rest : list StoryStep) :
  forall (pre : list StoryStep) (i : nat) (l : Locals) (h : History)
         (l1 : Locals) (h1 : History),
    runSteps b opts sid pre i l h = (None, l1, h1) -> l_passed l1 = true ->
    runSteps b opts sid (pre ++ rest) i l h
    = runSteps b opts sid rest (i + length pre) l1 h1 /\
    length (l_stepResults l1) = length (l_stepResults l) + length pre.
Proof.
  induction pre as [|step pre IH]; intros i l h l1 h1 E P; simpl in E.
  - injection E as <- <-. simpl. rewrite Nat.add_0_r. split; [reflexivity | lia].
  - simpl app. simpl runSteps.
    destruct (attemptStep b (retryCount opts) step i None (l_retries l) h)
      as [[[r lastError] retries'] h2].
    destruct (sr_passed r).
    + destruct (IH _ _ _ _ _ E P) as (R & L). split.
      * rewrite R. simpl. now rewrite Nat.add_succ_r.
      * rewrite L. simpl. rewrite length_app. simpl. lia.
    + exfalso. destruct (screenshotOnFailure opts).
      * destruct (captureScreenshot b sid h2) as [[u|msg] h3];
          [| discriminate].
        injection E as <- <-. discriminate P.
      * injection E as <- <-. discriminate P.
Qed.

(** What the verifications, the captures and the [catch] block leave of the
    step loop: its markers, its step results and its retries. *)
Lemma afterTryCatch_after_steps (b : Browser) (story : Story)
    (baseUrl : string) (opts : ExecutionOptions) (h hs : History)
    (t2 : option string) (l2 : Locals) (h2 : History) :
  enterSite b baseUrl opts h = (Ok tt, hs) ->
  runSteps b opts (id story) (steps story) 0 initialLocals hs = (t2, l2, h2) ->
  let l' := fst (afterTryCatch b story baseUrl opts h) in
  let h' := snd (afterTryCatch b story baseUrl opts h) in
  markers h' = markers h2 /\ l_stepResults l' = l_stepResults l2 /\
  l_retries l' = l_retries l2.
Proof.
  intros En R. unfold afterTryCatch.
  destruct (tryBlock b story baseUrl opts initialLocals h)
    as [[t l1] h1] eqn:X.
  assert (K : markers h1 = markers h2 /\
              l_stepResults l1 = l_stepResults l2 /\
              l_retries l1 = l_retries l2).
  { unfold tryBlock in X. rewrite En, R in X.
    destruct t2 as [msg|]; [now injection X as <- <- <- |].
    destruct (l_passed l2); [| now injection X as <- <- <-].
    destruct (outcome story) as [vs|]; [| now injection X as <- <- <-].
    destruct (verifyAll b vs l2 h2) as [l3 h3] eqn:V.
    destruct (verifyAll_measures b vs _ _ _ _ V) as (M3 & S3 & T3).
    destruct (negb (l_passed l3) && screenshotOnFailure opts
              && negb (JS.truthy (l_screenshotUrl l3))).
    - pose proof (quiet_captureScreenshot b (id story) h3) as Q.
      destruct (captureScreenshot b (id story) h3) as [[u|msg] h4];
        injection X as <- <- <-; simpl in *; rewrite Q; auto.
    - now injection X as <- <- <-. }
  destruct K as (M & S & T).
  destruct t as [msg|]; simpl.
  - destruct (catchBlock b story opts msg l1 h1) as [l' h'] eqn:C.
    apply catchBlock_measures in C. destruct C as (C1 & C2 & C3 & _).
    simpl. now rewrite C1, C2, C3.
  - auto.
Qed.

(** Three attempts of step [i], the first two failed, the third passed,
    with the pause of one second between them. *)
Lemma three_attempts_measures (b : Browser) (step : StoryStep) (i : nat)
    (h0 : History) (r1 r2 r3 : StepResult) (h1 h2 h3 : History) :
  executeStep b step i h0 = (r1, h1) -> sr_passed r1 = false ->
  executeStep b step i (WaitForTimeout (Some 1000%Z) :: h1) = (r2, h2) ->
  sr_passed r2 = false ->
  executeStep b step i (WaitForTimeout (Some 1000%Z) :: h2) = (r3, h3) ->
  sr_passed r3 = true ->
  attemptsOf i h3 = 3 + attemptsOf i h0 /\
  failuresOf i h3 = 2 + failuresOf i h0 /\
  failedAttempts h3 = 2 + failedAttempts h0 /\
  lastResultOf i h3 = Some r3.
Proof.
  intros E1 P1 E2 P2 E3 P3.
  destruct (executeStep_measures b step i _ _ _ E1) as (_ & A1 & F1 & _).
  destruct (executeStep_measures b step i _ _ _ E2) as (_ & A2 & F2 & _).
  destruct (executeStep_measures b step i _ _ _ E3) as (_ & A3 & F3 & L3).
  pose proof (executeStep_failures b step i _ _ _ i E1) as G1.
  pose proof (executeStep_failures b step i _ _ _ i E2) as G2.
  pose proof (executeStep_failures b step i _ _ _ i E3) as G3.
  rewrite P1, P2, P3, Nat.eqb_refl in *.
  rewrite failuresOf_cons in G2, G3. rewrite failedAttempts_cons in F2, F3.
  rewrite (A3 i), attemptsOf_cons, (A2 i), attemptsOf_cons, (A1 i), (L3 i).
  rewrite !Nat.eqb_refl. simpl in *.
  split; [lia |]. split; [lia |]. split; [lia | reflexivity].
Qed.

(** C1: every step is entered at most [retryCount + 1] times, the retries
    reported are the failed attempts, and one result is kept per step, that
    of its latest attempt.  With [retryCount = 2], take a story in which the
    steps before step [i] have passed and step [i] fails on its first and
    on its second attempt and passes on its third: then in the run of
    [executeStory] step [i] is entered exactly 3 times, 2 of its attempts
    failed, and the result that [executeStory] returns holds at position
    [i] the passing result of the third attempt; its [retries] are those
    counted before the step, 2 for the step, and one for each attempt that
    failed after it. *)
Theorem retry_policy (b : Browser) (story : Story) (baseUrl : string)
    (opts : ExecutionOptions) (h : History) :
  (let h' := snd (executeStory b story baseUrl opts h) in
   (forall i, attemptsOf i h' <= attemptsOf i h + retryCount opts + 1) /\
   (forall r, fst (executeStory b story baseUrl opts h) = Ok r ->
      failedAttempts h' = failedAttempts h + retries r /\
      map sr_step (step_results r) = seq 0 (length (step_results r)) /\
      length (step_results r) <= length (steps story) /\
      Forall (fun sr => lastResultOf (sr_step sr) h' = Some sr)
             (step_results r)))
  /\
  (forall (pre : list StoryStep) (step : StoryStep) (post : list StoryStep)
          (l : Locals) (hs h0 : History) (r1 r2 r3 : StepResult)
          (h1 h2 h3 : History),
     let i := length pre in
     let h' := snd (executeStory b story baseUrl opts h) in
     retryCount opts = 2 ->
     steps story = pre ++ step :: post ->
     rejects b (EnterStory (id story) :: h) NewContext = None ->
     rejects b (NewContext :: EnterStory (id story) :: h) NewPage = None ->
     enterSite b baseUrl opts (atTry story h) = (Ok tt, hs) ->
     runSteps b opts (id story) pre 0 initialLocals hs = (None, l, h0) ->
     l_passed l = true ->
     executeStep b step i h0 = (r1, h1) -> sr_passed r1 = false ->
     executeStep b step i (WaitForTimeout (Some 1000%Z) :: h1) = (r2, h2) ->
     sr_passed r2 = false ->
     executeStep b step i (WaitForTimeout (Some 1000%Z) :: h2) = (r3, h3) ->
     sr_passed r3 = true ->
     attemptsOf i h' = 3 + attemptsOf i h /\
     failuresOf i h' = 2 + failuresOf i h /\
     lastResultOf i h' = Some r3 /\
     forall r, fst (executeStory b story baseUrl opts h) = Ok r ->
       nth_error (step_results r) i = Some r3 /\
       retries r + failedAttempts h3 = l_retries l + 2 + failedAttempts h').
Proof.
  split; [apply executeStory_attempts |].
  intros pre step post l hs h0 r1 r2 r3 h1 h2 h3 i h'
    RC St C1 C2 En Pre Pl E1 P1 E2 P2 E3 P3.
  (* the step loop, cut at step i *)
  destruct (runSteps_app_passed b opts (id story) (step :: post)
              pre 0 initialLocals hs l h0 Pre Pl) as (App & Len).
  simpl in App, Len. fold i in App, Len.
  assert (Third : runSteps b opts (id story) (step :: post) i l h0
                  = runSteps b opts (id story) post (S i)
                      (pushResult l r3 (2 + l_retries l)) h3).
  { simpl runSteps at 1. rewrite RC.
    rewrite (attemptStep_third_passes b step i None (l_retries l) h0
               r1 r2 r3 h1 h2 h3 E1 P1 E2 P2 E3 P3).
    now rewrite P3. }
  destruct (runSteps b opts (id story) post (S i)
              (pushResult l r3 (2 + l_retries l)) h3) as [[t lR] hR] eqn:Post.
  assert (All : runSteps b opts (id story) (steps story) 0 initialLocals hs
                = (t, lR, hR)) by (rewrite St, App; exact Third).
  destruct (afterTryCatch_after_steps b story baseUrl opts (atTry story h) hs
              t lR hR En All) as (M & SR & RT).
  (* the measures of step i along the way *)
  destruct (three_attempts_measures b step i h0 r1 r2 r3 h1 h2 h3
              E1 P1 E2 P2 E3 P3) as (A3 & G3 & F3 & L3).
  destruct (runSteps_away b opts _ _ _ _ _ _ _ _ Post) as (dp & Mp & Ap).
  destruct (measures_away i dp h3 hR Mp (Ap i (or_introl (Nat.lt_succ_diag_r i))))
    as (Ap1 & Ap2 & Ap3).
  destruct (runSteps_away b opts _ _ _ _ _ _ _ _ Pre) as (d0 & M0 & A0).
  destruct (measures_away i d0 hs h0 M0 (A0 i (or_intror (Nat.le_refl _))))
    as (A01 & A02 & _).
  pose proof (quiet_enterSite b baseUrl opts (atTry story h)) as Q.
  rewrite En in Q. simpl in Q.
  destruct (measures_away i [EnterStory (id story)] h hs) as (As1 & As2 & _);
    [rewrite Q; reflexivity | reflexivity |].
  destruct (runSteps_measures b opts _ _ _ _ _ _ _ _ Post)
    as (_ & _ & Fp & _ & rs & Rp & _).
  simpl in Fp, Rp.
  (* the result of executeStory *)
  subst h'. rewrite (executeStory_unfold b story baseUrl opts h C1 C2).
  fold (atTry story h).
  destruct (afterTryCatch b story baseUrl opts (atTry story h)) as [l' hT].
  simpl in M, SR, RT.
  destruct (same_markers hR hT M) as (KA & KF & KL).
  assert (Fin : forall m : Result ExecutionResult,
            attemptsOf i (snd (m, CloseContext :: hT)) = 3 + attemptsOf i h /\
            failuresOf i (snd (m, CloseContext :: hT)) = 2 + failuresOf i h /\
            lastResultOf i (snd (m, CloseContext :: hT)) = Some r3).
  { intros m. simpl. rewrite attemptsOf_cons, failuresOf_cons. simpl.
    rewrite KA, KL, Ap1, Ap3, A3, A01, As1.
    rewrite <- (failuresOf_markers i hT), M, failuresOf_markers,
      Ap2, G3, A02, As2.
    repeat split. exact L3. }
  destruct (rejects b hT CloseContext) as [m|].
  - destruct (Fin (Throw m)) as (F1 & F2 & F4).
    split; [exact F1 |]. split; [exact F2 |]. split; [exact F4 |].
    intros r Er. discriminate Er.
  - match goal with
    | |- context [(Ok ?res, CloseContext :: hT)] =>
        destruct (Fin (Ok res)) as (F1 & F2 & F4)
    end.
    split; [exact F1 |]. split; [exact F2 |]. split; [exact F4 |].
    intros r Er. simpl in Er. injection Er as <-. simpl.
    rewrite SR, RT, Rp, failedAttempts_cons, KF. simpl. split.
    + rewrite <- app_assoc, nth_error_app2 by lia.
      rewrite Len, Nat.sub_diag. reflexivity.
    + lia.
Qed.

Lemma retry_policy_witness :
  let run := executeStory Examples.flaky Examples.oneClick "https://x.test"
               Examples.twoRetries [] in
  attemptsOf 0 (snd run) = 3 /\ failuresOf 0 (snd run) = 2 /\
  exists r,
    fst run = Ok r /\ passed r = true /\ retries r = 2 /\
    step_results r
    = [ {| sr_step := 0; sr_action := "Click the button";
           sr_passed := true; sr_duration_ms := 2; sr_error := None |} ].
Proof.
  destruct (retry_policy Examples.flaky Examples.oneClick "https://x.test"
              Examples.twoRetries []) as [_ S].
  edestruct (S [] Examples.clickGo [] initialLocals) as (A & F & _ & _);
    try reflexivity.
  split; [exact A |]. split; [exact F |].
  eexists. repeat split.
Defined.

(** ** Cancellation and the counters *)

(** C4 on a batch of five stories cancelled between the second and the
    third, when [executeStory] throws for the second (the browser has died):
    the third to fifth story are not run, and [test_results] holds the rows
    of the first two, one passed and one failed, but the counters of the run
    record reflect the first story only: they read 1 passed and 0 failed.
    The [catch] branch of the story loop counts the failure without writing
    it, and the cancellation that follows returns before anything else
    does. *)
Theorem cancellation_after_throw :
  let w' := executeTestRun Faults.worn Examples.cancelledAfterTwo
              Examples.openEnv ∅ Examples.five Examples.fresh in
  map (fun r => (tr_story_id r, tr_passed r)) (results w')
  = [("s1", true); ("s2", false)] /\
  lastResults w' = [("s1", "passed"); ("s2", "failed")] /\
  storiesEntered (history w') = ["s2"; "s1"] /\
  (status (run w'), current_story_id (run w')) = ("running", None) /\
  (stories_passed (run w'), stories_failed (run w'), stories_skipped (run w'))
  = (1, 0, 0).
Proof. repeat split. Qed.






(** ** The [url] verification *)


(** Steps that all pass leave the error and the screenshot URL alone. *)
Lemma runSteps_passed_locals (b : Browser) (opts : ExecutionOptions)
    (sid : string) :
  forall (todo : list StoryStep) (i : nat) (l : Locals) (h : History)
         (t : option string) (l' : Locals) (h' : History),
    runSteps b opts sid todo i l h = (t, l', h') -> l_passed l' = true ->
    l_error l' = l_error l /\ l_screenshotUrl l' = l_screenshotUrl l.
Proof.
  induction todo as [|step rest IH]; intros i l h t l' h' E P; simpl in E.
  - injection E as <- <- <-. split; reflexivity.
  - destruct (attemptStep b (retryCount opts) step i None (l_retries l) h)
      as [[[r lastError] retries'] h1].
    destruct (sr_passed r).
    + destruct (IH _ _ _ _ _ _ E P) as (I1 & I2). now rewrite I1, I2.
    + exfalso. destruct (screenshotOnFailure opts).
      * destruct (captureScreenshot b sid h1) as [[u|msg] h2];
          injection E as <- <- <-; discriminate P.
      * injection E as <- <- <-. discriminate P.
Qed.

(** A capture throws exactly when [page.screenshot()] is rejected. *)
Lemma captureScreenshot_cases (b : Browser) (sid : string) (h : History) :
  match rejects b h Screenshot with
  | Some m => captureScreenshot b sid h = (Throw m, Screenshot :: h)
  | None =>
      exists u d, captureScreenshot b sid h = (Ok u, d ++ Screenshot :: h) /\
                  forallb isCapture d = true
  end.
Proof.
  unfold captureScreenshot, bind, perform.
  destruct (rejects b h Screenshot); [reflexivity |].
  unfold uploadScreenshot.
  destruct (uploadAnswer b (Screenshot :: h) _); simpl.
  - destruct (publicUrl b _); eexists; eexists [_]; split; reflexivity.
  - eexists; eexists [_]; split; reflexivity.
  - eexists; eexists [_]; split; reflexivity.
Qed.

Lemma catchBlock_captures (b : Browser) (story : Story)
    (opts : ExecutionOptions) (msg : string) (l : Locals) (h : History) :
  exists d,
    snd (catchBlock b story opts msg l h) = d ++ h /\
    forallb isCapture d = true /\
    l_passed (fst (catchBlock b story opts msg l h)) = false /\
    l_error (fst (catchBlock b story opts msg l h)) = Some msg /\
    l_stepResults (fst (catchBlock b story opts msg l h)) = l_stepResults l.
Proof.
  unfold catchBlock. destruct (screenshotOnFailure opts).
  - pose proof (captureScreenshot_cases b (id story) h) as C.
    destruct (rejects b h Screenshot) as [m|].
    + rewrite C. exists [Screenshot]. repeat split.
    + destruct C as (u & d & -> & F). exists (d ++ [Screenshot]).
      rewrite <- app_assoc. repeat split.
      rewrite forallb_app, F. reflexivity.
  - exists []. repeat split.
Qed.

(** X26: a verification of type [url] passes exactly when the page URL
    contains [expected]; when it fails, the loop is left with [passed]
    false and an error message that contains both [expected] and the URL,
    without evaluating the verifications after it.  In a run of
    [executeStory] whose steps have all passed and whose first verification
    is such a failing one, the URL is read once and only screenshot calls
    follow before the context is closed; the result returned is not passed
    and keeps the step results, and its error is that message, unless
    [screenshotOnFailure] is set and [page.screenshot()] is rejected after
    the verification: then it is the message of that rejection. *)
Theorem url_verification (b : Browser) (story : Story) (baseUrl : string)
    (opts : ExecutionOptions) (target : option string) (expected : string)
    (rest : list Verification) (l : Locals) (h : History) :
  let v := {| v_type := "url"; v_target := target; v_expected := expected |} in
  let current := currentUrl b h in
  let msg := "Expected URL to contain " +:+ quoted expected +:+ ", got "
             +:+ quoted current in
  (verify b v h =
     (if JS.includes current expected then None else Some msg, Url :: h) /\
   JS.includes msg expected = true /\ JS.includes msg current = true /\
   (JS.includes current expected = true ->
    verifyAll b (v :: rest) l h = verifyAll b rest l (Url :: h)) /\
   (JS.includes current expected = false ->
    snd (verifyAll b (v :: rest) l h) = Url :: h /\
    l_passed (fst (verifyAll b (v :: rest) l h)) = false /\
    l_error (fst (verifyAll b (v :: rest) l h)) = Some msg /\
    l_stepResults (fst (verifyAll b (v :: rest) l h)) = l_stepResults l))
  /\
  (forall (h0 hs : History),
     rejects b (EnterStory (id story) :: h0) NewContext = None ->
     rejects b (NewContext :: EnterStory (id story) :: h0) NewPage = None ->
     enterSite b baseUrl opts (atTry story h0) = (Ok tt, hs) ->
     runSteps b opts (id story) (steps story) 0 initialLocals hs = (None, l, h) ->
     l_passed l = true ->
     outcome story = Some (v :: rest) ->
     JS.includes current expected = false ->
     exists d,
       snd (executeStory b story baseUrl opts h0)
       = CloseContext :: d ++ Url :: h /\
       forallb isCapture d = true /\
       forall r, fst (executeStory b story baseUrl opts h0) = Ok r ->
         passed r = false /\ step_results r = l_stepResults l /\
         error r
         = Some match (if screenshotOnFailure opts
                       then rejects b (Url :: h) Screenshot else None) with
                | Some m => m
                | None => msg
                end).
Proof.
  intros v current msg.
  assert (V : verify b v h =
    (if JS.includes current expected then None else Some msg, Url :: h)).
  { unfold verify. simpl. fold current.
    destruct (JS.includes current expected); reflexivity. }
  assert (Fail : JS.includes current expected = false ->
            verifyAll b (v :: rest) l h = (setFailed l (Some msg), Url :: h)).
  { intros I. simpl verifyAll. now rewrite V, I. }
  split.
  { split; [exact V |]. split; [| split; [| split]].
    - unfold msg, quoted. apply includes_app_l, includes_app_r.
      apply includes_app_l, includes_self_app.
    - unfold msg, quoted. do 4 apply includes_app_l.
      apply includes_self_app.
    - intros I. simpl verifyAll. now rewrite V, I.
    - intros I. rewrite (Fail I). repeat split. }
  intros h0 hs C1 C2 En R P O I.
  destruct (runSteps_passed_locals b opts _ _ _ _ _ _ _ _ R P) as (_ & SU).
  simpl in SU.
  rewrite (executeStory_unfold b story baseUrl opts h0 C1 C2).
  fold (atTry story h0).
  unfold afterTryCatch, tryBlock. rewrite En, R, P, O, (Fail I). simpl.
  rewrite SU. simpl. rewrite andb_true_r.
  assert (Done : forall (l' : Locals) (d : list Event) (e : string),
            forallb isCapture d = true ->
            l_passed l' = false -> l_stepResults l' = l_stepResults l ->
            l_error l' = Some e ->
            exists d0,
              snd (match rejects b (d ++ Url :: h) CloseContext with
                   | Some m => (Throw m, CloseContext :: d ++ Url :: h)
                   | None =>
                       (Ok {| passed := l_passed l';
                              duration_ms :=
                                now b (CloseContext :: d ++ Url :: h)
                                - now b (atTry story h0);
                              step_results := l_stepResults l';
                              error := l_error l';
                              screenshot_url := l_screenshotUrl l';
                              console_errors :=
                                consoleErrors b (CloseContext :: d ++ Url :: h);
                              retries := l_retries l' |},
                        CloseContext :: d ++ Url :: h)
                   end) = CloseContext :: d0 ++ Url :: h /\
              forallb isCapture d0 = true /\
              forall r,
                fst (match rejects b (d ++ Url :: h) CloseContext with
                     | Some m => (Throw m, CloseContext :: d ++ Url :: h)
                     | None =>
                         (Ok {| passed := l_passed l';
                                duration_ms :=
                                  now b (CloseContext :: d ++ Url :: h)
                                  - now b (atTry story h0);
                                step_results := l_stepResults l';
                                error := l_error l';
                                screenshot_url := l_screenshotUrl l';
                                console_errors :=
                                  consoleErrors b
                                    (CloseContext :: d ++ Url :: h);
                                retries := l_retries l' |},
                          CloseContext :: d ++ Url :: h)
                     end) = Ok r ->
                passed r = false /\ step_results r = l_stepResults l /\
                error r = Some e).
  { intros l' d e F Pf Sr Er. exists d.
    destruct (rejects b (d ++ Url :: h) CloseContext); simpl.
    - repeat split; auto; discriminate.
    - split; [reflexivity |]. split; [exact F |].
      intros r Eq. injection Eq as <-. simpl. auto. }
  destruct (screenshotOnFailure opts) eqn:SF; simpl.
  - pose proof (captureScreenshot_cases b (id story) (Url :: h)) as C.
    destruct (rejects b (Url :: h) Screenshot) as [m|].
    + rewrite C.
      destruct (catchBlock_captures b story opts m (setFailed l (Some msg))
                  (Screenshot :: Url :: h)) as (dc & Hc & Fc & Pc & Ec & Sc).
      destruct (catchBlock b story opts m (setFailed l (Some msg))
                  (Screenshot :: Url :: h)) as [l' h'].
      simpl in Hc, Pc, Ec, Sc. subst h'.
      replace (dc ++ Screenshot :: Url :: h)
        with ((dc ++ [Screenshot]) ++ Url :: h)
        by (now rewrite <- app_assoc).
      apply Done; auto. rewrite forallb_app, Fc. reflexivity.
    + destruct C as (u & d & -> & F).
      replace (d ++ Screenshot :: Url :: h)
        with ((d ++ [Screenshot]) ++ Url :: h)
        by (now rewrite <- app_assoc).
      apply Done; auto. rewrite forallb_app, F. reflexivity.
  - apply (Done (setFailed l (Some msg)) [] msg); reflexivity.
Qed.

Lemma url_verification_witness :
  let run := executeStory Faults.astray Faults.signIn "https://x.test"
               (runOptions Examples.openEnv None) [] in
  JS.includes "https://x.test/login" "/dashboard" = false /\
  length (List.filter isCheck (snd run)) = 1 /\
  exists r,
    fst run = Ok r /\ passed r = false /\
    map sr_passed (step_results r) = [true] /\
    error r = Some Faults.notOnDashboard.
Proof.
  split; [reflexivity |]. split; [reflexivity |].
  edestruct (url_verification Faults.astray Faults.signIn "https://x.test"
               (runOptions Examples.openEnv None) None "/dashboard"
               [Faults.seesGreeting]) as (_ & S).
  edestruct (S []) as (d & _ & _ & R); try reflexivity.
  eexists. split; [reflexivity |].
  destruct (R _ eq_refl) as (P & _ & E).
  split; [exact P |]. split; [reflexivity | exact E].
Defined.
